(** * go-spew: the Dump walker of [spew/dump.go] and the helpers of [common.go]

    A shallow embedding of the verbose value walker ([dumpState.dump],
    [dumpState.dumpPtr], [Fdump]), of the method-invocation guard
    ([handleMethods], [catchPanic]), of the printers ([printBool], [printInt],
    [printUint], [printFloat], [printComplex], [printHexPtr]) and of the key
    comparator ([valuesSorter.Less], [sortValues]).

    Values of the Go [reflect] package are modelled by the inductive type
    [Value]; memory is a finite map from addresses to the variables stored
    there; the [io.Writer] is the string of all bytes written so far. *)

From stdpp Require Import gmap strings list.
From Stdlib Require Import ZArith DecimalString.

Set Warnings "-register-all".

Local Open Scope Z_scope.
Local Open Scope string_scope.

(** ** Values of package [reflect] *)

Module reflect.

(** [reflect.Kind]. *)
Inductive Kind :=
| Invalid | Bool
| Int | Int8 | Int16 | Int32 | Int64
| Uint | Uint8 | Uint16 | Uint32 | Uint64 | Uintptr
| Float32 | Float64 | Complex64 | Complex128
| Array | Chan | Func | Interface | Map | Ptr | Slice
| Str | Struct | UnsafePointer
| Other.

#[global] Instance Kind_eq_dec : EqDecision Kind.
Proof. solve_decision. Defined.

End reflect.

(** Widths of the integer and floating point kinds. *)
Inductive IntWidth := W8 | W16 | W32 | W64 | WNative.
Inductive FloatWidth := F32 | F64.

(** A [reflect.Value].  Every valid value carries the text of
    [v.Type().String()].  Unsigned integers and addresses are naturals, signed
    integers are in [Z]; a floating point number is its IEEE-754 binary64 bit
    pattern.  A pointer is the address it holds (0 is nil); an interface holds
    its dynamic value, if any.  A map holds its entries, each key with the
    value [MapIndex] returns for it.  [VOther] stands for a kind that the
    switch of [dump] does not list; it carries [CanInterface] and the text
    that [fmt] prints for it with the verb v. *)
Inductive Value :=
| VInvalid
| VBool (ty : string) (b : bool)
| VInt (wd : IntWidth) (ty : string) (n : Z)
| VUint (wd : IntWidth) (ty : string) (n : N)
| VUintptr (ty : string) (n : N)
| VFloat (wd : FloatWidth) (ty : string) (bits : Z)
| VComplex (wd : FloatWidth) (ty : string) (re im : Z)
| VArray (ty : string) (elems : list Value)
| VSlice (ty : string) (elems : list Value)
| VString (ty : string) (s : string)
| VInterface (ty : string) (e : option Value)
| VPtr (ty : string) (p : N)
| VMap (ty : string) (entries : list (Value * Value))
| VStruct (ty : string) (fields : list (string * Value))
| VUnsafePointer (ty : string) (p : N)
| VChan (ty : string) (p : N)
| VFunc (ty : string) (p : N)
| VOther (ty : string) (canInterface : bool) (text : string).

(** [v.Kind()]. *)
Definition Kind (v : Value) : reflect.Kind :=
  match v with
  | VInvalid => reflect.Invalid
  | VBool _ _ => reflect.Bool
  | VInt W8 _ _ => reflect.Int8
  | VInt W16 _ _ => reflect.Int16
  | VInt W32 _ _ => reflect.Int32
  | VInt W64 _ _ => reflect.Int64
  | VInt WNative _ _ => reflect.Int
  | VUint W8 _ _ => reflect.Uint8
  | VUint W16 _ _ => reflect.Uint16
  | VUint W32 _ _ => reflect.Uint32
  | VUint W64 _ _ => reflect.Uint64
  | VUint WNative _ _ => reflect.Uint
  | VUintptr _ _ => reflect.Uintptr
  | VFloat F32 _ _ => reflect.Float32
  | VFloat F64 _ _ => reflect.Float64
  | VComplex F32 _ _ _ => reflect.Complex64
  | VComplex F64 _ _ _ => reflect.Complex128
  | VArray _ _ => reflect.Array
  | VSlice _ _ => reflect.Slice
  | VString _ _ => reflect.Str
  | VInterface _ _ => reflect.Interface
  | VPtr _ _ => reflect.Ptr
  | VMap _ _ => reflect.Map
  | VStruct _ _ => reflect.Struct
  | VUnsafePointer _ _ => reflect.UnsafePointer
  | VChan _ _ => reflect.Chan
  | VFunc _ _ => reflect.Func
  | VOther _ _ _ => reflect.Other
  end.

(** [v.Type().String()]; [reflect] panics on the zero Value, which is [None]
    here. *)
Definition TypeString (v : Value) : option string :=
  match v with
  | VInvalid => None
  | VBool ty _ | VInt _ ty _ | VUint _ ty _ | VUintptr ty _
  | VFloat _ ty _ | VComplex _ ty _ _ | VArray ty _ | VSlice ty _
  | VString ty _ | VInterface ty _ | VPtr ty _ | VMap ty _ | VStruct ty _
  | VUnsafePointer ty _ | VChan ty _ | VFunc ty _ | VOther ty _ _ => Some ty
  end.

(** [v.String()]: the string itself for a string, and a placeholder naming
    the type for every other kind. *)
Definition ValueString (v : Value) : string :=
  match v with
  | VString _ s => s
  | _ => match TypeString v with
         | Some ty => "<" +:+ ty +:+ " Value>"
         | None => "<invalid Value>"
         end
  end.

(** Memory: the variable stored at each allocated address. *)
Abbreviation Heap := (gmap N Value).

(** [ve.Elem()] of a non-nil pointer.  An address that holds nothing gives
    the zero Value, as [Elem] does for a pointer to nothing. *)
Definition Elem (H : Heap) (p : N) : Value := default VInvalid (H !! p).

(** ** Outcomes: normal return, a panic that unwinds, or no more fuel *)

Inductive Outcome (A : Type) :=
| Ok (a : A)
| Raised (msg : string) (sink : string)
| OutOfFuel.
Arguments Ok {A} a.
Arguments Raised {A} msg sink.
Arguments OutOfFuel {A}.

#[global] Instance Outcome_bind : MBind Outcome := fun A B k m =>
  match m with
  | Ok a => k a
  | Raised msg sink => Raised msg sink
  | OutOfFuel => OutOfFuel
  end.

(** ** Configuration ([config.go]) *)

(** [ContinueOnMethod] is read by [handleMethods]. *)
Record ConfigState := {
  MaxDepth : Z;
  Indent : string;
  DisableMethods : bool;
  DisablePointerMethods : bool;
  ContinueOnMethod : bool;
}.

Definition defaultConfig : ConfigState :=
  {| MaxDepth := 0; Indent := " "; DisableMethods := false;
     DisablePointerMethods := false; ContinueOnMethod := false |}.

(** ** What the host runtime decides *)

(** The outcome of calling a value's [Error] or [String] method: the text it
    returns, or the text of the value it panics with. *)
Inductive MethodResult := Returns (s : string) | Panics (msg : string).

(** The case the type switch of [handleMethods] selects. *)
Inductive Iface := IError (r : MethodResult) | IStringer (r : MethodResult).

(** - [MapKeys es]: the order in which [v.MapKeys()] enumerates the entries
      [es] of a map in this run;
    - [Quote s]: [strconv.Quote(s)];
    - [FormatFloat bits bitSize]: [strconv.FormatFloat(f, 'g', -1, bitSize)];
    - [ifaceOf viaPtr v]: which of [error] and [fmt.Stringer] the method set
      of [v] (of a pointer to [v] when [viaPtr]) satisfies first, with what
      the call does. *)
Record Host := {
  MapKeys : list (Value * Value) -> list (Value * Value);
  Quote : string -> string;
  FormatFloat : Z -> Z -> string;
  ifaceOf : bool -> Value -> option Iface;
}.

(** ** Byte constants of [common.go] *)

Definition panicBytes := "(PANIC=".
Definition plusBytes := "+".
Definition iBytes := "i".
Definition trueBytes := "true".
Definition falseBytes := "false".
Definition interfaceBytes := "(interface {})".
Definition newline := String (Ascii.ascii_of_nat 10) EmptyString.
Definition commaNewlineBytes := "," +:+ newline.
Definition newlineBytes := newline.
Definition openBraceNewlineBytes := "{" +:+ newline.
Definition closeBraceBytes := "}".
Definition asteriskBytes := "*".
Definition colonSpaceBytes := ": ".
Definition openParenBytes := "(".
Definition closeParenBytes := ")".
Definition spaceBytes := " ".
Definition pointerChainBytes := "->".
Definition nilAngleBytes := "<nil>".
Definition maxNewlineBytes := "<max depth reached>" +:+ newline.
Definition circularBytes := "<already shown>".
Definition invalidAngleBytes := "<invalid>".
Definition hexDigits := "0123456789abcdef".

(** [bytes.Repeat]. *)
Fixpoint Repeat (b : string) (count : nat) : string :=
  match count with
  | O => ""
  | S n => b +:+ Repeat b n
  end.

(** [w.Write(b)]. *)
Definition Write (sink b : string) : string := sink +:+ b.

(** ** Printers of [common.go] *)

Definition printBool (sink : string) (val : bool) : string :=
  if val then Write sink trueBytes else Write sink falseBytes.

(** [strconv.FormatInt(val, 10)] and [strconv.FormatUint(val, 10)]. *)
Definition FormatInt (val : Z) : string :=
  NilZero.string_of_int (Z.to_int val).

Definition FormatUint (val : N) : string :=
  NilZero.string_of_uint (N.to_uint val).

Arguments FormatInt : simpl never.
Arguments FormatUint : simpl never.

Definition printInt (sink : string) (val : Z) : string :=
  Write sink (FormatInt val).

Definition printUint (sink : string) (val : N) : string :=
  Write sink (FormatUint val).

Definition printFloat (h : Host) (sink : string) (val : Z) (precision : Z) : string :=
  Write sink (FormatFloat h val precision).

(** [i >= 0] on a binary64 bit pattern: false for NaN and for negative
    numbers, true for both zeros. *)
Definition float_ge_zero (bits : Z) : bool :=
  let sign := Z.testbit bits 63 in
  let expo := Z.land (Z.shiftr bits 52) 2047 in
  let mant := Z.land bits (2 ^ 52 - 1) in
  let isNaN := Z.eqb expo 2047 && negb (Z.eqb mant 0) in
  negb isNaN && (negb sign || (Z.eqb expo 0 && Z.eqb mant 0)).

Definition printComplex (h : Host) (sink : string) (re im : Z) (floatPrecision : Z) : string :=
  let s1 := Write sink openParenBytes in
  let s2 := Write s1 (FormatFloat h re floatPrecision) in
  let s3 := if float_ge_zero im then Write s2 plusBytes else s2 in
  let s4 := Write s3 (FormatFloat h im floatPrecision) in
  let s5 := Write s4 iBytes in
  Write s5 closeParenBytes.

(** [hexDigits[i]] as a one-byte string. *)
Definition hexDigit (i : N) : string :=
  match String.get (N.to_nat i) hexDigits with
  | Some c => String c EmptyString
  | None => ""
  end.

(** The loop of [printHexPtr] that fills the buffer from the right; [buf] is
    the part of the buffer already written.  A 64-bit number has at most 16
    hexadecimal digits, so 16 rounds always suffice. *)
Fixpoint hexLoop (rounds : nat) (num : N) (buf : string) : string :=
  match rounds with
  | O => hexDigit num +:+ buf
  | S r =>
      if N.leb 16 num
      then hexLoop r (num / 16)%N (hexDigit (num mod 16)%N +:+ buf)
      else hexDigit num +:+ buf
  end.

Definition printHexPtr (sink : string) (p : N) : string :=
  let num := (p mod 2 ^ 64)%N in
  if N.eqb num 0 then Write sink nilAngleBytes
  else Write sink ("0" +:+ "x" +:+ hexLoop 16 num "").

Arguments printHexPtr : simpl never.

(** ** The method-invocation guard of [common.go] *)

(** [iface.Error()] or [iface.String()]: a panic unwinds with the sink as it
    is at the call. *)
Definition callMethod (sink : string) (r : MethodResult) : Outcome string :=
  match r with
  | Returns s => Ok s
  | Panics msg => Raised msg sink
  end.

(** The deferred [catchPanic]: when a panic is in flight, [recover] stops it
    and the token is written; [handleMethods] then returns the zero value of
    its named result.  [msg] is what [fmt] prints for the recovered value. *)
Definition catchPanic (r : Outcome (string * bool)) : Outcome (string * bool) :=
  match r with
  | Raised msg sink =>
      let s1 := Write sink panicBytes in
      let s2 := Write s1 msg in
      Ok (Write s2 closeParenBytes, false)
  | _ => r
  end.

(** The body shared by the [error] and the [fmt.Stringer] case. *)
Definition methodCase (cs : ConfigState) (sink : string) (r : MethodResult)
  : Outcome (string * bool) :=
  if ContinueOnMethod cs then
    s ← callMethod sink r;
    let s1 := Write sink (openParenBytes +:+ s) in
    let s2 := Write s1 closeParenBytes in
    Ok (Write s2 spaceBytes, false)
  else
    s ← callMethod sink r;
    Ok (Write sink s, true).

(** Whether the interface is taken from a pointer to the value
    ([v.Addr().Interface()]) or from the value ([v.Interface()]): always
    from a pointer unless [DisablePointerMethods], and then still from a
    pointer when the value is addressable. *)
Definition viaPointer (cs : ConfigState) (canAddr : bool) : bool :=
  if negb (DisablePointerMethods cs) then true else canAddr.

(** [handleMethods(cs, w, v)]; [canAddr] is [v.CanAddr()].  The calls of
    [unsafeReflectValue] only lift the access restrictions of [reflect]. *)
Definition handleMethods (h : Host) (cs : ConfigState) (sink : string)
  (canAddr : bool) (v : Value) : Outcome (string * bool) :=
  match ifaceOf h (viaPointer cs canAddr) v with
  | Some (IError r) => catchPanic (methodCase cs sink r)
  | Some (IStringer r) => catchPanic (methodCase cs sink r)
  | None => Ok (sink, false)
  end.

(** ** Stable ordering of [common.go] *)

(** [<] on binary64 bit patterns. *)
Definition float_is_nan (bits : Z) : bool :=
  Z.eqb (Z.land (Z.shiftr bits 52) 2047) 2047
  && negb (Z.eqb (Z.land bits (2 ^ 52 - 1)) 0).

Definition float_key (bits : Z) : Z :=
  let mag := Z.land bits (2 ^ 63 - 1) in
  if Z.testbit bits 63 then - mag else mag.

Definition float_lt (a b : Z) : bool :=
  negb (float_is_nan a) && negb (float_is_nan b)
  && Z.ltb (float_key a) (float_key b).

(** [valuesSorter.Less] on the values at the two indices.  The accessors
    [Bool], [Int], [Uint] and [Float] of [reflect] panic on a value of another
    kind: that is [None]. *)
Definition Less (vi vj : Value) : option bool :=
  match vi with
  | VBool _ a =>
      match vj with VBool _ b => Some (negb a && b) | _ => None end
  | VInt _ _ a =>
      match vj with VInt _ _ b => Some (Z.ltb a b) | _ => None end
  | VUint _ _ a =>
      match vj with
      | VUint _ _ b | VUintptr _ b => Some (N.ltb a b)
      | _ => None
      end
  | VFloat _ _ a =>
      match vj with VFloat _ _ b => Some (float_lt a b) | _ => None end
  | VString _ a => Some (String.ltb a (ValueString vj))
  | VUintptr _ a =>
      match vj with
      | VUint _ _ b | VUintptr _ b => Some (N.ltb a b)
      | _ => None
      end
  | _ => Some (String.ltb (ValueString vi) (ValueString vj))
  end.

(** [sortValues]; [Sort] is [sort.Sort] driven by the comparator. *)
Definition sortValues
  (Sort : (Value -> Value -> option bool) -> list Value -> list Value)
  (values : list Value) : list Value :=
  if decide (length values = 0%nat) then values else Sort Less values.

(** ** The state of a dump ([dump.go]) *)

Record dumpState := {
  w : string;
  depth : Z;
  pointers : gmap N Z;
  ignoreNextType : bool;
  ignoreNextPad : bool;
}.

Definition set_w (d : dumpState) (s : string) : dumpState :=
  {| w := s; depth := depth d; pointers := pointers d;
     ignoreNextType := ignoreNextType d; ignoreNextPad := ignoreNextPad d |}.

Definition set_depth (d : dumpState) (n : Z) : dumpState :=
  {| w := w d; depth := n; pointers := pointers d;
     ignoreNextType := ignoreNextType d; ignoreNextPad := ignoreNextPad d |}.

Definition set_pointers (d : dumpState) (m : gmap N Z) : dumpState :=
  {| w := w d; depth := depth d; pointers := m;
     ignoreNextType := ignoreNextType d; ignoreNextPad := ignoreNextPad d |}.

Definition set_ignoreNextType (d : dumpState) (b : bool) : dumpState :=
  {| w := w d; depth := depth d; pointers := pointers d;
     ignoreNextType := b; ignoreNextPad := ignoreNextPad d |}.

Definition set_ignoreNextPad (d : dumpState) (b : bool) : dumpState :=
  {| w := w d; depth := depth d; pointers := pointers d;
     ignoreNextType := ignoreNextType d; ignoreNextPad := b |}.

(** [d.w.Write(b)]. *)
Definition dWrite (d : dumpState) (b : string) : dumpState :=
  set_w d (Write (w d) b).

(** [d.pad()].  The depth is never negative when [Repeat] is reached. *)
Definition pad (cs : ConfigState) (d : dumpState) : dumpState :=
  if ignoreNextPad d then set_ignoreNextPad d false
  else dWrite d (Repeat (Indent cs) (Z.to_nat (depth d))).

(** Modelled from the spec: [unpackValue] is called by [dump] but is defined
    in a file that is not among the sources.  A value boxed inside a non-nil
    interface container is unwrapped (the result is not addressable); any
    other value, a nil interface included, is returned as it is. *)
Definition unpackValue (canAddr : bool) (v : Value) : bool * Value :=
  match v with
  | VInterface _ (Some e) => (false, e)
  | _ => (canAddr, v)
  end.

(** ** [dumpPtr]: following a chain of pointers *)

(** The variables of the loop of [dumpPtr]; [ptrs] is [d.pointers] and
    [veCanAddr] is [ve.CanAddr()]. *)
Record unwrapState := {
  ve : Value;
  veCanAddr : bool;
  indirects : Z;
  pointerChain : list N;
  ptrs : gmap N Z;
  nilFound : bool;
  cycleFound : bool;
}.

(** [pd, ok := d.pointers[addr]; ok && pd < d.depth]. *)
Definition seenAbove (m : gmap N Z) (addr : N) (dep : Z) : bool :=
  match m !! addr with
  | Some pd => Z.ltb pd dep
  | None => false
  end.

(** How a round of the loop ends: at the closing brace of the body, or by
    [break]. *)
Inductive Round :=
| Continue (u : unwrapState)
| Break (u : unwrapState).

(** The body of the loop [for ve.Kind() == reflect.Ptr], for [ve] a pointer
    holding [addr]. *)
Definition unwrapRound (H : Heap) (dep : Z) (u : unwrapState) (addr : N)
  : Round :=
  let ind := indirects u + 1 in
  if N.eqb addr 0 then
    Break {| ve := ve u; veCanAddr := veCanAddr u; indirects := ind;
             pointerChain := pointerChain u; ptrs := ptrs u;
             nilFound := true; cycleFound := cycleFound u |}
  else
    let chain := (pointerChain u ++ [addr])%list in
    if seenAbove (ptrs u) addr dep then
      Break {| ve := ve u; veCanAddr := veCanAddr u; indirects := ind - 1;
               pointerChain := chain; ptrs := ptrs u;
               nilFound := nilFound u; cycleFound := true |}
    else
      let m := <[addr := dep]> (ptrs u) in
      match Elem H addr with
      | VInterface ty None =>
          Break {| ve := VInterface ty None; veCanAddr := true;
                   indirects := ind; pointerChain := chain; ptrs := m;
                   nilFound := true; cycleFound := cycleFound u |}
      | VInterface _ (Some e) =>
          Continue {| ve := e; veCanAddr := false; indirects := ind;
                      pointerChain := chain; ptrs := m;
                      nilFound := nilFound u; cycleFound := cycleFound u |}
      | e =>
          Continue {| ve := e; veCanAddr := true; indirects := ind;
                      pointerChain := chain; ptrs := m;
                      nilFound := nilFound u; cycleFound := cycleFound u |}
      end.

(** The loop; every round uses one unit of fuel, and [None] is a loop that
    has not ended within the fuel. *)
Fixpoint unwrap (fuel : nat) (H : Heap) (dep : Z) (u : unwrapState)
  : option unwrapState :=
  match ve u with
  | VPtr _ addr =>
      match fuel with
      | O => None
      | S fuel' =>
          match unwrapRound H dep u addr with
          | Break u' => Some u'
          | Continue u' => unwrap fuel' H dep u'
          end
      end
  | _ => Some u
  end.

(** The loop that writes the pointer chain; [i] is the index of the first
    address of [chain]. *)
Fixpoint writeChain (sink : string) (i : nat) (chain : list N) : string :=
  match chain with
  | [] => sink
  | addr :: rest =>
      let s1 := if decide (0 < i)%nat then Write sink pointerChainBytes else sink in
      writeChain (printHexPtr s1 addr) (S i) rest
  end.

(** The panic of [reflect.Value.Type] on the zero Value. *)
Definition zeroValueType : string :=
  "reflect: call of reflect.Value.Type on zero Value".

(** The first loop of [dumpPtr]: entries at or below the current depth are
    deleted from the map. *)
Definition prune (dep : Z) (m : gmap N Z) : gmap N Z :=
  filter (fun kv => kv.2 < dep) m.

Arguments prune : simpl never.

(** The variables of the loop as [dumpPtr] sets them up, the map already
    cleared of the entries at or below the current depth. *)
Definition unwrapStart (d : dumpState) (v : Value) : unwrapState :=
  {| ve := v; veCanAddr := false; indirects := 0; pointerChain := [];
     ptrs := prune (depth d) (pointers d);
     nilFound := false; cycleFound := false |}.

Definition dumpPtr (rec : dumpState -> bool -> Value -> Outcome dumpState)
  (fuel : nat) (H : Heap) (d : dumpState) (v : Value) : Outcome dumpState :=
  match unwrap fuel H (depth d) (unwrapStart d v) with
  | None => OutOfFuel
  | Some u =>
      let d1 := set_pointers d (ptrs u) in
      (* Display type information. *)
      let d2 := dWrite d1 openParenBytes in
      let d3 := dWrite d2 (Repeat asteriskBytes (Z.to_nat (indirects u))) in
      match TypeString (ve u) with
      | None => Raised zeroValueType (w d3)
      | Some ty =>
          let d4 := dWrite d3 ty in
          let d5 := dWrite d4 closeParenBytes in
          (* Display pointer information. *)
          let d6 := dWrite d5 openParenBytes in
          let d7 := set_w d6 (writeChain (w d6) 0 (pointerChain u)) in
          let d8 := dWrite d7 closeParenBytes in
          (* Display dereferenced value. *)
          let d9 := dWrite d8 openParenBytes in
          if nilFound u then
            Ok (dWrite (dWrite d9 nilAngleBytes) closeParenBytes)
          else if cycleFound u then
            Ok (dWrite (dWrite d9 circularBytes) closeParenBytes)
          else
            d10 ← rec (set_ignoreNextType d9 true) (veCanAddr u) (ve u);
            Ok (dWrite d10 closeParenBytes)
      end
  end.

(** ** [dump]: the walker *)

Section Walker.

Variable h : Host.
Variable cs : ConfigState.
Variable H : Heap.

(** [(Config.MaxDepth != 0) && (d.depth > Config.MaxDepth)]. *)
Definition tooDeep (d : dumpState) : bool :=
  negb (Z.eqb (MaxDepth cs) 0) && Z.ltb (MaxDepth cs) (depth d).

Section Body.

(** The recursive calls [d.dump(...)]. *)
Variable rec : dumpState -> bool -> Value -> Outcome dumpState.

(** The loop over the entries of an array or a slice; the last entry is
    followed by a newline, the others by a comma and a newline. *)
Fixpoint dumpElems (d : dumpState) (canAddr : bool) (es : list Value)
  : Outcome dumpState :=
  match es with
  | [] => Ok d
  | e :: rest =>
      let '(a, x) := unpackValue canAddr e in
      d1 ← rec d a x;
      let d2 := match rest with
                | [] => dWrite d1 newlineBytes
                | _ => dWrite d1 commaNewlineBytes
                end in
      dumpElems d2 canAddr rest
  end.

(** The loop over the keys of a map; keys and the values of a map are
    not addressable. *)
Fixpoint dumpEntries (d : dumpState) (es : list (Value * Value))
  : Outcome dumpState :=
  match es with
  | [] => Ok d
  | (key, val) :: rest =>
      let '(ak, k) := unpackValue false key in
      d1 ← rec d ak k;
      let d2 := dWrite d1 colonSpaceBytes in
      let d3 := set_ignoreNextPad d2 true in
      let '(ax, x) := unpackValue false val in
      d4 ← rec d3 ax x;
      let d5 := match rest with
                | [] => dWrite d4 newlineBytes
                | _ => dWrite d4 commaNewlineBytes
                end in
      dumpEntries d5 rest
  end.

(** The loop over the fields of a struct, in declaration order. *)
Fixpoint dumpFields (d : dumpState) (canAddr : bool)
  (fs : list (string * Value)) : Outcome dumpState :=
  match fs with
  | [] => Ok d
  | (name, f) :: rest =>
      let d1 := pad cs d in
      let d2 := dWrite d1 name in
      let d3 := dWrite d2 colonSpaceBytes in
      let d4 := set_ignoreNextPad d3 true in
      let '(a, x) := unpackValue canAddr f in
      d5 ← rec d4 a x;
      let d6 := match rest with
                | [] => dWrite d5 newlineBytes
                | _ => dWrite d5 commaNewlineBytes
                end in
      dumpFields d6 canAddr rest
  end.

(** What the array, slice, map and struct cases share: the opening
    brace, one more level of depth, then the placeholder or the entries
    ([body]), one level less and the closing brace. *)
Definition dumpCompound (d : dumpState)
  (body : dumpState -> Outcome dumpState) : Outcome dumpState :=
  let d1 := dWrite d openBraceNewlineBytes in
  let d2 := set_depth d1 (depth d1 + 1) in
  d3 ← (if tooDeep d2 then Ok (dWrite (pad cs d2) maxNewlineBytes)
        else body d2);
  let d4 := set_depth d3 (depth d3 - 1) in
  let d5 := pad cs d4 in
  Ok (dWrite d5 closeBraceBytes).

(** The type label, unless [ignoreNextType]. *)
Definition dumpType (d : dumpState) (v : Value) : Outcome dumpState :=
  if negb (ignoreNextType d) then
    let d1 := pad cs d in
    let d2 := dWrite d1 openParenBytes in
    match TypeString v with
    | None => Raised zeroValueType (w d2)
    | Some ty =>
        let d3 := dWrite d2 ty in
        let d4 := dWrite d3 closeParenBytes in
        Ok (dWrite d4 spaceBytes)
    end
  else Ok d.

(** The call of the guard: unless [DisableMethods], for every kind but
    [Invalid] and [Interface]. *)
Definition dumpMethods (d : dumpState) (canAddr : bool) (v : Value)
  : Outcome (dumpState * bool) :=
  if negb (DisableMethods cs) then
    if negb (bool_decide (Kind v = reflect.Invalid))
       && negb (bool_decide (Kind v = reflect.Interface)) then
      '(sink, handled) ← handleMethods h cs (w d) canAddr v;
      Ok (set_w d sink, handled)
    else Ok (d, false)
  else Ok (d, false).

(** The [switch kind] of [dump]. *)
Definition dumpKind (d : dumpState) (canAddr : bool) (v : Value)
  : Outcome dumpState :=
  match v with
  | VInvalid => Ok (dWrite d invalidAngleBytes)
  | VBool _ b => Ok (set_w d (printBool (w d) b))
  | VInt _ _ n => Ok (set_w d (printInt (w d) n))
  | VUint _ _ n => Ok (set_w d (printUint (w d) n))
  | VFloat F32 _ f => Ok (set_w d (printFloat h (w d) f 32))
  | VFloat F64 _ f => Ok (set_w d (printFloat h (w d) f 64))
  | VComplex F32 _ re im => Ok (set_w d (printComplex h (w d) re im 32))
  | VComplex F64 _ re im => Ok (set_w d (printComplex h (w d) re im 64))
  | VArray _ es =>
      dumpCompound d (fun d' => dumpElems d' canAddr es)
  | VSlice _ es =>
      dumpCompound d (fun d' => dumpElems d' true es)
  | VString _ s => Ok (dWrite d (Quote h s))
  | VInterface _ _ => Ok d
  | VPtr _ _ => Ok d
  | VMap _ es =>
      dumpCompound d (fun d' => dumpEntries d' (MapKeys h es))
  | VStruct _ fs =>
      dumpCompound d (fun d' => dumpFields d' canAddr fs)
  | VUintptr _ n => Ok (set_w d (printHexPtr (w d) n))
  | VUnsafePointer _ p | VChan _ p | VFunc _ p =>
      Ok (set_w d (printHexPtr (w d) p))
  | VOther _ canInterface text =>
      if canInterface then Ok (dWrite d text)
      else Ok (dWrite d (ValueString v))
  end.

(** The body of [dump]; [canAddr] is [v.CanAddr()]. *)
Definition dumpBody (fuel : nat) (d : dumpState) (canAddr : bool)
  (v : Value) : Outcome dumpState :=
  if bool_decide (Kind v = reflect.Ptr) then
    dumpPtr rec fuel H (pad cs d) v
  else
    d1 ← dumpType d v;
    let d2 := set_ignoreNextType d1 false in
    '(d3, handled) ← dumpMethods d2 canAddr v;
    if (handled : bool) then Ok d3 else dumpKind d3 canAddr v.

End Body.

(** [d.dump(v)]: one unit of fuel for every nested call; the loop of
    [dumpPtr] may run as many rounds as there is fuel at the call. *)
Fixpoint dump (fuel : nat) (d : dumpState) (canAddr : bool) (v : Value)
  : Outcome dumpState :=
  match fuel with
  | O => OutOfFuel
  | S fuel' => dumpBody (dump fuel') fuel d canAddr v
  end.

(** The state [Fdump] starts each argument with. *)
Definition newDumpState (sink : string) : dumpState :=
  {| w := sink; depth := 0; pointers := ∅;
     ignoreNextType := false; ignoreNextPad := false |}.

(** [Fdump(w, a...)]: [None] is a nil argument, [Some v] an argument with
    [reflect.ValueOf(arg) = v]. *)
Fixpoint Fdump (fuel : nat) (sink : string) (a : list (option Value))
  : Outcome string :=
  match a with
  | [] => Ok sink
  | None :: rest =>
      let s1 := Write sink interfaceBytes in
      let s2 := Write s1 nilAngleBytes in
      Fdump fuel (Write s2 newlineBytes) rest
  | Some v :: rest =>
      d ← dump fuel (newDumpState sink) false v;
      Fdump fuel (Write (w d) newlineBytes) rest
  end.

End Walker.

(** ** Specification vocabulary *)

(** Two states are at the same depth and have the same entries above that
    depth in the identity map. *)
Definition sameFrame (d d' : dumpState) : Prop :=
  depth d' = depth d /\
  prune (depth d) (pointers d') = prune (depth d) (pointers d).

(** A walker that returns every state in the frame it was called in. *)
Definition Frame (rec : dumpState -> bool -> Value -> Outcome dumpState) : Prop :=
  forall d a v d', rec d a v = Ok d' -> sameFrame d d'.

(** An address whose variable holds a pointer back to the very same address,
    directly or boxed in an interface, as after [var i interface{}; i = &i]
    or [type P *P; var p P; p = &p]. *)
Definition pointsToItself (H : Heap) (a : N) : Prop :=
  exists ty,
    H !! a = Some (VPtr ty a) \/
    exists ity, H !! a = Some (VInterface ity (Some (VPtr ty a))).

(** ** Concrete inputs *)

Definition dquote : string := String (Ascii.ascii_of_nat 34) EmptyString.

(** A host without methods that enumerates map keys in the order of the
    entries; its [Quote] is right for printable ASCII text without quotes and
    backslashes. *)
Definition plainHost : Host :=
  {| MapKeys := fun es => es;
     Quote := fun s => dquote +:+ s +:+ dquote;
     FormatFloat := fun _ _ => "";
     ifaceOf := fun _ _ => None |}.

(** [var i interface{}; i = &i] with [i] at address 16. *)
Definition selfHeap : Heap :=
  {[ 16%N := VInterface "interface {}" (Some (VPtr "*interface {}" 16)) ]}.

Definition selfPtr : Value := VPtr "*interface {}" 16.

(** The loop state of [dumpPtr] on [selfPtr] after its first round at depth
    0: the address is recorded at depth 0. *)
Definition selfSecondRound : unwrapState :=
  {| ve := selfPtr; veCanAddr := false; indirects := 1;
     pointerChain := [16%N]; ptrs := {[ 16%N := 0 ]};
     nilFound := false; cycleFound := false |}.

(** The self-referencing struct of the tests: [v.c = &v] with [v] at address
    4096. *)
Definition circPtr : Value := VPtr "*spew_test.circular" 4096.

Definition circular : Value := VStruct "spew_test.circular" [("c", circPtr)].

Definition circHeap : Heap := {[ 4096%N := circular ]}.

(** The state in which the walk of [circPtr] from the root reaches the field
    [c]: one level down, the address recorded at depth 0. *)
Definition circInner : dumpState :=
  {| w := ""; depth := 1; pointers := {[ 4096%N := 0 ]};
     ignoreNextType := false; ignoreNextPad := false |}.

(** A nil [*int8], and an [int8] as the tests dump them. *)
Definition nilInt8Ptr : Value := VPtr "*int8" 0.

Definition int8Max : Value := VInt W8 "int8" 127.

(** The array, slice, map and struct kinds. *)
Definition isCompound (v : Value) : bool :=
  match v with
  | VArray _ _ | VSlice _ _ | VMap _ _ | VStruct _ _ => true
  | _ => false
  end.

(** What [dump] writes for a compound once the depth limit is exceeded: the
    opening brace, the placeholder on a line of its own one level down, and
    the closing brace. *)
Definition depthPlaceholder (cs : ConfigState) (d : dumpState) : dumpState :=
  let d1 := dWrite d openBraceNewlineBytes in
  let d2 := set_depth d1 (depth d1 + 1) in
  let d3 := dWrite (pad cs d2) maxNewlineBytes in
  let d4 := set_depth d3 (depth d3 - 1) in
  dWrite (pad cs d4) closeBraceBytes.

(** A value wrapped in [k] one-element slices. *)
Definition nest (ty : string) (k : nat) (x : Value) : Value :=
  Nat.iter k (fun v => VSlice ty [v]) x.

Arguments nest : simpl never.

(** No method is ever found or called: the guard is disabled, or no value
    implements [error] or [fmt.Stringer]. *)
Definition noMethods (h : Host) (cs : ConfigState) : Prop :=
  DisableMethods cs = true \/ forall viaPtr v, ifaceOf h viaPtr v = None.

(** A configuration with a depth limit of 2. *)
Definition depth2Config : ConfigState :=
  {| MaxDepth := 2; Indent := " "; DisableMethods := false;
     DisablePointerMethods := false; ContinueOnMethod := false |}.

(** A state that has reached the limit of [depth2Config]. *)
Definition atLimit : dumpState :=
  {| w := ""; depth := 2; pointers := ∅;
     ignoreNextType := true; ignoreNextPad := false |}.

(** An [int8] variable at address 16 and a pointer to it. *)
Definition int8Heap : Heap := {[ 16%N := VInt W8 "int8" 5 ]}.

Definition int8Ptr : Value := VPtr "*int8" 16.

(** Two sibling fields holding the same address. *)
Definition pair : Value := VStruct "main.pair" [("a", int8Ptr); ("b", int8Ptr)].

(** The states before and after the walk of the first field of [pair]. *)
Definition beforeFirst : dumpState :=
  {| w := ""; depth := 1; pointers := ∅;
     ignoreNextType := false; ignoreNextPad := true |}.

Definition afterFirst : dumpState :=
  {| w := "(*int8)(0x10)(5)"; depth := 1; pointers := {[ 16%N := 1 ]};
     ignoreNextType := false; ignoreNextPad := false |}.

(** Two runs in which the host takes the same decisions: the same
    enumeration order for the keys of every map, the same texts for strings
    and floats and, unless methods are disabled, the same methods. *)
Definition sameRun (cs : ConfigState) (h1 h2 : Host) : Prop :=
  (forall es, MapKeys h1 es = MapKeys h2 es) /\
  (forall s, Quote h1 s = Quote h2 s) /\
  (forall bits bitSize, FormatFloat h1 bits bitSize = FormatFloat h2 bits bitSize) /\
  (DisableMethods cs = true \/
   forall viaPtr v, ifaceOf h1 viaPtr v = ifaceOf h2 viaPtr v).

(** The host [h] with other methods. *)
Definition withIface (h : Host) (f : bool -> Value -> option Iface) : Host :=
  {| MapKeys := MapKeys h; Quote := Quote h; FormatFloat := FormatFloat h;
     ifaceOf := f |}.

(** The [Flag] type of the example tests, an [int] with a [String] method,
    and a host that knows the method. *)
Definition flagTwo : Value := VInt WNative "spew_test.Flag" 1.

Definition flagHost : Host :=
  withIface plainHost
    (fun _ v =>
       match v with
       | VInt WNative ty n =>
           if String.eqb ty "spew_test.Flag" && Z.eqb n 1
           then Some (IStringer (Returns "flagTwo"))
           else None
       | _ => None
       end).

(** The values directly inside a value. *)
Definition children (v : Value) : list Value :=
  match v with
  | VArray _ es | VSlice _ es => es
  | VMap _ es => (fst <$> es) ++ (snd <$> es)
  | VStruct _ fs => snd <$> fs
  | VInterface _ (Some e) => [e]
  | _ => []
  end.

(** [P] holds of a value and of every value inside it, at any depth. *)
Inductive deep (P : Value -> Prop) : Value -> Prop :=
| deep_intro (v : Value) : P v -> Forall (deep P) (children v) -> deep P v.

(** [P] holds throughout every variable in memory. *)
Definition heapAll (P : Value -> Prop) (H : Heap) : Prop :=
  forall a v, H !! a = Some v -> deep P v.

(** What every value obtained from a Go value satisfies: it is not the zero
    Value, and a pointer is nil or holds the address of a variable. *)
Definition wellFormed (H : Heap) (v : Value) : Prop :=
  match v with
  | VInvalid => False
  | VPtr _ a => a = 0%N \/ is_Some (H !! a)
  | _ => True
  end.

(** [MapKeys] enumerates the entries of the map, each once, in some order. *)
Definition hostOk (h : Host) : Prop :=
  forall es, MapKeys h es ≡ₚ es.

(** The [panicer] type of the tests, an [int] whose [String] method panics,
    and a host that knows the method. *)
Definition panicer : Value := VInt WNative "spew_test.panicer" 127.

Definition panicHost : Host :=
  withIface plainHost
    (fun _ v =>
       match v with
       | VInt WNative ty _ =>
           if String.eqb ty "spew_test.panicer"
           then Some (IStringer (Panics "test panic"))
           else None
       | _ => None
       end).

(** A walker that does not panic on well-formed values. *)
Definition Safe (H : Heap)
  (rec : dumpState -> bool -> Value -> Outcome dumpState) : Prop :=
  forall d a v msg sink,
    deep (wellFormed H) v -> rec d a v <> Raised msg sink.

(** The arguments of [Fdump] are nil or well-formed. *)
Definition argsOk (H : Heap) (a : list (option Value)) : Prop :=
  Forall (fun arg => match arg with
                     | Some v => deep (wellFormed H) v
                     | None => True
                     end) a.

(** A slice holding a [panicer] and, next to it, an [int8]. *)
Definition panicerAndSibling : Value :=
  VSlice "[]interface {}"
    [VInterface "interface {}" (Some panicer);
     VInterface "interface {}" (Some int8Max)].

(** A host that enumerates the keys of every map in the reverse order of
    [plainHost]. *)
Definition revHost : Host :=
  {| MapKeys := fun es => rev es; Quote := Quote plainHost;
     FormatFloat := FormatFloat plainHost; ifaceOf := ifaceOf plainHost |}.

(** The entries of a [map[string]int], and the map with the keys a and b. *)
Definition stringIntEntries (kvs : list (string * Z)) : list (Value * Value) :=
  (fun kv => (VString "string" kv.1, VInt WNative "int" kv.2)) <$> kvs.

Definition abEntries : list (Value * Value) :=
  stringIntEntries [("a", 1); ("b", 2)].

Definition mapAB : Value := VMap "map[string]int" abEntries.

(** The text of one entry of a [map[string]int] at depth [dep], and of a
    list of entries in the order of the list: every entry on a line of its
    own, a comma after each but the last. *)
Definition entryText (h : Host) (cs : ConfigState) (dep : Z) (kv : string * Z)
  : string :=
  Repeat (Indent cs) (Z.to_nat dep) +:+ "(" +:+ "string" +:+ ")" +:+ " "
  +:+ Quote h kv.1 +:+ ": " +:+ "(" +:+ "int" +:+ ")" +:+ " "
  +:+ FormatInt kv.2.

Fixpoint entriesText (h : Host) (cs : ConfigState) (dep : Z)
  (kvs : list (string * Z)) : string :=
  match kvs with
  | [] => ""
  | kv :: rest =>
      entryText h cs dep kv
      +:+ match rest with
          | [] => newline
          | _ => "," +:+ newline
          end
      +:+ entriesText h cs dep rest
  end.

(** A state between two entries: no pending flag. *)
Definition noFlags (d : dumpState) : Prop :=
  ignoreNextType d = false /\ ignoreNextPad d = false.

(** What [plainHost] and [revHost] make of [mapAB]. *)
Definition mapAB_a_first : string :=
  "(map[string]int) {" +:+ newline
  +:+ " (string) " +:+ dquote +:+ "a" +:+ dquote +:+ ": (int) 1," +:+ newline
  +:+ " (string) " +:+ dquote +:+ "b" +:+ dquote +:+ ": (int) 2" +:+ newline
  +:+ "}" +:+ newline.

Definition mapAB_b_first : string :=
  "(map[string]int) {" +:+ newline
  +:+ " (string) " +:+ dquote +:+ "b" +:+ dquote +:+ ": (int) 2," +:+ newline
  +:+ " (string) " +:+ dquote +:+ "a" +:+ dquote +:+ ": (int) 1" +:+ newline
  +:+ "}" +:+ newline.

(** A host that takes the decisions of [plainHost] and computes the order of
    the keys in another way. *)
Definition twiceRevHost : Host :=
  {| MapKeys := fun es => rev (rev es); Quote := Quote plainHost;
     FormatFloat := FormatFloat plainHost; ifaceOf := ifaceOf plainHost |}.

(** The same address held by a field and, one level deeper, by a field of
    its sibling. *)
Definition uncleAndNephew : Value :=
  VStruct "main.outer"
    [("a", int8Ptr); ("b", VStruct "main.inner" [("c", int8Ptr)])].

(** ** Vocabulary of the further properties *)

(** The flags a call of [dump] may find set: [ignoreNextType] is only ever
    set by [dumpPtr], after [pad] has run, for the value that ends the
    chain, which is not a pointer. *)
Definition flagsFit (d : dumpState) (v : Value) : Prop :=
  ignoreNextType d = true ->
  ignoreNextPad d = false /\ Kind v <> reflect.Ptr.

(** A walker that returns with no flag pending. *)
Definition Consumes (rec : dumpState -> bool -> Value -> Outcome dumpState)
  : Prop :=
  forall d a v d', flagsFit d v -> rec d a v = Ok d' -> noFlags d'.

(** The state of a struct field that holds a pointer to the [int8] of
    [int8Heap], the address already recorded one level up. *)
Definition secondField : dumpState :=
  {| w := " b: "; depth := 1; pointers := {[ 16%N := 0; 32%N := 1 ]};
     ignoreNextType := false; ignoreNextPad := true |}.

(** The state [d] with [p] written to the sink before everything else. *)
Definition prefixed (p : string) (d : dumpState) : dumpState :=
  set_w d (p +:+ w d).

(** An outcome with [p] written to the sink before everything else; [f]
    does it to the value returned. *)
Definition prefixedOutcome {A : Type} (f : A -> A) (p : string)
  (o : Outcome A) : Outcome A :=
  match o with
  | Ok a => Ok (f a)
  | Raised msg sink => Raised msg (p +:+ sink)
  | OutOfFuel => OutOfFuel
  end.

(** A walker for which the bytes already in the sink do not matter. *)
Definition SinkBlind (rec : dumpState -> bool -> Value -> Outcome dumpState)
  : Prop :=
  forall p d a v,
    rec (prefixed p d) a v = prefixedOutcome (prefixed p) p (rec d a v).

(** The value of a digit of [hexDigits]: its index there. *)
Definition hexDigitValue (c : Ascii.ascii) : option N :=
  N.of_nat <$> String.index 0 (String c EmptyString) hexDigits.

(** The number a string of hexadecimal digits denotes, most significant
    digit first, continuing from [acc]. *)
Fixpoint hexValueFrom (acc : N) (s : string) : option N :=
  match s with
  | EmptyString => Some acc
  | String c rest =>
      match hexDigitValue c with
      | Some dg => hexValueFrom (16 * acc + dg) rest
      | None => None
      end
  end.

Definition hexValue (s : string) : option N := hexValueFrom 0 s.

(** A comparison that never holds of a value and itself, never both ways,
    and carries over a middle value. *)
Definition strictOrder {X : Type} (lt : X -> X -> bool) : Prop :=
  (forall x, lt x x = false) /\
  (forall x y, lt x y = true -> lt y x = false) /\
  (forall x y z, lt x y = true -> lt y z = true -> lt x z = true).

(** The kinds [Less] compares by the value held: booleans, integers,
    floating point numbers and strings.  Every other kind is compared by
    [v.String()]. *)
Definition comparedByValue (v : Value) : bool :=
  match v with
  | VBool _ _ | VInt _ _ _ | VUint _ _ _ | VUintptr _ _ | VFloat _ _ _
  | VString _ _ => true
  | _ => false
  end.

(** Two keys of a [map[point]string] that differ. *)
Definition pointKey (x y : Z) : Value :=
  VStruct "main.point" [("x", VInt WNative "int" x); ("y", VInt WNative "int" y)].

(** The variable at [a] is a pointer that holds the address [b], directly or
    boxed in an interface: the loop of [dumpPtr] goes from [a] to [b]
    without leaving [dumpPtr]. *)
Definition linked (H : Heap) (a b : N) : Prop :=
  exists ty,
    H !! a = Some (VPtr ty b) \/
    exists ity, H !! a = Some (VInterface ity (Some (VPtr ty b))).

(** Every chain of pointers to pointers ends: no pointer variable is reached
    from itself through pointers alone.  Cycles that pass through a struct,
    an array, a slice or a map are not excluded. *)
Definition chainsEnd (H : Heap) : Prop :=
  well_founded (fun b a => linked H a b).

(** [rec2] agrees with [rec1] wherever [rec1] does not run out of fuel. *)
Definition Extends (rec1 rec2 : dumpState -> bool -> Value -> Outcome dumpState)
  : Prop :=
  forall d a v, rec1 d a v <> OutOfFuel -> rec2 d a v = rec1 d a v.

(** Every allocated address that the map [m] does not record above the
    depth [dep] is in [U]. *)
Definition covers (H : Heap) (U : gset N) (m : gmap N Z) (dep : Z) : Prop :=
  forall a, is_Some (H !! a) -> seenAbove m a dep = false -> a ∈ U.

(** The walker [rec] comes back from [c], normally or by a panic, from every
    state whose unrecorded addresses are in [U]. *)
Definition Returning (H : Heap) (U : gset N)
  (rec : dumpState -> bool -> Value -> Outcome dumpState) (c : Value) : Prop :=
  forall d ca, covers H U (pointers d) (depth d) -> rec d ca c <> OutOfFuel.

(** [dump] comes back from [v] once it has enough fuel. *)
Definition Terminates (h : Host) (cs : ConfigState) (H : Heap) (U : gset N)
  (v : Value) : Prop :=
  exists fuel, forall fuel', (fuel <= fuel')%nat ->
    Returning H U (dump h cs H fuel') v.

(** The values the switch of [dump] passes to the recursive calls. *)
Definition kids (h : Host) (v : Value) : list Value :=
  match v with
  | VArray _ es | VSlice _ es => (fun e => (unpackValue false e).2) <$> es
  | VMap _ es =>
      ((fun kv => (unpackValue false kv.1).2) <$> MapKeys h es)
      ++ ((fun kv => (unpackValue false kv.2).2) <$> MapKeys h es)
  | VStruct _ fs => (fun f => (unpackValue false f.2).2) <$> fs
  | _ => []
  end.

(** A set of pointer variables closed under following the pointer: each
    holds the address of another one of the set, so that a chain that
    enters the set goes on for ever, as after
    [type P *P; var p, q P; p = &q; q = &p]. *)
Definition closedChain (H : Heap) (Addrs : N -> Prop) : Prop :=
  forall a, Addrs a -> a <> 0%N /\ exists b, Addrs b /\ linked H a b.

(** [p] at address 16 and [q] at address 32 hold each other's address. *)
Definition twoCycleHeap : Heap :=
  {[ 16%N := VPtr "main.P" 32; 32%N := VPtr "main.P" 16 ]}.

(** A walker that lets no panic out but that of [reflect.Value.Type]. *)
Definition OnlyTypePanic (rec : dumpState -> bool -> Value -> Outcome dumpState)
  : Prop :=
  forall d a v msg sink, rec d a v = Raised msg sink -> msg = zeroValueType.

(** The loop of [dumpPtr], started on [v], passes the addresses [addrs] in
    this order and ends on [x], which is not a pointer: every address is
    not nil and holds the next pointer, directly or boxed in an interface,
    and none holds a nil interface. *)
Fixpoint follows (H : Heap) (v : Value) (addrs : list N) (x : Value) : Prop :=
  match addrs with
  | [] => v = x /\ Kind x <> reflect.Ptr
  | a :: rest =>
      (exists ty, v = VPtr ty a) /\ a <> 0%N /\
      (forall ity, Elem H a <> VInterface ity None) /\
      follows H (unpackValue true (Elem H a)).2 rest x
  end.

(** [CanAddr] of the value a chain ends on: the variable at the last
    address is addressable, the value boxed in an interface is not. *)
Definition endCanAddr (H : Heap) (addrs : list N) : bool :=
  match last addrs with
  | Some a => (unpackValue true (Elem H a)).1
  | None => false
  end.

(** The addresses of a chain as they are displayed: in hexadecimal, an
    arrow before each but the first. *)
Fixpoint arrowText (addrs : list N) : string :=
  match addrs with
  | [] => ""
  | a :: rest => "->" +:+ printHexPtr "" a +:+ arrowText rest
  end.

Definition chainText (addrs : list N) : string :=
  match addrs with
  | [] => ""
  | a :: rest => printHexPtr "" a +:+ arrowText rest
  end.

(** The identity map once the addresses are recorded at the depth [dep]. *)
Definition recordAll (dep : Z) (addrs : list N) (m : gmap N Z) : gmap N Z :=
  foldl (fun m a => <[a := dep]> m) m addrs.

(** A pointer to a pointer to the [int8] of [int8Heap]. *)
Definition int8PtrHeap : Heap :=
  {[ 16%N := VInt W8 "int8" 5; 32%N := VPtr "*int8" 16 ]}.

Definition int8PtrPtr : Value := VPtr "**int8" 32.

(** The configuration [cs] with another depth limit. *)
Definition withMaxDepth (cs : ConfigState) (n : Z) : ConfigState :=
  {| MaxDepth := n; Indent := Indent cs; DisableMethods := DisableMethods cs;
     DisablePointerMethods := DisablePointerMethods cs;
     ContinueOnMethod := ContinueOnMethod cs |}.

(** A pointer is nil or holds an address of [Addrs]. *)
Definition within (Addrs : N -> Prop) (v : Value) : Prop :=
  match v with
  | VPtr _ a => a = 0%N \/ Addrs a
  | _ => True
  end.

(** Two memories hold the same at every address of [Addrs], and the pointers
    stored there stay in [Addrs]. *)
Definition agreeOn (Addrs : N -> Prop) (H H' : Heap) : Prop :=
  forall a, Addrs a ->
    H' !! a = H !! a /\ forall x, H !! a = Some x -> deep (within Addrs) x.

(** A walker that does the same in two runs on the values whose pointers
    stay in [Addrs]. *)
Definition SameWithin (Addrs : N -> Prop)
  (rec rec' : dumpState -> bool -> Value -> Outcome dumpState) : Prop :=
  forall d a v, deep (within Addrs) v -> rec' d a v = rec d a v.

(** *** The text of a value without pointers *)

(** What follows an entry: a newline after the last one, a comma and a
    newline after the others. *)
Definition sepText {A : Type} (rest : list A) : string :=
  match rest with
  | [] => newline
  | _ => "," +:+ newline
  end.

(** The text of a value that holds no other value. *)
Definition leafText (h : Host) (v : Value) : option string :=
  match v with
  | VBool _ b => Some (if b then "true" else "false")
  | VInt _ _ n => Some (FormatInt n)
  | VUint _ _ n => Some (FormatUint n)
  | VFloat F32 _ f => Some (FormatFloat h f 32)
  | VFloat F64 _ f => Some (FormatFloat h f 64)
  | VComplex F32 _ re im => Some (printComplex h "" re im 32)
  | VComplex F64 _ re im => Some (printComplex h "" re im 64)
  | VString _ s => Some (Quote h s)
  | VInterface _ _ => Some ""
  | VUintptr _ n | VUnsafePointer _ n | VChan _ n | VFunc _ n =>
      Some (printHexPtr "" n)
  | VOther _ canInterface text =>
      Some (if canInterface then text else ValueString v)
  | _ => None
  end.

Section Text.

Variable h : Host.
Variable cs : ConfigState.

(** The text of an entry at a given depth, type label included. *)
Variable sub : nat -> Value -> option string.

(** Entries of an array or a slice: each on a line of its own, indented to
    its depth. *)
Fixpoint elemsText (dep : nat) (es : list Value) : option string :=
  match es with
  | [] => Some ""
  | e :: rest =>
      t ← sub dep (unpackValue false e).2;
      r ← elemsText dep rest;
      Some (Repeat (Indent cs) dep +:+ t +:+ sepText rest +:+ r)
  end.

(** Entries of a map: the key, a colon and the value on one line. *)
Fixpoint pairsText (dep : nat) (es : list (Value * Value)) : option string :=
  match es with
  | [] => Some ""
  | (key, val) :: rest =>
      tk ← sub dep (unpackValue false key).2;
      tx ← sub dep (unpackValue false val).2;
      r ← pairsText dep rest;
      Some (Repeat (Indent cs) dep +:+ tk +:+ ": " +:+ tx +:+ sepText rest
            +:+ r)
  end.

(** Fields of a struct: the name, a colon and the value on one line. *)
Fixpoint fieldsText (dep : nat) (fs : list (string * Value)) : option string :=
  match fs with
  | [] => Some ""
  | (name, f) :: rest =>
      t ← sub dep (unpackValue false f).2;
      r ← fieldsText dep rest;
      Some (Repeat (Indent cs) dep +:+ name +:+ ": " +:+ t +:+ sepText rest
            +:+ r)
  end.

(** Entries between braces, the closing brace indented like the line that
    holds the opening one. *)
Definition braces (dep : nat) (inner : string) : string :=
  "{" +:+ newline +:+ inner +:+ Repeat (Indent cs) dep +:+ "}".

(** The text of a value after its type label; there is none for a
    pointer. *)
Definition bodyText (dep : nat) (v : Value) : option string :=
  match v with
  | VArray _ es | VSlice _ es => braces dep <$> elemsText (S dep) es
  | VMap _ es => braces dep <$> pairsText (S dep) (MapKeys h es)
  | VStruct _ fs => braces dep <$> fieldsText (S dep) fs
  | _ => leafText h v
  end.

End Text.

(** The text of a value nested at most [n] levels, at the depth [dep]: the
    type label and the text of what the value holds. *)
Fixpoint typedText (h : Host) (cs : ConfigState) (n : nat) (dep : nat)
  (v : Value) : option string :=
  match n with
  | O => None
  | S n' =>
      T ← TypeString v;
      b ← bodyText h cs (typedText h cs n') dep v;
      Some ("(" +:+ T +:+ ") " +:+ b)
  end.

(** The [Foo] of the example tests. *)
Definition fooValue : Value :=
  VStruct "main.Foo"
    [("unexportedField",
      VStruct "main.Bar"
        [("flag", VInt WNative "main.Flag" 1); ("data", VUintptr "uintptr" 0)]);
     ("ExportedField",
      VMap "map[interface {}]interface {}"
        [(VInterface "interface {}" (Some (VString "string" "one")),
          VInterface "interface {}" (Some (VBool "bool" true)))])].

(** What [Fdump] writes for [fooValue]. *)
Definition fooText : string :=
  "(main.Foo) {" +:+ newline
  +:+ " unexportedField: (main.Bar) {" +:+ newline
  +:+ "  flag: (main.Flag) 1," +:+ newline
  +:+ "  data: (uintptr) <nil>" +:+ newline
  +:+ " }," +:+ newline
  +:+ " ExportedField: (map[interface {}]interface {}) {" +:+ newline
  +:+ "  (string) " +:+ dquote +:+ "one" +:+ dquote +:+ ": (bool) true"
  +:+ newline
  +:+ " }" +:+ newline
  +:+ "}".

(** A walker for which it does not matter whether the value is
    addressable. *)
Definition AddrBlind (rec : dumpState -> bool -> Value -> Outcome dumpState)
  : Prop :=
  forall d a a' v, rec d a v = rec d a' v.

(** The [pstringer] type of the tests, a string whose [String] method has
    a pointer receiver, and a host that knows it: the method is in the
    method set of a pointer to the value only. *)
Definition pstringer : Value := VString "spew_test.pstringer" "1".

Definition pstringerHost : Host :=
  withIface plainHost
    (fun viaPtr v =>
       match v with
       | VString ty s =>
           if String.eqb ty "spew_test.pstringer" && viaPtr
           then Some (IStringer (Returns ("stringer " +:+ s)))
           else None
       | _ => None
       end).

Definition noPointerMethods : ConfigState :=
  {| MaxDepth := 0; Indent := " "; DisableMethods := false;
     DisablePointerMethods := true; ContinueOnMethod := false |}.

(** Neither a pointer nor the zero Value. *)
Definition plainValue (v : Value) : Prop :=
  Kind v <> reflect.Ptr /\ Kind v <> reflect.Invalid.

(** * Properties *)

(** ** The printers on the values of the tests *)

Example printHexPtr_4096 : printHexPtr "" 4096%N = "0x1000".
Proof. reflexivity. Qed.

Example printHexPtr_null : printHexPtr "" 0%N = "<nil>".
Proof. reflexivity. Qed.

Example printInt_int8_max : printInt "" 127 = "127".
Proof. reflexivity. Qed.

Example printUint_uint64_max :
  printUint "" 18446744073709551615%N = "18446744073709551615".
Proof. reflexivity. Qed.

(** The self-referencing struct of the tests, dumped through a pointer and
    by value. *)
Example dump_circular_pointer :
  Fdump plainHost defaultConfig circHeap 3 "" [Some circPtr]
  = Ok ("(*spew_test.circular)(0x1000)({" +:+ newline
        +:+ " c: (*spew_test.circular)(0x1000)(<already shown>)" +:+ newline
        +:+ "})" +:+ newline).
Proof. vm_compute. reflexivity. Qed.

Example dump_circular_value :
  Fdump plainHost defaultConfig circHeap 4 "" [Some circular]
  = Ok ("(spew_test.circular) {" +:+ newline
        +:+ " c: (*spew_test.circular)(0x1000)({" +:+ newline
        +:+ "  c: (*spew_test.circular)(0x1000)(<already shown>)" +:+ newline
        +:+ " })" +:+ newline
        +:+ "}" +:+ newline).
Proof. vm_compute. reflexivity. Qed.

(** ** Strings and the sink *)

Lemma app_cons_s (x : Ascii.ascii) (a b : string) :
  String x a +:+ b = String x (a +:+ b).
Proof. reflexivity. Qed.

Lemma app_assoc_s (a b c : string) : (a +:+ b) +:+ c = a +:+ (b +:+ c).
Proof.
  induction a as [|x a IH]; [done |].
  rewrite !app_cons_s. by f_equal.
Qed.

Lemma app_empty_r (a : string) : a +:+ "" = a.
Proof.
  induction a as [|x a IH]; [done |].
  rewrite app_cons_s. by f_equal.
Qed.

Lemma app_empty_l (a : string) : "" +:+ a = a.
Proof. reflexivity. Qed.

(** Two states with the same fields are the same state. *)
Lemma dumpState_eq (d d' : dumpState) :
  w d = w d' -> depth d = depth d' -> pointers d = pointers d' ->
  ignoreNextType d = ignoreNextType d' -> ignoreNextPad d = ignoreNextPad d' ->
  d = d'.
Proof. destruct d, d'. simpl. by intros -> -> -> -> ->. Qed.

(** ** The identity map *)

Lemma prune_lookup (dep : Z) (m : gmap N Z) (a : N) (pd : Z) :
  prune dep m !! a = Some pd <-> m !! a = Some pd /\ pd < dep.
Proof. unfold prune. by rewrite map_lookup_filter_Some. Qed.

Lemma prune_below (dep : Z) (m : gmap N Z) (a : N) (pd : Z) :
  prune dep m !! a = Some pd -> pd < dep.
Proof. intros Hl. by apply prune_lookup in Hl as [_ ?]. Qed.

Lemma prune_prune (dep dep' : Z) (m : gmap N Z) :
  dep <= dep' -> prune dep (prune dep' m) = prune dep m.
Proof.
  intros Hle. apply map_eq. intros a. apply option_eq. intros pd.
  rewrite !prune_lookup. intuition lia.
Qed.

Lemma prune_le (dep dep' : Z) (m1 m2 : gmap N Z) :
  dep <= dep' -> prune dep' m1 = prune dep' m2 -> prune dep m1 = prune dep m2.
Proof.
  intros Hle Heq.
  rewrite <- (prune_prune dep dep' m1), <- (prune_prune dep dep' m2) by done.
  by rewrite Heq.
Qed.

Lemma prune_insert (dep : Z) (m : gmap N Z) (a : N) :
  seenAbove m a dep = false -> prune dep (<[a := dep]> m) = prune dep m.
Proof.
  intros Hs. unfold prune. apply map_filter_insert_not'; simpl; [lia |].
  intros y Hy. unfold seenAbove in Hs. rewrite Hy in Hs.
  apply Z.ltb_ge in Hs. lia.
Qed.

(** The loop of [dumpPtr] leaves the entries above the current depth as they
    are. *)
Lemma unwrapRound_prune (H : Heap) (dep : Z) (u u' : unwrapState) (addr : N) :
  unwrapRound H dep u addr = Break u' \/ unwrapRound H dep u addr = Continue u' ->
  prune dep (ptrs u') = prune dep (ptrs u).
Proof.
  unfold unwrapRound. intros Hr.
  destruct (N.eqb addr 0); [by destruct Hr; simplify_eq |].
  destruct (seenAbove (ptrs u) addr dep) eqn:Hs; [by destruct Hr; simplify_eq |].
  assert (Hins := prune_insert dep (ptrs u) addr Hs).
  destruct (Elem H addr) as [| | | | | | | | | | ? [e|] | | | | | | |];
    by destruct Hr; simplify_eq.
Qed.

Lemma unwrap_prune (fuel : nat) (H : Heap) (dep : Z) (u u' : unwrapState) :
  unwrap fuel H dep u = Some u' -> prune dep (ptrs u') = prune dep (ptrs u).
Proof.
  revert u. induction fuel as [|fuel IH]; intros u Hu.
  - simpl in Hu. destruct (ve u); by simplify_eq.
  - simpl in Hu. destruct (ve u); try (by simplify_eq).
    destruct (unwrapRound H dep u p) as [u1|u1] eqn:Hr.
    + apply IH in Hu. rewrite Hu. eapply unwrapRound_prune; eauto.
    + simplify_eq. eapply unwrapRound_prune; eauto.
Qed.

(** ** Outcomes *)

Lemma bind_Ok {A B} (m : Outcome A) (k : A -> Outcome B) (b : B) :
  mbind k m = Ok b -> exists a, m = Ok a /\ k a = Ok b.
Proof. destruct m; simpl; [eauto | done | done]. Qed.

Ltac inv_bind H :=
  let a := fresh "d" in
  let H1 := fresh "Hrun" in
  apply bind_Ok in H as (a & H1 & H).

(** ** Frames: depth and shallower entries survive every call *)

Lemma sameFrame_refl (d : dumpState) : sameFrame d d.
Proof. by split. Qed.

Lemma sameFrame_trans (d1 d2 d3 : dumpState) :
  sameFrame d1 d2 -> sameFrame d2 d3 -> sameFrame d1 d3.
Proof.
  intros [Hd1 Hp1] [Hd2 Hp2]. rewrite Hd1 in Hd2, Hp2.
  split; congruence.
Qed.

Lemma sameFrame_eq (d d' : dumpState) :
  depth d' = depth d -> pointers d' = pointers d -> sameFrame d d'.
Proof. intros Hd Hp. split; [done | by rewrite Hp]. Qed.

Lemma sameFrame_pad (cs : ConfigState) (d : dumpState) : sameFrame d (pad cs d).
Proof. unfold pad. by destruct (ignoreNextPad d); apply sameFrame_eq. Qed.

Section Frames.

Variable h : Host.
Variable cs : ConfigState.
Variable H : Heap.
Variable rec : dumpState -> bool -> Value -> Outcome dumpState.
Hypothesis rec_frame : Frame rec.

Lemma dumpElems_frame (es : list Value) (d d' : dumpState) (a : bool) :
  dumpElems rec d a es = Ok d' -> sameFrame d d'.
Proof.
  revert d. induction es as [|e rest IH]; intros d Hrun; simpl in Hrun.
  - simplify_eq. apply sameFrame_refl.
  - destruct (unpackValue a e) as [a' x]. inv_bind Hrun.
    apply rec_frame in Hrun0. apply IH in Hrun.
    eapply sameFrame_trans; [exact Hrun0 |].
    eapply sameFrame_trans; [| exact Hrun].
    by destruct rest; apply sameFrame_eq.
Qed.

Lemma dumpEntries_frame (es : list (Value * Value)) (d d' : dumpState) :
  dumpEntries rec d es = Ok d' -> sameFrame d d'.
Proof.
  revert d. induction es as [|[key val] rest IH]; intros d Hrun; simpl in Hrun.
  - simplify_eq. apply sameFrame_refl.
  - destruct (unpackValue false key) as [ak k].
    destruct (unpackValue false val) as [ax x].
    inv_bind Hrun. inv_bind Hrun.
    apply rec_frame in Hrun0, Hrun1. apply IH in Hrun.
    eapply sameFrame_trans; [exact Hrun0 |].
    eapply sameFrame_trans; [| exact Hrun].
    eapply sameFrame_trans; [| eapply sameFrame_trans; [exact Hrun1 |]].
    + by apply sameFrame_eq.
    + by destruct rest; apply sameFrame_eq.
Qed.

Lemma dumpFields_frame (fs : list (string * Value)) (d d' : dumpState)
  (a : bool) :
  dumpFields cs rec d a fs = Ok d' -> sameFrame d d'.
Proof.
  revert d. induction fs as [|[name f] rest IH]; intros d Hrun; simpl in Hrun.
  - simplify_eq. apply sameFrame_refl.
  - destruct (unpackValue a f) as [a' x]. inv_bind Hrun.
    apply rec_frame in Hrun0. apply IH in Hrun.
    eapply sameFrame_trans; [| exact Hrun].
    eapply sameFrame_trans; [| eapply sameFrame_trans; [exact Hrun0 |]].
    + eapply sameFrame_trans; [apply (sameFrame_pad cs) |].
      by apply sameFrame_eq.
    + by destruct rest; apply sameFrame_eq.
Qed.

Lemma dumpCompound_frame (d d' : dumpState)
  (body : dumpState -> Outcome dumpState) :
  (forall d2 d3, body d2 = Ok d3 -> sameFrame d2 d3) ->
  dumpCompound cs d body = Ok d' -> sameFrame d d'.
Proof.
  intros Hbody Hrun. unfold dumpCompound in Hrun. inv_bind Hrun.
  simplify_eq.
  set (d2 := set_depth (dWrite d openBraceNewlineBytes)
               (depth (dWrite d openBraceNewlineBytes) + 1)) in *.
  assert (Hin : sameFrame d2 d0).
  { destruct (tooDeep cs d2).
    - simplify_eq. eapply sameFrame_trans; [apply (sameFrame_pad cs) |].
      by apply sameFrame_eq.
    - by apply Hbody. }
  destruct Hin as [Hd Hp]. simpl in Hd, Hp.
  eapply sameFrame_trans; [| apply (sameFrame_pad cs)].
  split; simpl; [lia |].
  apply (prune_le _ (depth d + 1)); [lia | done].
Qed.

Lemma dumpType_frame (d d' : dumpState) (v : Value) :
  dumpType cs d v = Ok d' -> sameFrame d d'.
Proof.
  unfold dumpType. destruct (ignoreNextType d); simpl; intros Hrun.
  - simplify_eq. apply sameFrame_refl.
  - destruct (TypeString v); simplify_eq.
    eapply sameFrame_trans; [apply (sameFrame_pad cs) |].
    by apply sameFrame_eq.
Qed.

Lemma dumpMethods_frame (d d' : dumpState) (a handled : bool) (v : Value) :
  dumpMethods h cs d a v = Ok (d', handled) -> sameFrame d d'.
Proof.
  unfold dumpMethods. intros Hrun.
  destruct (negb (DisableMethods cs)); [| simplify_eq; apply sameFrame_refl].
  destruct (_ && _); [| simplify_eq; apply sameFrame_refl].
  inv_bind Hrun. destruct d0 as [sink hd]. simplify_eq.
  by apply sameFrame_eq.
Qed.

Lemma dumpKind_frame (d d' : dumpState) (a : bool) (v : Value) :
  dumpKind h cs rec d a v = Ok d' -> sameFrame d d'.
Proof.
  destruct v; simpl; intros Hrun;
    try (simplify_eq; by apply sameFrame_eq);
    try (eapply dumpCompound_frame; [| exact Hrun]; intros d2 d3 Hb;
         simpl in Hb;
         by eauto using dumpElems_frame, dumpEntries_frame, dumpFields_frame).
  all: repeat case_match; simplify_eq; by apply sameFrame_eq.
Qed.

Lemma dumpPtr_frame (fuel : nat) (d d' : dumpState) (v : Value) :
  dumpPtr rec fuel H d v = Ok d' -> sameFrame d d'.
Proof.
  unfold dumpPtr. intros Hrun.
  destruct (unwrap _ _ _ _) as [u|] eqn:Hu; [| done].
  apply unwrap_prune in Hu. simpl in Hu.
  rewrite prune_prune in Hu by lia.
  destruct (TypeString (ve u)); [| done].
  destruct (nilFound u); [simplify_eq; by split |].
  destruct (cycleFound u); [simplify_eq; by split |].
  inv_bind Hrun. simplify_eq.
  apply rec_frame in Hrun0 as [Hd Hp]. simpl in Hd, Hp.
  split; simpl; congruence.
Qed.

Lemma dumpBody_frame (fuel : nat) (d d' : dumpState) (a : bool) (v : Value) :
  dumpBody h cs H rec fuel d a v = Ok d' -> sameFrame d d'.
Proof.
  unfold dumpBody. intros Hrun.
  destruct (bool_decide _).
  - apply dumpPtr_frame in Hrun.
    eapply sameFrame_trans; [apply (sameFrame_pad cs) | exact Hrun].
  - inv_bind Hrun. inv_bind Hrun. destruct d1 as [d3 handled].
    apply dumpType_frame in Hrun0. apply dumpMethods_frame in Hrun1.
    eapply sameFrame_trans; [exact Hrun0 |].
    eapply sameFrame_trans; [| eapply sameFrame_trans; [exact Hrun1 |]].
    + by apply sameFrame_eq.
    + destruct handled; [simplify_eq; apply sameFrame_refl |].
      by apply dumpKind_frame in Hrun.
Qed.

End Frames.

(** [dump] returns at the depth it was called at, and with the entries above
    that depth untouched. *)
Lemma dump_frame (h : Host) (cs : ConfigState) (H : Heap) (fuel : nat) :
  Frame (dump h cs H fuel).
Proof.
  induction fuel as [|fuel IH]; intros d a v d' Hrun; [done |].
  simpl in Hrun. by eapply dumpBody_frame in Hrun.
Qed.

(** ** Sibling branches (C9) *)

Lemma pad_set_pointers (cs : ConfigState) (d : dumpState) (m : gmap N Z) :
  pad cs (set_pointers d m) = set_pointers (pad cs d) m.
Proof. unfold pad. simpl. by destruct (ignoreNextPad d). Qed.

(** [dumpPtr] reads the identity map only through its entries above the
    current depth. *)
Lemma dumpPtr_pruned (rec : dumpState -> bool -> Value -> Outcome dumpState)
  (fuel : nat) (H : Heap) (d : dumpState) (m1 m2 : gmap N Z) (v : Value) :
  prune (depth d) m1 = prune (depth d) m2 ->
  dumpPtr rec fuel H (set_pointers d m1) v
  = dumpPtr rec fuel H (set_pointers d m2) v.
Proof. intros Hm. unfold dumpPtr, unwrapStart. simpl. by rewrite Hm. Qed.



(** Both fields of [pair] are expanded in full. *)
Example pair_both_fields_expanded :
  Fdump plainHost defaultConfig int8Heap 3 "" [Some pair]
  = Ok ("(main.pair) {" +:+ newline
        +:+ " a: (*int8)(0x10)(5)," +:+ newline
        +:+ " b: (*int8)(0x10)(5)" +:+ newline
        +:+ "}" +:+ newline).
Proof. vm_compute. reflexivity. Qed.

(** The map is cleared when the next pointer is met, of the entries at or
    below the depth of that pointer only: an address met again one level
    deeper inside a later sibling still finds the entry of the earlier
    sibling and is flagged. *)
Example deeper_pointer_finds_entry_of_earlier_sibling :
  Fdump plainHost defaultConfig int8Heap 4 "" [Some uncleAndNephew]
  = Ok ("(main.outer) {" +:+ newline
        +:+ " a: (*int8)(0x10)(5)," +:+ newline
        +:+ " b: (main.inner) {" +:+ newline
        +:+ "  c: (*int8)(0x10)(<already shown>)" +:+ newline
        +:+ " }" +:+ newline
        +:+ "}" +:+ newline).
Proof. vm_compute. reflexivity. Qed.

(** ** Pointer chains that return to one of their own addresses (C1, C3) *)

Lemma seenAbove_insert (m : gmap N Z) (a : N) (dep : Z) :
  seenAbove (<[a := dep]> m) a dep = false.
Proof. unfold seenAbove. rewrite lookup_insert_eq. apply Z.ltb_irrefl. Qed.

Lemma seenAbove_prune (m : gmap N Z) (a : N) (dep : Z) :
  seenAbove (prune dep m) a dep = seenAbove m a dep.
Proof.
  unfold seenAbove.
  destruct (prune dep m !! a) as [pd|] eqn:Hp.
  - apply prune_lookup in Hp as [-> _]. done.
  - destruct (m !! a) as [pd|] eqn:Hm; [| done].
    destruct (Z.ltb_spec pd dep) as [Hlt | Hge]; [| done].
    assert (prune dep m !! a = Some pd) by by apply prune_lookup.
    congruence.
Qed.

(** The loop never ends on a pointer to an address that points to itself,
    unless that address was recorded above the current depth. *)
Lemma unwrap_self_cycle (fuel : nat) (H : Heap) (dep : Z) (u : unwrapState)
  (ty : string) (a : N) :
  a <> 0%N -> pointsToItself H a ->
  ve u = VPtr ty a -> seenAbove (ptrs u) a dep = false ->
  unwrap fuel H dep u = None.
Proof.
  intros Ha (ty' & Hself). revert u ty.
  induction fuel as [|fuel IH]; intros [x ca ind ch m nf cf] ty Hve Hseen;
    simpl in Hve, Hseen; subst x; simpl; [done |].
  unfold unwrapRound. simpl.
  apply N.eqb_neq in Ha as Ha'. rewrite Ha', Hseen. unfold Elem.
  destruct Hself as [-> | (ity & ->)]; simpl;
    (eapply IH; [done | apply seenAbove_insert]).
Qed.

Lemma dumpPtr_self_cycle
  (rec : dumpState -> bool -> Value -> Outcome dumpState) (fuel : nat)
  (H : Heap) (d : dumpState) (ty : string) (a : N) :
  a <> 0%N -> pointsToItself H a ->
  seenAbove (pointers d) a (depth d) = false ->
  dumpPtr rec fuel H d (VPtr ty a) = OutOfFuel.
Proof.
  intros Ha Hself Hseen. unfold dumpPtr.
  erewrite unwrap_self_cycle; [done | done | done | done |].
  simpl. by rewrite seenAbove_prune.
Qed.

(** A walk that reaches a pointer to a self-pointing address not yet on its
    path does not return, whatever the fuel. *)
Lemma dump_self_cycle (h : Host) (cs : ConfigState) (H : Heap) (fuel : nat)
  (d : dumpState) (ca : bool) (ty : string) (a : N) :
  a <> 0%N -> pointsToItself H a ->
  seenAbove (pointers d) a (depth d) = false ->
  dump h cs H fuel d ca (VPtr ty a) = OutOfFuel.
Proof.
  intros Ha Hself Hseen. destruct fuel as [|fuel]; [done |].
  simpl. unfold dumpBody. simpl.
  apply dumpPtr_self_cycle; [done | done |].
  unfold pad. by destruct (ignoreNextPad d).
Qed.

Lemma selfHeap_pointsToItself : pointsToItself selfHeap 16.
Proof. exists "*interface {}". right. by exists "interface {}". Qed.

(** C1.  On the finite graph of [var i interface{}; i = &i] the walker does
    not terminate: for every amount of fuel and every configuration the
    walk of a pointer to [i] is still in the loop of [dumpPtr]. *)
Theorem Fdump_self_reference_never_returns
  (h : Host) (cs : ConfigState) (fuel : nat) (sink : string) :
  Fdump h cs selfHeap fuel sink [Some selfPtr] = OutOfFuel.
Proof.
  simpl. unfold selfPtr.
  by rewrite dump_self_cycle by
    (done || apply selfHeap_pointsToItself).
Qed.




(** ** Nil pointers (C8) *)

(** C8.  What the code does on a nil pointer: the loop counts the nil
    pointer as an indirection before it tests it, and the parentheses of the
    pointer chain are written although the chain is empty.  A nil pointer of
    type [ty] is therefore rendered as an asterisk, then [ty] (which itself
    begins with the asterisks of the type), an empty pair of parentheses and
    the nil token.  For a nil pointer to [int8] that is two asterisks
    before [int8] and an empty chain, where the tests of the package expect
    one asterisk and no chain. *)
Theorem dump_nil_pointer_extra_marker_and_empty_chain
  (h : Host) (cs : ConfigState) (H : Heap) (fuel : nat) (d : dumpState)
  (ca : bool) (ty : string) :
  dump h cs H (S fuel) d ca (VPtr ty 0)
  = Ok (set_pointers
          (set_w (pad cs d)
             (w (pad cs d) +:+ "(" +:+ "*" +:+ ty +:+ ")" +:+ "("
              +:+ ")" +:+ "(" +:+ "<nil>" +:+ ")"))
          (prune (depth d) (pointers d))) /\
  Fdump plainHost defaultConfig ∅ 1 "" [Some nilInt8Ptr]
  = Ok ("(**int8)()(<nil>)" +:+ newline) /\
  Fdump plainHost defaultConfig ∅ 1 "" [Some nilInt8Ptr]
  <> Ok ("(*int8)(<nil>)" +:+ newline).
Proof.
  split; [| split; [vm_compute; reflexivity | vm_compute; discriminate]].
  simpl. unfold dumpBody. simpl. unfold dumpPtr. simpl.
  unfold unwrapRound. simpl.
  assert (Hd : depth (pad cs d) = depth d)
    by (unfold pad; by destruct (ignoreNextPad d)).
  assert (Hp : pointers (pad cs d) = pointers d)
    by (unfold pad; by destruct (ignoreNextPad d)).
  f_equal. apply dumpState_eq; simpl; rewrite ?Hd, ?Hp; try reflexivity.
  unfold Write, openParenBytes, closeParenBytes, nilAngleBytes, asteriskBytes.
  rewrite app_empty_r, !app_assoc_s. reflexivity.
Qed.

(** ** The entry point (C10) *)

Lemma Fdump_app (h : Host) (cs : ConfigState) (H : Heap) (fuel : nat)
  (a1 a2 : list (option Value)) (sink : string) :
  Fdump h cs H fuel sink (a1 ++ a2)
  = s ← Fdump h cs H fuel sink a1; Fdump h cs H fuel s a2.
Proof.
  revert sink. induction a1 as [|[v|] a1 IH]; intros sink; simpl.
  - done.
  - destruct (dump h cs H fuel (newDumpState sink) false v); simpl; auto.
  - apply IH.
Qed.


(** ** The depth limit (C4) *)

Lemma dumpMethods_quiet (h : Host) (cs : ConfigState) (d : dumpState)
  (ca : bool) (v : Value) :
  noMethods h cs -> dumpMethods h cs d ca v = Ok (d, false).
Proof.
  intros [Hoff | Hnone]; unfold dumpMethods.
  - by rewrite Hoff.
  - destruct (negb (DisableMethods cs)); [| done].
    destruct (_ && _); [| done].
    unfold handleMethods. rewrite Hnone. simpl. by destruct d.
Qed.

Lemma dumpBody_quiet (h : Host) (cs : ConfigState) (H : Heap)
  (rec : dumpState -> bool -> Value -> Outcome dumpState) (fuel : nat)
  (d : dumpState) (ca : bool) (v : Value) :
  noMethods h cs -> Kind v <> reflect.Ptr ->
  dumpBody h cs H rec fuel d ca v
  = d1 ← dumpType cs d v; dumpKind h cs rec (set_ignoreNextType d1 false) ca v.
Proof.
  intros Hq Hk. unfold dumpBody.
  rewrite bool_decide_eq_false_2 by done.
  destruct (dumpType cs d v) as [d1| |]; simpl; [| done | done].
  by rewrite dumpMethods_quiet.
Qed.

Lemma tooDeep_spec (cs : ConfigState) (d : dumpState) :
  tooDeep cs d = true <-> MaxDepth cs <> 0 /\ MaxDepth cs < depth d.
Proof.
  unfold tooDeep. rewrite andb_true_iff, negb_true_iff, Z.eqb_neq, Z.ltb_lt.
  done.
Qed.

Lemma dumpCompound_tooDeep (cs : ConfigState) (d : dumpState)
  (body : dumpState -> Outcome dumpState) :
  MaxDepth cs <> 0 -> MaxDepth cs <= depth d ->
  dumpCompound cs d body = Ok (depthPlaceholder cs d).
Proof.
  intros Hn Hle. unfold dumpCompound, depthPlaceholder.
  assert (Hdeep : tooDeep cs
            (set_depth (dWrite d openBraceNewlineBytes)
               (depth (dWrite d openBraceNewlineBytes) + 1)) = true).
  { apply tooDeep_spec. simpl. split; [done | lia]. }
  by rewrite Hdeep.
Qed.

Lemma unpackValue_nest (ca : bool) (ty : string) (k : nat) (es : list Value) :
  unpackValue ca (nest ty k (VSlice ty es)) = (ca, nest ty k (VSlice ty es)).
Proof. by destruct k. Qed.

Lemma Kind_nest (ty : string) (k : nat) (es : list Value) :
  Kind (nest ty k (VSlice ty es)) = reflect.Slice.
Proof. by destruct k. Qed.

Lemma TypeString_nest (ty : string) (k : nat) (es : list Value) :
  TypeString (nest ty k (VSlice ty es)) = Some ty.
Proof. by destruct k. Qed.

Lemma dumpType_depth (cs : ConfigState) (d d1 : dumpState) (v : Value) :
  dumpType cs d v = Ok d1 -> depth d1 = depth d.
Proof. intros Hrun. by apply dumpType_frame in Hrun as [? _]. Qed.

Lemma nest_0 (ty : string) (x : Value) : nest ty 0 x = x.
Proof. reflexivity. Qed.

Lemma nest_S (ty : string) (k : nat) (x : Value) :
  nest ty (S k) x = VSlice ty [nest ty k x].
Proof. reflexivity. Qed.

Lemma dumpType_ext (cs : ConfigState) (d : dumpState) (v v' : Value) :
  TypeString v = TypeString v' -> dumpType cs d v = dumpType cs d v'.
Proof. intros Ht. unfold dumpType. by rewrite Ht. Qed.

(** Slices nested deeper than the limit are dumped alike, whatever lies
    below the limit. *)
Lemma dump_nest_beyond_limit (h : Host) (cs : ConfigState) (H : Heap)
  (ty : string) (k : nat) :
  noMethods h cs -> MaxDepth cs <> 0 ->
  forall (fuel : nat) (d : dumpState) (ca : bool) (es es' : list Value),
    depth d + Z.of_nat k = MaxDepth cs ->
    dump h cs H fuel d ca (nest ty k (VSlice ty es))
    = dump h cs H fuel d ca (nest ty k (VSlice ty es')).
Proof.
  intros Hq Hn. induction k as [|k IH]; intros fuel d ca es es' Hd;
    (destruct fuel as [|fuel]; [done |]);
    cbn [dump]; rewrite !dumpBody_quiet by (done || by rewrite Kind_nest).
  - rewrite (dumpType_ext cs d (nest ty 0 (VSlice ty es'))
               (nest ty 0 (VSlice ty es))) by done.
    destruct (dumpType cs d _) as [d1| |] eqn:Ht; [| done | done].
    apply dumpType_depth in Ht. cbn [mbind Outcome_bind].
    rewrite !nest_0. cbn [dumpKind].
    rewrite !dumpCompound_tooDeep by (simpl; lia). done.
  - rewrite (dumpType_ext cs d (nest ty (S k) (VSlice ty es'))
               (nest ty (S k) (VSlice ty es))) by done.
    destruct (dumpType cs d _) as [d1| |] eqn:Ht; [| done | done].
    apply dumpType_depth in Ht. cbn [mbind Outcome_bind].
    rewrite !nest_S. cbn [dumpKind]. unfold dumpCompound.
    destruct (tooDeep cs _); [done |].
    cbn [dumpElems]. rewrite !unpackValue_nest.
    rewrite (IH fuel _ true es es') by (simpl; lia). done.
Qed.

(** C4.  With a nonzero [MaxDepth], a compound reached when the depth is
    already [MaxDepth] or more is not expanded: whatever its entries, and
    without any recursive call (the result is the same for every [rec]),
    [dump] writes the opening brace, the placeholder and the closing brace.
    Entries are iterated only while the depth, once incremented, is at most
    [MaxDepth].  Consequently slices nested beyond the limit are dumped
    alike whatever they hold below it. *)
Theorem max_depth_bounds_expansion
  (h : Host) (cs : ConfigState) (H : Heap)
  (rec : dumpState -> bool -> Value -> Outcome dumpState)
  (d : dumpState) (ca : bool) (v : Value) :
  MaxDepth cs <> 0 -> MaxDepth cs <= depth d -> isCompound v = true ->
  dumpKind h cs rec d ca v = Ok (depthPlaceholder cs d) /\
  (forall d2 : dumpState,
     tooDeep cs d2 = false <-> MaxDepth cs = 0 \/ depth d2 <= MaxDepth cs) /\
  (forall body : dumpState -> Outcome dumpState,
     dumpCompound cs d body = Ok (depthPlaceholder cs d)) /\
  (noMethods h cs ->
   forall (ty : string) (k fuel : nat) (d0 : dumpState) (es es' : list Value),
     depth d0 + Z.of_nat k = MaxDepth cs ->
     dump h cs H fuel d0 ca (nest ty k (VSlice ty es))
     = dump h cs H fuel d0 ca (nest ty k (VSlice ty es'))).
Proof.
  intros Hn Hle Hv. repeat split.
  - destruct v; try discriminate; simpl; by apply dumpCompound_tooDeep.
  - intros Hd. destruct (decide (MaxDepth cs = 0)) as [|Hne]; [by left |].
    right. destruct (Z.le_gt_cases (depth d2) (MaxDepth cs)); [done |].
    assert (tooDeep cs d2 = true) by (apply tooDeep_spec; split; [done | lia]).
    congruence.
  - intros [Hz | Hd]; apply not_true_is_false; rewrite tooDeep_spec; lia.
  - intros body. by apply dumpCompound_tooDeep.
  - intros Hq ty k fuel d0 es es' Hd. by apply dump_nest_beyond_limit.
Qed.

Lemma max_depth_bounds_expansion_witness :
  dumpKind plainHost depth2Config (fun _ _ _ => OutOfFuel) atLimit true
    (VSlice "[]int8" [int8Max])
  = Ok (depthPlaceholder depth2Config atLimit) /\
  w (depthPlaceholder depth2Config atLimit)
  = "{" +:+ newline +:+ "   <max depth reached>" +:+ newline +:+ "  }" /\
  Fdump plainHost depth2Config ∅ 8 "" [Some (nest "[]interface {}" 7 int8Max)]
  = Ok ("([]interface {}) {" +:+ newline
        +:+ " ([]interface {}) {" +:+ newline
        +:+ "  ([]interface {}) {" +:+ newline
        +:+ "   <max depth reached>" +:+ newline
        +:+ "  }" +:+ newline
        +:+ " }" +:+ newline
        +:+ "}" +:+ newline).
Proof.
  split; [| split; vm_compute; reflexivity].
  apply (max_depth_bounds_expansion plainHost depth2Config ∅
           (fun _ _ _ => OutOfFuel) atLimit true (VSlice "[]int8" [int8Max]));
    [discriminate | vm_compute; discriminate | reflexivity].
Defined.

(** ** The walker depends on the host only through its decisions *)

Section SameRun.

Variable cs : ConfigState.
Variable h1 h2 : Host.
Variable H : Heap.
Hypothesis same : sameRun cs h1 h2.

Variable rec1 rec2 : dumpState -> bool -> Value -> Outcome dumpState.
Hypothesis rec_same : forall d a v, rec1 d a v = rec2 d a v.

Lemma dumpElems_same (es : list Value) (d : dumpState) (a : bool) :
  dumpElems rec1 d a es = dumpElems rec2 d a es.
Proof.
  revert d. induction es as [|e rest IH]; intros d; simpl; [done |].
  destruct (unpackValue a e) as [a' x]. rewrite rec_same.
  destruct (rec2 d a' x); simpl; auto.
Qed.

Lemma dumpEntries_same (es : list (Value * Value)) (d : dumpState) :
  dumpEntries rec1 d es = dumpEntries rec2 d es.
Proof.
  revert d. induction es as [|[key val] rest IH]; intros d; simpl; [done |].
  destruct (unpackValue false key) as [ak k].
  destruct (unpackValue false val) as [ax x]. rewrite rec_same.
  destruct (rec2 d ak k) as [d1| |]; simpl; [| done | done].
  rewrite rec_same. destruct (rec2 _ ax x); simpl; auto.
Qed.

Lemma dumpFields_same (fs : list (string * Value)) (d : dumpState) (a : bool) :
  dumpFields cs rec1 d a fs = dumpFields cs rec2 d a fs.
Proof.
  revert d. induction fs as [|[name f] rest IH]; intros d; simpl; [done |].
  destruct (unpackValue a f) as [a' x]. rewrite rec_same.
  destruct (rec2 _ a' x); simpl; auto.
Qed.

Lemma dumpMethods_same (d : dumpState) (a : bool) (v : Value) :
  dumpMethods h1 cs d a v = dumpMethods h2 cs d a v.
Proof.
  destruct same as (_ & _ & _ & [Hoff | Hif]); unfold dumpMethods.
  - by rewrite Hoff.
  - unfold handleMethods. by rewrite Hif.
Qed.

Lemma dumpKind_same (d : dumpState) (a : bool) (v : Value) :
  dumpKind h1 cs rec1 d a v = dumpKind h2 cs rec2 d a v.
Proof.
  destruct same as (Hkeys & Hquote & Hfloat & _).
  destruct v; simpl; try done.
  - destruct wd; unfold printFloat; by rewrite Hfloat.
  - destruct wd; unfold printComplex; by rewrite !Hfloat.
  - unfold dumpCompound. destruct (tooDeep cs _); [done |].
    by rewrite dumpElems_same.
  - unfold dumpCompound. destruct (tooDeep cs _); [done |].
    by rewrite dumpElems_same.
  - by rewrite Hquote.
  - unfold dumpCompound. destruct (tooDeep cs _); [done |].
    by rewrite Hkeys, dumpEntries_same.
  - unfold dumpCompound. destruct (tooDeep cs _); [done |].
    by rewrite dumpFields_same.
Qed.

Lemma dumpPtr_same (fuel : nat) (d : dumpState) (v : Value) :
  dumpPtr rec1 fuel H d v = dumpPtr rec2 fuel H d v.
Proof.
  unfold dumpPtr. destruct (unwrap _ _ _ _) as [u|]; [| done].
  destruct (TypeString (ve u)); [| done].
  destruct (nilFound u); [done |]. destruct (cycleFound u); [done |].
  by rewrite rec_same.
Qed.

Lemma dumpBody_same (fuel : nat) (d : dumpState) (a : bool) (v : Value) :
  dumpBody h1 cs H rec1 fuel d a v = dumpBody h2 cs H rec2 fuel d a v.
Proof.
  unfold dumpBody. destruct (bool_decide _); [apply dumpPtr_same |].
  destruct (dumpType cs d v) as [d1| |]; simpl; [| done | done].
  rewrite dumpMethods_same.
  destruct (dumpMethods h2 cs _ a v) as [[d3 handled]| |]; simpl;
    [| done | done].
  destruct handled; [done | apply dumpKind_same].
Qed.

End SameRun.

Lemma dump_sameRun (cs : ConfigState) (h1 h2 : Host) (H : Heap) (fuel : nat) :
  sameRun cs h1 h2 ->
  forall d a v, dump h1 cs H fuel d a v = dump h2 cs H fuel d a v.
Proof.
  intros Hsame. induction fuel as [|fuel IH]; intros d a v; [done |].
  simpl. by apply dumpBody_same.
Qed.

Lemma Fdump_sameRun (cs : ConfigState) (h1 h2 : Host) (H : Heap) (fuel : nat)
  (a : list (option Value)) (sink : string) :
  sameRun cs h1 h2 -> Fdump h1 cs H fuel sink a = Fdump h2 cs H fuel sink a.
Proof.
  intros Hsame. revert sink. induction a as [|[v|] a IH]; intros sink; simpl;
    [done | | apply IH].
  rewrite (dump_sameRun cs h1 h2) by done.
  destruct (dump h2 cs H fuel _ false v); simpl; auto.
Qed.

Lemma sameRun_withIface (cs : ConfigState) (h : Host)
  (f : bool -> Value -> option Iface) :
  DisableMethods cs = true -> sameRun cs (withIface h f) h.
Proof. intros Hoff. repeat split; auto. Qed.

(** ** Where the guard is consulted (C7) *)

(** C7, as stated, fails: the guard is invoked for a primitive.  A [Flag],
    an integer with a [String] method, is dumped as the text the method
    returns and not as a number, as in the example test of the package. *)
Lemma guard_is_invoked_for_an_integer :
  Kind flagTwo = reflect.Int /\
  DisableMethods defaultConfig = false /\
  dumpMethods flagHost defaultConfig (newDumpState "") false flagTwo
  = Ok (newDumpState "flagTwo", true) /\
  Fdump flagHost defaultConfig ∅ 1 "" [Some flagTwo]
  = Ok ("(spew_test.Flag) flagTwo" +:+ newline) /\
  Fdump plainHost defaultConfig ∅ 1 "" [Some flagTwo]
  = Ok ("(spew_test.Flag) 1" +:+ newline).
Proof. vm_compute. done. Qed.

(** C7, as amended.  Unless [DisableMethods], the guard is consulted for
    every value that reaches the switch of [dump] (pointers go to
    [dumpPtr] before) and whose kind is neither [Invalid] nor [Interface],
    the primitive kinds included: when the method found returns [s] and
    [ContinueOnMethod] is off, [s] is all that follows the type label.  For
    the kinds [Invalid] and [Interface] the guard is skipped.  When
    [DisableMethods] is set the guard is skipped for every value: the dump
    is the same whatever methods the values have. *)
Theorem guard_consulted_for_every_kind_unless_disabled
  (h : Host) (cs : ConfigState) (H : Heap) (fuel : nat) (d : dumpState)
  (ca : bool) (v : Value) :
  (DisableMethods cs = false ->
   Kind v <> reflect.Invalid -> Kind v <> reflect.Interface ->
   dumpMethods h cs d ca v
   = r ← handleMethods h cs (w d) ca v; Ok (set_w d r.1, r.2)) /\
  (DisableMethods cs = false -> ContinueOnMethod cs = false ->
   Kind v <> reflect.Invalid -> Kind v <> reflect.Interface ->
   Kind v <> reflect.Ptr ->
   forall s,
     (ifaceOf h (viaPointer cs ca) v = Some (IStringer (Returns s)) \/
      ifaceOf h (viaPointer cs ca) v = Some (IError (Returns s))) ->
     dump h cs H (S fuel) d ca v
     = d1 ← dumpType cs d v; Ok (dWrite (set_ignoreNextType d1 false) s)) /\
  (Kind v = reflect.Invalid \/ Kind v = reflect.Interface ->
   dumpMethods h cs d ca v = Ok (d, false)) /\
  (DisableMethods cs = true ->
   dumpMethods h cs d ca v = Ok (d, false) /\
   forall f, dump (withIface h f) cs H fuel d ca v = dump h cs H fuel d ca v).
Proof.
  split_and!.
  - intros Hon Hk1 Hk2. unfold dumpMethods. rewrite Hon. simpl.
    rewrite !bool_decide_eq_false_2 by done. simpl.
    by destruct (handleMethods h cs (w d) ca v) as [[sink handled]| |].
  - intros Hon Hcont Hk1 Hk2 Hk3 s Hif. simpl. unfold dumpBody.
    rewrite (bool_decide_eq_false_2 _ Hk3).
    destruct (dumpType cs d v) as [d1| |]; simpl; [| done | done].
    unfold dumpMethods. rewrite Hon. simpl.
    rewrite !bool_decide_eq_false_2 by done. simpl.
    unfold handleMethods.
    destruct Hif as [-> | ->]; unfold methodCase; rewrite Hcont; done.
  - intros Hk. unfold dumpMethods.
    destruct (negb (DisableMethods cs)); [| done].
    by destruct Hk as [-> | ->].
  - intros Hoff. split; [unfold dumpMethods; by rewrite Hoff |].
    intros f. apply dump_sameRun. by apply sameRun_withIface.
Qed.

Lemma guard_consulted_for_every_kind_unless_disabled_witness :
  dump flagHost defaultConfig ∅ 1 (newDumpState "") false flagTwo
  = d1 ← dumpType defaultConfig (newDumpState "") flagTwo;
    Ok (dWrite (set_ignoreNextType d1 false) "flagTwo").
Proof.
  apply (guard_consulted_for_every_kind_unless_disabled flagHost defaultConfig
           ∅ 0 (newDumpState "") false flagTwo);
    (reflexivity || discriminate || (left; reflexivity)).
Defined.

(** ** Values and everything inside them *)

Lemma deep_here (P : Value -> Prop) (v : Value) : deep P v -> P v.
Proof. by intros [? ? ?]. Qed.

Lemma deep_children (P : Value -> Prop) (v : Value) :
  deep P v -> Forall (deep P) (children v).
Proof. by intros [? ? ?]. Qed.

Lemma deep_unpackValue (P : Value -> Prop) (a : bool) (v : Value) :
  deep P v -> deep P (unpackValue a v).2.
Proof.
  intros Hv. destruct v as [| | | | | | | | | | ty [e|] | | | | | | |];
    try done.
  apply deep_children in Hv. simpl in *. by apply Forall_inv in Hv.
Qed.

Lemma deep_entries (P : Value -> Prop) (h : Host) (ty : string)
  (es : list (Value * Value)) :
  hostOk h -> deep P (VMap ty es) ->
  Forall (fun kv => deep P kv.1 /\ deep P kv.2) (MapKeys h es).
Proof.
  intros Hok Hv. rewrite (Hok es).
  apply deep_children in Hv. simpl in Hv.
  apply Forall_app in Hv as [Hk Hx].
  rewrite Forall_fmap in Hk. rewrite Forall_fmap in Hx.
  rewrite Forall_forall in Hk. rewrite Forall_forall in Hx.
  apply Forall_forall. intros kv Hin. split; [by apply Hk | by apply Hx].
Qed.

Lemma deep_fields (P : Value -> Prop) (ty : string)
  (fs : list (string * Value)) :
  deep P (VStruct ty fs) -> Forall (fun f => deep P f.2) fs.
Proof.
  intros Hv. apply deep_children in Hv. simpl in Hv.
  by rewrite Forall_fmap in Hv.
Qed.

(** ** The guard contains every panic (C5) *)

Lemma bind_Raised {A B} (m : Outcome A) (k : A -> Outcome B) msg sink :
  mbind k m = Raised msg sink ->
  m = Raised msg sink \/ exists a, m = Ok a /\ k a = Raised msg sink.
Proof. destruct m; simpl; [eauto | intros [= -> ->]; by left | done]. Qed.

(** [handleMethods] always returns normally. *)
Lemma handleMethods_returns (h : Host) (cs : ConfigState) (sink : string)
  (ca : bool) (v : Value) :
  exists sink' handled, handleMethods h cs sink ca v = Ok (sink', handled).
Proof.
  unfold handleMethods, methodCase.
  destruct (ifaceOf h (viaPointer cs ca) v) as [[[s|msg]|[s|msg]]|];
    destruct (ContinueOnMethod cs); simpl; eauto.
Qed.

(** A method that panics leaves the token in the sink, and the value is not
    handled. *)
Lemma handleMethods_panic (h : Host) (cs : ConfigState) (sink : string)
  (ca : bool) (v : Value) (msg : string) :
  ifaceOf h (viaPointer cs ca) v = Some (IError (Panics msg)) \/
  ifaceOf h (viaPointer cs ca) v = Some (IStringer (Panics msg)) ->
  handleMethods h cs sink ca v
  = Ok (sink +:+ "(PANIC=" +:+ msg +:+ ")", false).
Proof.
  intros Hif. unfold handleMethods, methodCase.
  destruct Hif as [-> | ->]; destruct (ContinueOnMethod cs); simpl;
    unfold Write, panicBytes, closeParenBytes; by rewrite !app_assoc_s.
Qed.

Section Safety.

Variable h : Host.
Variable cs : ConfigState.
Variable H : Heap.
Hypothesis host_ok : hostOk h.
Hypothesis heap_ok : heapAll (wellFormed H) H.

Variable rec : dumpState -> bool -> Value -> Outcome dumpState.
Hypothesis rec_safe : Safe H rec.

Lemma dumpElems_safe (es : list Value) (d : dumpState) (a : bool) msg sink :
  Forall (deep (wellFormed H)) es ->
  dumpElems rec d a es <> Raised msg sink.
Proof.
  revert d. induction es as [|e rest IH]; intros d Hes Hrun; simpl in Hrun;
    [done |].
  apply Forall_cons in Hes as [He Hrest].
  apply (deep_unpackValue _ a) in He.
  destruct (unpackValue a e) as [a' x]. simpl in He.
  apply bind_Raised in Hrun as [Hrun | (d1 & _ & Hrun)].
  - by eapply rec_safe.
  - by eapply IH.
Qed.

Lemma dumpEntries_safe (es : list (Value * Value)) (d : dumpState) msg sink :
  Forall (fun kv => deep (wellFormed H) kv.1 /\ deep (wellFormed H) kv.2) es ->
  dumpEntries rec d es <> Raised msg sink.
Proof.
  revert d. induction es as [|[key val] rest IH]; intros d Hes Hrun;
    simpl in Hrun; [done |].
  apply Forall_cons in Hes as [[Hk Hx] Hrest]. simpl in Hk, Hx.
  apply (deep_unpackValue _ false) in Hk, Hx.
  destruct (unpackValue false key) as [ak k].
  destruct (unpackValue false val) as [ax x]. simpl in Hk, Hx.
  apply bind_Raised in Hrun as [Hrun | (d1 & _ & Hrun)];
    [exact (rec_safe _ _ _ _ _ Hk Hrun) |].
  apply bind_Raised in Hrun as [Hrun | (d4 & _ & Hrun)];
    [exact (rec_safe _ _ _ _ _ Hx Hrun) |].
  by eapply IH.
Qed.

Lemma dumpFields_safe (fs : list (string * Value)) (d : dumpState) (a : bool)
  msg sink :
  Forall (fun f => deep (wellFormed H) f.2) fs ->
  dumpFields cs rec d a fs <> Raised msg sink.
Proof.
  revert d. induction fs as [|[name f] rest IH]; intros d Hfs Hrun;
    simpl in Hrun; [done |].
  apply Forall_cons in Hfs as [Hf Hrest]. simpl in Hf.
  apply (deep_unpackValue _ a) in Hf.
  destruct (unpackValue a f) as [a' x]. simpl in Hf.
  apply bind_Raised in Hrun as [Hrun | (d5 & _ & Hrun)];
    [by eapply rec_safe |].
  by eapply IH.
Qed.

Lemma dumpCompound_safe (d : dumpState)
  (body : dumpState -> Outcome dumpState) msg sink :
  (forall d2, body d2 <> Raised msg sink) ->
  dumpCompound cs d body <> Raised msg sink.
Proof.
  intros Hbody Hrun. unfold dumpCompound in Hrun.
  apply bind_Raised in Hrun as [Hrun | (d3 & _ & Hrun)]; [| done].
  destruct (tooDeep cs _); [done | by eapply Hbody].
Qed.

Lemma dumpType_safe (d : dumpState) (v : Value) msg sink :
  wellFormed H v -> dumpType cs d v <> Raised msg sink.
Proof.
  intros Hv. unfold dumpType. destruct (negb _); [| done].
  by destruct v.
Qed.

Lemma dumpMethods_safe (d : dumpState) (a : bool) (v : Value) msg sink :
  dumpMethods h cs d a v <> Raised msg sink.
Proof.
  unfold dumpMethods. destruct (negb _); [| done].
  destruct (_ && _); [| done].
  destruct (handleMethods_returns h cs (w d) a v) as (s & hd & ->). done.
Qed.

Lemma dumpKind_safe (d : dumpState) (a : bool) (v : Value) msg sink :
  deep (wellFormed H) v -> dumpKind h cs rec d a v <> Raised msg sink.
Proof.
  intros Hv. destruct v; simpl; try done;
    try (apply dumpCompound_safe; intros d2).
  - by destruct wd.
  - by destruct wd.
  - apply dumpElems_safe. by apply deep_children in Hv.
  - apply dumpElems_safe. by apply deep_children in Hv.
  - apply dumpEntries_safe. by eapply deep_entries.
  - apply dumpFields_safe. by eapply deep_fields.
  - by destruct canInterface.
Qed.

(** The loop of [dumpPtr] ends on a well-formed value. *)
Lemma unwrapRound_wellFormed (dep : Z) (u u' : unwrapState) (ty : string)
  (addr : N) :
  ve u = VPtr ty addr -> deep (wellFormed H) (ve u) ->
  unwrapRound H dep u addr = Break u' \/ unwrapRound H dep u addr = Continue u' ->
  deep (wellFormed H) (ve u').
Proof.
  intros Hve Hu Hr. unfold unwrapRound in Hr.
  destruct (N.eqb_spec addr 0) as [-> | Hnz];
    [by destruct Hr; simplify_eq |].
  destruct (seenAbove _ _ _); [by destruct Hr; simplify_eq |].
  assert (Hel : deep (wellFormed H) (Elem H addr)).
  { apply deep_here in Hu. rewrite Hve in Hu. simpl in Hu.
    destruct Hu as [? | [x Hx]]; [done |].
    unfold Elem. rewrite Hx. simpl. by eapply heap_ok. }
  destruct (Elem H addr) as [| | | | | | | | | | ity [e|] | | | | | | |];
    destruct Hr; simplify_eq; simpl; try done.
  apply deep_children in Hel. simpl in Hel. by apply Forall_inv in Hel.
Qed.

Lemma unwrap_wellFormed (fuel : nat) (dep : Z) (u u' : unwrapState) :
  deep (wellFormed H) (ve u) -> unwrap fuel H dep u = Some u' ->
  deep (wellFormed H) (ve u').
Proof.
  revert u. induction fuel as [|fuel IH]; intros u Hu Hrun; simpl in Hrun.
  - destruct (ve u) eqn:Hve; simplify_eq; by rewrite Hve.
  - destruct (ve u) eqn:Hve; try (simplify_eq; by rewrite Hve).
    rewrite <- Hve in Hu.
    destruct (unwrapRound H dep u p) as [u1|u1] eqn:Hr.
    + eapply IH; [| exact Hrun]. eapply unwrapRound_wellFormed; eauto.
    + simplify_eq. eapply unwrapRound_wellFormed; eauto.
Qed.

Lemma dumpPtr_safe (fuel : nat) (d : dumpState) (v : Value) msg sink :
  deep (wellFormed H) v -> dumpPtr rec fuel H d v <> Raised msg sink.
Proof.
  intros Hv. unfold dumpPtr.
  destruct (unwrap _ _ _ _) as [u|] eqn:Hu; [| done].
  apply unwrap_wellFormed in Hu; [| done].
  destruct (TypeString (ve u)) eqn:Ht.
  - destruct (nilFound u); [done |]. destruct (cycleFound u); [done |].
    intros Hrun. apply bind_Raised in Hrun as [Hrun | (d10 & _ & Hrun)];
      [by eapply rec_safe | done].
  - apply deep_here in Hu. by destruct (ve u).
Qed.

Lemma dumpBody_safe (fuel : nat) (d : dumpState) (a : bool) (v : Value)
  msg sink :
  deep (wellFormed H) v -> dumpBody h cs H rec fuel d a v <> Raised msg sink.
Proof.
  intros Hv. unfold dumpBody. destruct (bool_decide _);
    [by apply dumpPtr_safe |].
  intros Hrun. apply bind_Raised in Hrun as [Hrun | (d1 & _ & Hrun)].
  - eapply dumpType_safe; [| exact Hrun]. by apply deep_here.
  - apply bind_Raised in Hrun as [Hrun | ([d3 handled] & _ & Hrun)].
    + by eapply dumpMethods_safe.
    + destruct handled; [done |]. by eapply dumpKind_safe.
Qed.

End Safety.

(** On well-formed values the walker does not panic. *)
Lemma dump_safe (h : Host) (cs : ConfigState) (H : Heap) (fuel : nat) :
  hostOk h -> heapAll (wellFormed H) H -> Safe H (dump h cs H fuel).
Proof.
  intros Hok Hheap. induction fuel as [|fuel IH];
    intros d a v msg sink Hv; [done |].
  simpl. by apply dumpBody_safe.
Qed.

Lemma Fdump_safe (h : Host) (cs : ConfigState) (H : Heap) (fuel : nat)
  (a : list (option Value)) (sink : string) msg s :
  hostOk h -> heapAll (wellFormed H) H -> argsOk H a ->
  Fdump h cs H fuel sink a <> Raised msg s.
Proof.
  intros Hok Hheap Ha. revert sink.
  induction Ha as [|[v|] a Hv Ha IH]; intros sink; simpl; [done | | apply IH].
  intros Hrun. apply bind_Raised in Hrun as [Hrun | (d & _ & Hrun)].
  - by eapply dump_safe.
  - by eapply IH.
Qed.


Lemma plainHost_ok : hostOk plainHost.
Proof. intros es. reflexivity. Qed.

Lemma panicHost_ok : hostOk panicHost.
Proof. intros es. reflexivity. Qed.

Lemma heapAll_empty (P : Value -> Prop) : heapAll P ∅.
Proof. intros a v Hl. by rewrite lookup_empty in Hl. Qed.

Lemma deep_leaf (P : Value -> Prop) (v : Value) :
  children v = [] -> P v -> deep P v.
Proof. intros Hc Hp. constructor; [done |]. rewrite Hc. constructor. Qed.


(** ** The order of map keys (C2, C6) *)

Section MapOrder.

Variable h : Host.
Variable cs : ConfigState.
Variable H : Heap.
Hypothesis quiet : noMethods h cs.

(** A string key of a map, dumped at the start of a line. *)
Lemma dump_string_key (fuel : nat) (d : dumpState) (ca : bool) (s : string) :
  noFlags d ->
  dump h cs H (S fuel) d ca (VString "string" s)
  = Ok (set_w d (w d +:+ Repeat (Indent cs) (Z.to_nat (depth d))
                 +:+ "(" +:+ "string" +:+ ")" +:+ " " +:+ Quote h s)).
Proof.
  intros [Ht Hp]. cbn [dump]. rewrite dumpBody_quiet by done.
  unfold dumpType, pad. rewrite Ht, Hp. simpl.
  f_equal. apply dumpState_eq; simpl; try done.
  unfold Write, openParenBytes, closeParenBytes, spaceBytes.
  by rewrite !app_assoc_s.
Qed.

(** An [int] value of a map, dumped after its key on the same line. *)
Lemma dump_int_value (fuel : nat) (d : dumpState) (ca : bool) (n : Z) :
  noFlags d ->
  dump h cs H (S fuel) (set_ignoreNextPad d true) ca (VInt WNative "int" n)
  = Ok (set_w d (w d +:+ "(" +:+ "int" +:+ ")" +:+ " " +:+ FormatInt n)).
Proof.
  intros [Ht Hp]. cbn [dump]. rewrite dumpBody_quiet by done.
  unfold dumpType, pad. simpl. rewrite Ht. simpl.
  f_equal. apply dumpState_eq; simpl; try done.
  unfold printInt, Write, openParenBytes, closeParenBytes, spaceBytes.
  by rewrite !app_assoc_s.
Qed.

Lemma dumpEntries_stringInt (fuel : nat) (kvs : list (string * Z))
  (d : dumpState) :
  noFlags d ->
  dumpEntries (dump h cs H (S fuel)) d (stringIntEntries kvs)
  = Ok (set_w d (w d +:+ entriesText h cs (depth d) kvs)).
Proof.
  revert d. induction kvs as [|[k n] rest IH]; intros d Hd.
  - simpl. f_equal. apply dumpState_eq; simpl; try done.
    by rewrite app_empty_r.
  - unfold stringIntEntries. rewrite fmap_cons. cbn [dumpEntries unpackValue].
    rewrite dump_string_key by done. cbn [mbind Outcome_bind].
    pose (d2 := dWrite (set_w d (w d +:+ Repeat (Indent cs) (Z.to_nat (depth d))
                  +:+ "(" +:+ "string" +:+ ")" +:+ " " +:+ Quote h k))
                  colonSpaceBytes).
    assert (Hd2 : noFlags d2) by (destruct Hd; by split).
    change (set_ignoreNextPad (dWrite _ colonSpaceBytes) true)
      with (set_ignoreNextPad d2 true).
    rewrite dump_int_value by done. cbn [mbind Outcome_bind].
    fold (stringIntEntries rest).
    rewrite IH
      by (destruct (stringIntEntries rest); destruct Hd; by split).
    f_equal. apply dumpState_eq; try (by destruct rest).
    destruct rest as [|kv rest'].
    + simpl. unfold entryText, Write, colonSpaceBytes, newlineBytes. simpl.
      by rewrite !app_empty_r, !app_assoc_s.
    + cbn [entriesText]. simpl.
      unfold entryText, Write, colonSpaceBytes, commaNewlineBytes. simpl.
      by rewrite !app_assoc_s.
Qed.

End MapOrder.

(** C2, as stated, fails: [dump] iterates over the keys in the order in
    which [MapKeys] returns them and [sortValues] is never called.  In a run
    in which the host enumerates the key b before the key a, the entry for b
    is written before the entry for a. *)
Lemma keys_a_b_rendered_b_first :
  MapKeys revHost abEntries = stringIntEntries [("b", 2); ("a", 1)] /\
  MapKeys revHost abEntries ≡ₚ abEntries /\
  Fdump revHost defaultConfig ∅ 2 "" [Some mapAB] = Ok mapAB_b_first /\
  Fdump plainHost defaultConfig ∅ 2 "" [Some mapAB] = Ok mapAB_a_first.
Proof.
  split_and!; try (vm_compute; reflexivity).
  apply Permutation_swap.
Qed.

(** C2, as amended.  For a map the walker collects the keys with [MapKeys]
    and renders the entries in exactly the order in which the host
    enumerated them, without ordering them: the loop over the entries runs
    over the list [MapKeys] returned, and for a [map[string]int] whose keys
    come in the order [kvs'], the text between the braces is that of the
    entries of [kvs'] in that order.  The comparator of the stable
    ordering itself, where it is applied, puts the string key a before the
    string key b. *)
Theorem map_entries_rendered_in_MapKeys_order
  (h : Host) (cs : ConfigState) (H : Heap) (fuel : nat) (d : dumpState)
  (ca : bool) (ty : string) (kvs kvs' : list (string * Z)) :
  noMethods h cs -> noFlags d ->
  MaxDepth cs = 0 \/ depth d + 1 <= MaxDepth cs ->
  MapKeys h (stringIntEntries kvs) = stringIntEntries kvs' ->
  (forall rec ty0 es0,
     dumpKind h cs rec d ca (VMap ty0 es0)
     = dumpCompound cs d (fun d' => dumpEntries rec d' (MapKeys h es0))) /\
  dumpKind h cs (dump h cs H (S fuel)) d ca (VMap ty (stringIntEntries kvs))
  = Ok (set_w d (w d +:+ "{" +:+ newline
                 +:+ entriesText h cs (depth d + 1) kvs'
                 +:+ Repeat (Indent cs) (Z.to_nat (depth d)) +:+ "}")) /\
  Less (VString "string" "a") (VString "string" "b") = Some true /\
  Less (VString "string" "b") (VString "string" "a") = Some false.
Proof.
  intros Hq [Ht Hp] Hdepth Hkeys. split; [done |]. split; [| by split].
  cbn [dumpKind]. unfold dumpCompound.
  assert (Hdeep : tooDeep cs
            (set_depth (dWrite d openBraceNewlineBytes)
               (depth (dWrite d openBraceNewlineBytes) + 1)) = false).
  { apply not_true_is_false. rewrite tooDeep_spec. simpl. lia. }
  rewrite Hdeep, Hkeys.
  rewrite dumpEntries_stringInt by (done || by split).
  cbn [mbind Outcome_bind]. f_equal. unfold pad. simpl. rewrite Hp.
  apply dumpState_eq; simpl; try done; [| lia].
  unfold Write, openBraceNewlineBytes, closeBraceBytes.
  replace (depth d + 1 - 1) with (depth d) by lia.
  by rewrite !app_assoc_s.
Qed.

Lemma revHost_quiet : noMethods revHost defaultConfig.
Proof. right. reflexivity. Qed.

Lemma map_entries_rendered_in_MapKeys_order_witness :
  dumpKind revHost defaultConfig (dump revHost defaultConfig ∅ 1)
    (newDumpState "") false mapAB
  = Ok (set_w (newDumpState "")
          ("" +:+ "{" +:+ newline
           +:+ entriesText revHost defaultConfig (0 + 1) [("b", 2); ("a", 1)]
           +:+ Repeat " " (Z.to_nat 0) +:+ "}")).
Proof.
  apply (map_entries_rendered_in_MapKeys_order revHost defaultConfig ∅ 0
           (newDumpState "") false "map[string]int"
           [("a", 1); ("b", 2)] [("b", 2); ("a", 1)]).
  - exact revHost_quiet.
  - split; reflexivity.
  - left. reflexivity.
  - reflexivity.
Defined.



Lemma sameRun_twiceRev : sameRun defaultConfig plainHost twiceRevHost.
Proof.
  split_and!; try done.
  - intros es. simpl. by rewrite rev_involutive.
  - by right.
Qed.


(** * Further properties of the walker *)

(** ** Depth and identity map across a call *)

(** X1.  A call of [dump] that returns leaves the depth as it found it and
    leaves every entry of the identity map recorded above that depth as it
    was: such an entry is neither removed nor changed, and none is added. *)
Theorem dump_keeps_depth_and_shallower_entries
  (h : Host) (cs : ConfigState) (H : Heap) (fuel : nat) (d d' : dumpState)
  (a : bool) (v : Value) :
  dump h cs H fuel d a v = Ok d' ->
  depth d' = depth d /\
  (forall addr pd,
     pd < depth d ->
     (pointers d' !! addr = Some pd <-> pointers d !! addr = Some pd)).
Proof.
  intros Hrun. apply dump_frame in Hrun as [Hd Hp]. split; [done |].
  intros addr pd Hlt.
  assert (Hiff : prune (depth d) (pointers d') !! addr = Some pd <->
                 prune (depth d) (pointers d) !! addr = Some pd)
    by (by rewrite Hp).
  rewrite !prune_lookup in Hiff. tauto.
Qed.

Lemma dump_keeps_depth_and_shallower_entries_witness :
  depth afterFirst = depth beforeFirst /\
  (forall addr pd,
     pd < depth beforeFirst ->
     (pointers afterFirst !! addr = Some pd <->
      pointers beforeFirst !! addr = Some pd)).
Proof.
  apply (dump_keeps_depth_and_shallower_entries plainHost defaultConfig
           int8Heap 2 beforeFirst afterFirst true int8Ptr).
  vm_compute. reflexivity.
Defined.

(** ** The two render flags *)

Lemma unwrapRound_flags (H : Heap) (dep : Z) (u u' : unwrapState) (addr : N) :
  unwrapRound H dep u addr = Continue u' ->
  nilFound u' = nilFound u /\ cycleFound u' = cycleFound u.
Proof.
  unfold unwrapRound. intros Hr.
  destruct (N.eqb addr 0); [done |].
  destruct (seenAbove _ _ _); [done |].
  destruct (Elem H addr) as [| | | | | | | | | | ? [e|] | | | | | | |];
    by simplify_eq.
Qed.

Lemma unwrapRound_break (H : Heap) (dep : Z) (u u' : unwrapState) (addr : N) :
  unwrapRound H dep u addr = Break u' ->
  nilFound u' = true \/ cycleFound u' = true.
Proof.
  unfold unwrapRound. intros Hr.
  destruct (N.eqb addr 0); [simplify_eq; by left |].
  destruct (seenAbove _ _ _); [simplify_eq; by right |].
  destruct (Elem H addr) as [| | | | | | | | | | ? [e|] | | | | | | |];
    simplify_eq; by left.
Qed.

(** A chain that ends without the nil flag and without the cycle flag ends
    on a value that is not a pointer. *)
Lemma unwrap_ends_off_pointer (fuel : nat) (H : Heap) (dep : Z)
  (u u' : unwrapState) :
  unwrap fuel H dep u = Some u' ->
  nilFound u' = false -> cycleFound u' = false ->
  Kind (ve u') <> reflect.Ptr.
Proof.
  revert u. induction fuel as [|fuel IH]; intros u Hrun Hn Hc; simpl in Hrun.
  - destruct (ve u) eqn:Hve; simplify_eq; rewrite Hve; simpl;
      by repeat case_match.
  - destruct (ve u) eqn:Hve;
      try (simplify_eq; rewrite Hve; simpl; by repeat case_match).
    destruct (unwrapRound H dep u p) as [u1|u1] eqn:Hr.
    + by eapply IH.
    + simplify_eq. apply unwrapRound_break in Hr as [? | ?]; congruence.
Qed.

Section Flags.

Variable h : Host.
Variable cs : ConfigState.
Variable H : Heap.
Variable rec : dumpState -> bool -> Value -> Outcome dumpState.
Hypothesis rec_consumes : Consumes rec.

Lemma noFlags_fit (d : dumpState) (v : Value) : noFlags d -> flagsFit d v.
Proof. intros [Ht _] Hset. congruence. Qed.

Lemma padded_fit (d : dumpState) (v : Value) :
  noFlags d -> flagsFit (set_ignoreNextPad d true) v.
Proof. intros [Ht _] Hset. simpl in Hset. congruence. Qed.

Lemma noFlags_pad (d : dumpState) :
  ignoreNextType d = false -> noFlags (pad cs d).
Proof. intros Ht. unfold pad. by destruct (ignoreNextPad d) eqn:Hp. Qed.

Lemma dumpElems_noFlags (es : list Value) (d d' : dumpState) (a : bool) :
  noFlags d -> dumpElems rec d a es = Ok d' -> noFlags d'.
Proof.
  revert d. induction es as [|e rest IH]; intros d Hd Hrun; simpl in Hrun.
  - by simplify_eq.
  - destruct (unpackValue a e) as [a' x]. inv_bind Hrun.
    apply rec_consumes in Hrun0; [| by apply noFlags_fit].
    eapply IH; [| exact Hrun]. destruct Hrun0. by destruct rest.
Qed.

Lemma dumpEntries_noFlags (es : list (Value * Value)) (d d' : dumpState) :
  noFlags d -> dumpEntries rec d es = Ok d' -> noFlags d'.
Proof.
  revert d. induction es as [|[key val] rest IH]; intros d Hd Hrun;
    simpl in Hrun.
  - by simplify_eq.
  - destruct (unpackValue false key) as [ak k].
    destruct (unpackValue false val) as [ax x].
    inv_bind Hrun. inv_bind Hrun.
    apply rec_consumes in Hrun0; [| by apply noFlags_fit].
    apply rec_consumes in Hrun1;
      [| apply padded_fit; destruct Hrun0; by split].
    eapply IH; [| exact Hrun]. destruct Hrun1. by destruct rest.
Qed.

Lemma dumpFields_noFlags (fs : list (string * Value)) (d d' : dumpState)
  (a : bool) :
  noFlags d -> dumpFields cs rec d a fs = Ok d' -> noFlags d'.
Proof.
  revert d. induction fs as [|[name f] rest IH]; intros d Hd Hrun;
    simpl in Hrun.
  - by simplify_eq.
  - destruct (unpackValue a f) as [a' x]. inv_bind Hrun.
    apply rec_consumes in Hrun0.
    + eapply IH; [| exact Hrun]. destruct Hrun0. by destruct rest.
    + apply padded_fit. destruct Hd as [Ht Hp].
      destruct (noFlags_pad d Ht). by split.
Qed.

Lemma dumpCompound_noFlags (d d' : dumpState)
  (body : dumpState -> Outcome dumpState) :
  noFlags d ->
  (forall d2 d3, noFlags d2 -> body d2 = Ok d3 -> noFlags d3) ->
  dumpCompound cs d body = Ok d' -> noFlags d'.
Proof.
  intros [Ht Hp] Hbody Hrun. unfold dumpCompound in Hrun. inv_bind Hrun.
  simplify_eq.
  assert (Hin : noFlags d0).
  { destruct (tooDeep cs _).
    - simplify_eq. unfold pad. simpl. rewrite Hp. by split.
    - eapply Hbody; [| exact Hrun0]. by split. }
  destruct Hin as [Ht0 Hp0]. unfold pad. simpl. rewrite Hp0. by split.
Qed.

Lemma dumpKind_noFlags (d d' : dumpState) (a : bool) (v : Value) :
  noFlags d -> dumpKind h cs rec d a v = Ok d' -> noFlags d'.
Proof.
  intros Hd. destruct v; simpl; intros Hrun;
    try (eapply dumpCompound_noFlags; [exact Hd | | exact Hrun];
         intros d2 d3 Hd2 Hb; simpl in Hb;
         by eauto using dumpElems_noFlags, dumpEntries_noFlags,
              dumpFields_noFlags).
  all: repeat case_match; simplify_eq; destruct Hd; by split.
Qed.

Lemma dumpPtr_noFlags (fuel : nat) (d d' : dumpState) (v : Value) :
  noFlags d -> dumpPtr rec fuel H d v = Ok d' -> noFlags d'.
Proof.
  intros [Ht Hp]. unfold dumpPtr. intros Hrun.
  destruct (unwrap _ _ _ _) as [u|] eqn:Hu; [| done].
  destruct (TypeString (ve u)); [| done].
  destruct (nilFound u) eqn:Hn; [simplify_eq; by split |].
  destruct (cycleFound u) eqn:Hc; [simplify_eq; by split |].
  inv_bind Hrun. simplify_eq.
  apply rec_consumes in Hrun0; [destruct Hrun0; by split |].
  intros _. split; [done |]. by eapply unwrap_ends_off_pointer.
Qed.

Lemma dumpBody_noFlags (fuel : nat) (d d' : dumpState) (a : bool) (v : Value) :
  flagsFit d v -> dumpBody h cs H rec fuel d a v = Ok d' -> noFlags d'.
Proof.
  intros Hfit. unfold dumpBody. intros Hrun.
  destruct (bool_decide (Kind v = reflect.Ptr)) eqn:Hk.
  - apply bool_decide_eq_true in Hk.
    eapply dumpPtr_noFlags; [| exact Hrun]. apply noFlags_pad.
    destruct (ignoreNextType d) eqn:Ht; [| done].
    by destruct (Hfit Ht).
  - inv_bind Hrun. inv_bind Hrun. destruct d1 as [d3 handled].
    assert (Hd0 : noFlags (set_ignoreNextType d0 false)).
    { unfold dumpType in Hrun0. destruct (ignoreNextType d) eqn:Ht; simpl in Hrun0.
      - simplify_eq. destruct (Hfit Ht). by split.
      - destruct (TypeString v); simplify_eq.
        destruct (noFlags_pad d Ht). by split. }
    assert (Hd3 : noFlags d3).
    { unfold dumpMethods in Hrun1.
      destruct (negb (DisableMethods cs)); [| by simplify_eq].
      destruct (_ && _); [| by simplify_eq].
      inv_bind Hrun1. destruct d1 as [sink hd]. simplify_eq.
      destruct Hd0. by split. }
    destruct handled; [by simplify_eq |].
    by eapply dumpKind_noFlags.
Qed.

End Flags.

Lemma dump_consumes (h : Host) (cs : ConfigState) (H : Heap) (fuel : nat) :
  Consumes (dump h cs H fuel).
Proof.
  induction fuel as [|fuel IH]; intros d a v d' Hfit Hrun; [done |].
  simpl in Hrun. by eapply dumpBody_noFlags in Hrun.
Qed.

(** X2.  The render flags are transient.  Whenever [dump] is called with
    [ignoreNextType] clear (as at every call but the one [dumpPtr] makes for
    the value at the end of a chain), or with [ignoreNextType] set but
    [ignoreNextPad] clear on a value that is not a pointer (as at that
    call), neither flag is pending when it returns: a pending "suppress
    indentation" or "suppress type label" never leaks to the next value. *)
Theorem dump_returns_with_no_flag_pending
  (h : Host) (cs : ConfigState) (H : Heap) (fuel : nat) (d d' : dumpState)
  (a : bool) (v : Value) :
  (ignoreNextType d = true ->
   ignoreNextPad d = false /\ Kind v <> reflect.Ptr) ->
  dump h cs H fuel d a v = Ok d' ->
  ignoreNextType d' = false /\ ignoreNextPad d' = false.
Proof. intros Hfit Hrun. by eapply dump_consumes. Qed.

Lemma dump_returns_with_no_flag_pending_witness :
  ignoreNextPad secondField = true /\
  dump plainHost defaultConfig int8Heap 2 secondField true int8Ptr
  = Ok {| w := " b: (*int8)(0x10)(<already shown>)"; depth := 1;
          pointers := {[ 16%N := 0 ]};
          ignoreNextType := false; ignoreNextPad := false |} /\
  ignoreNextType
    {| w := " b: (*int8)(0x10)(<already shown>)"; depth := 1;
       pointers := {[ 16%N := 0 ]};
       ignoreNextType := false; ignoreNextPad := false |} = false /\
  ignoreNextPad
    {| w := " b: (*int8)(0x10)(<already shown>)"; depth := 1;
       pointers := {[ 16%N := 0 ]};
       ignoreNextType := false; ignoreNextPad := false |} = false.
Proof.
  assert (Hrun : dump plainHost defaultConfig int8Heap 2 secondField true
                   int8Ptr
                 = Ok {| w := " b: (*int8)(0x10)(<already shown>)"; depth := 1;
                         pointers := {[ 16%N := 0 ]};
                         ignoreNextType := false; ignoreNextPad := false |})
    by (vm_compute; reflexivity).
  split; [reflexivity |]. split; [exact Hrun |].
  apply (dump_returns_with_no_flag_pending plainHost defaultConfig int8Heap 2
           secondField _ true int8Ptr); [discriminate | exact Hrun].
Defined.

(** ** The walker only appends, whatever the sink holds *)

Lemma Write_prefix (p s b : string) : Write (p +:+ s) b = p +:+ Write s b.
Proof. unfold Write. apply app_assoc_s. Qed.

Lemma printHexPtr_prefix (p s : string) (a : N) :
  printHexPtr (p +:+ s) a = p +:+ printHexPtr s a.
Proof.
  unfold printHexPtr. destruct (N.eqb _ 0); apply Write_prefix.
Qed.

Lemma writeChain_prefix (p s : string) (i : nat) (chain : list N) :
  writeChain (p +:+ s) i chain = p +:+ writeChain s i chain.
Proof.
  revert s i. induction chain as [|a rest IH]; intros s i; simpl; [done |].
  destruct (decide (0 < i)%nat).
  - by rewrite Write_prefix, printHexPtr_prefix, IH.
  - by rewrite printHexPtr_prefix, IH.
Qed.

Lemma printComplex_prefix (h : Host) (p s : string) (re im prec : Z) :
  printComplex h (p +:+ s) re im prec = p +:+ printComplex h s re im prec.
Proof.
  unfold printComplex. destruct (float_ge_zero im); by rewrite !Write_prefix.
Qed.

Lemma handleMethods_prefix (h : Host) (cs : ConfigState) (p s : string)
  (ca : bool) (v : Value) :
  handleMethods h cs (p +:+ s) ca v
  = prefixedOutcome (fun r => (p +:+ r.1, r.2)) p (handleMethods h cs s ca v).
Proof.
  unfold handleMethods, methodCase.
  destruct (ifaceOf h (viaPointer cs ca) v) as [[[t|msg]|[t|msg]]|];
    destruct (ContinueOnMethod cs); simpl; by rewrite ?Write_prefix.
Qed.

Lemma prefixed_dWrite (p : string) (d : dumpState) (b : string) :
  dWrite (prefixed p d) b = prefixed p (dWrite d b).
Proof.
  apply dumpState_eq; try reflexivity. simpl. apply Write_prefix.
Qed.

Lemma prefixed_pad (cs : ConfigState) (p : string) (d : dumpState) :
  pad cs (prefixed p d) = prefixed p (pad cs d).
Proof.
  unfold pad. simpl. destruct (ignoreNextPad d); [reflexivity |].
  apply prefixed_dWrite.
Qed.

Section Prefix.

Variable h : Host.
Variable cs : ConfigState.
Variable H : Heap.
Variable rec : dumpState -> bool -> Value -> Outcome dumpState.
Hypothesis rec_blind : SinkBlind rec.

Lemma dumpElems_prefix (es : list Value) (p : string) (d : dumpState)
  (a : bool) :
  dumpElems rec (prefixed p d) a es
  = prefixedOutcome (prefixed p) p (dumpElems rec d a es).
Proof.
  revert d. induction es as [|e rest IH]; intros d; simpl; [done |].
  destruct (unpackValue a e) as [a' x]. rewrite rec_blind.
  destruct (rec d a' x) as [d1| |]; simpl; [| done | done].
  destruct rest; rewrite prefixed_dWrite; apply IH.
Qed.

Lemma dumpEntries_prefix (es : list (Value * Value)) (p : string)
  (d : dumpState) :
  dumpEntries rec (prefixed p d) es
  = prefixedOutcome (prefixed p) p (dumpEntries rec d es).
Proof.
  revert d. induction es as [|[key val] rest IH]; intros d; simpl; [done |].
  destruct (unpackValue false key) as [ak k].
  destruct (unpackValue false val) as [ax x]. rewrite rec_blind.
  destruct (rec d ak k) as [d1| |]; simpl; [| done | done].
  rewrite prefixed_dWrite.
  change (set_ignoreNextPad (prefixed p (dWrite d1 colonSpaceBytes)) true)
    with (prefixed p (set_ignoreNextPad (dWrite d1 colonSpaceBytes) true)).
  rewrite rec_blind.
  destruct (rec _ ax x) as [d4| |]; simpl; [| done | done].
  destruct rest; rewrite prefixed_dWrite; apply IH.
Qed.

Lemma dumpFields_prefix (fs : list (string * Value)) (p : string)
  (d : dumpState) (a : bool) :
  dumpFields cs rec (prefixed p d) a fs
  = prefixedOutcome (prefixed p) p (dumpFields cs rec d a fs).
Proof.
  revert d. induction fs as [|[name f] rest IH]; intros d; simpl; [done |].
  destruct (unpackValue a f) as [a' x].
  rewrite prefixed_pad, !prefixed_dWrite.
  change (set_ignoreNextPad (prefixed p ?x) true)
    with (prefixed p (set_ignoreNextPad x true)).
  rewrite rec_blind.
  destruct (rec _ a' x) as [d5| |]; simpl; [| done | done].
  destruct rest; rewrite prefixed_dWrite; apply IH.
Qed.

Lemma dumpCompound_prefix (p : string) (d : dumpState)
  (body : dumpState -> Outcome dumpState) :
  (forall d2, body (prefixed p d2) = prefixedOutcome (prefixed p) p (body d2)) ->
  dumpCompound cs (prefixed p d) body
  = prefixedOutcome (prefixed p) p (dumpCompound cs d body).
Proof.
  intros Hbody. unfold dumpCompound. rewrite prefixed_dWrite.
  change (set_depth (prefixed p ?x) ?n) with (prefixed p (set_depth x n)).
  change (depth (prefixed p ?x)) with (depth x).
  change (tooDeep cs (prefixed p ?x)) with (tooDeep cs x).
  destruct (tooDeep cs _).
  - simpl. rewrite prefixed_pad, prefixed_dWrite.
    change (set_depth (prefixed p ?x) ?n) with (prefixed p (set_depth x n)).
    by rewrite prefixed_pad, prefixed_dWrite.
  - rewrite Hbody. destruct (body _) as [d3| |]; simpl; [| done | done].
    change (set_depth (prefixed p ?x) ?n) with (prefixed p (set_depth x n)).
    by rewrite prefixed_pad, prefixed_dWrite.
Qed.

Lemma dumpType_prefix (p : string) (d : dumpState) (v : Value) :
  dumpType cs (prefixed p d) v
  = prefixedOutcome (prefixed p) p (dumpType cs d v).
Proof.
  unfold dumpType.
  change (ignoreNextType (prefixed p d)) with (ignoreNextType d).
  destruct (negb (ignoreNextType d)); [| done].
  rewrite prefixed_pad, prefixed_dWrite.
  destruct (TypeString v); [| reflexivity].
  by rewrite !prefixed_dWrite.
Qed.

Lemma dumpMethods_prefix (p : string) (d : dumpState) (a : bool) (v : Value) :
  dumpMethods h cs (prefixed p d) a v
  = prefixedOutcome (fun r => (prefixed p r.1, r.2)) p
      (dumpMethods h cs d a v).
Proof.
  unfold dumpMethods. destruct (negb (DisableMethods cs)); [| done].
  destruct (_ && _); [| done].
  simpl. rewrite handleMethods_prefix.
  by destruct (handleMethods h cs (w d) a v) as [[sink handled]| |].
Qed.

Lemma dumpKind_prefix (p : string) (d : dumpState) (a : bool) (v : Value) :
  dumpKind h cs rec (prefixed p d) a v
  = prefixedOutcome (prefixed p) p (dumpKind h cs rec d a v).
Proof.
  destruct v; cbn [dumpKind];
    try (apply dumpCompound_prefix; intros d2;
         by eauto using dumpElems_prefix, dumpEntries_prefix,
              dumpFields_prefix);
    repeat case_match; cbn [prefixedOutcome]; try rewrite prefixed_dWrite;
    try reflexivity;
    f_equal; apply dumpState_eq; try reflexivity;
    cbn [w set_w prefixed];
    unfold printBool, printInt, printUint, printFloat;
    repeat case_match;
    rewrite ?printHexPtr_prefix, ?printComplex_prefix, ?Write_prefix;
    reflexivity.
Qed.

Lemma dumpPtr_prefix (fuel : nat) (p : string) (d : dumpState) (v : Value) :
  dumpPtr rec fuel H (prefixed p d) v
  = prefixedOutcome (prefixed p) p (dumpPtr rec fuel H d v).
Proof.
  unfold dumpPtr.
  change (unwrapStart (prefixed p d) v) with (unwrapStart d v).
  change (depth (prefixed p d)) with (depth d).
  destruct (unwrap _ _ _ _) as [u|]; [| done].
  change (set_pointers (prefixed p d) ?m) with (prefixed p (set_pointers d m)).
  rewrite !prefixed_dWrite.
  destruct (TypeString (ve u)); [| reflexivity].
  rewrite !prefixed_dWrite.
  set (d6 := dWrite (dWrite (dWrite _ _) closeParenBytes) openParenBytes).
  assert (Hchain :
    set_w (prefixed p d6) (writeChain (w (prefixed p d6)) 0 (pointerChain u))
    = prefixed p (set_w d6 (writeChain (w d6) 0 (pointerChain u)))).
  { apply dumpState_eq; try reflexivity. simpl. apply writeChain_prefix. }
  rewrite Hchain, !prefixed_dWrite.
  destruct (nilFound u); [reflexivity |].
  destruct (cycleFound u); [reflexivity |].
  change (set_ignoreNextType (prefixed p ?x) true)
    with (prefixed p (set_ignoreNextType x true)).
  rewrite rec_blind.
  destruct (rec _ _ _) as [d10| |]; simpl; [| done | done].
  by rewrite ?prefixed_dWrite.
Qed.

Lemma dumpBody_prefix (fuel : nat) (p : string) (d : dumpState) (a : bool)
  (v : Value) :
  dumpBody h cs H rec fuel (prefixed p d) a v
  = prefixedOutcome (prefixed p) p (dumpBody h cs H rec fuel d a v).
Proof.
  unfold dumpBody. destruct (bool_decide _).
  - rewrite prefixed_pad. apply dumpPtr_prefix.
  - rewrite dumpType_prefix.
    destruct (dumpType cs d v) as [d1| |]; simpl; [| done | done].
    change (set_ignoreNextType (prefixed p d1) false)
      with (prefixed p (set_ignoreNextType d1 false)).
    rewrite dumpMethods_prefix.
    destruct (dumpMethods h cs _ a v) as [[d3 handled]| |]; simpl;
      [| done | done].
    destruct handled; [done | apply dumpKind_prefix].
Qed.

End Prefix.

Lemma dump_sinkBlind (h : Host) (cs : ConfigState) (H : Heap) (fuel : nat) :
  SinkBlind (dump h cs H fuel).
Proof.
  induction fuel as [|fuel IH]; intros p d a v; [done |].
  simpl. by apply dumpBody_prefix.
Qed.

Lemma Fdump_prefix (h : Host) (cs : ConfigState) (H : Heap) (fuel : nat)
  (a : list (option Value)) (p sink : string) :
  Fdump h cs H fuel (p +:+ sink) a
  = prefixedOutcome (fun s => p +:+ s) p (Fdump h cs H fuel sink a).
Proof.
  revert sink. induction a as [|[v|] a IH]; intros sink; simpl; [done | |].
  - change (newDumpState (p +:+ sink)) with (prefixed p (newDumpState sink)).
    rewrite dump_sinkBlind.
    destruct (dump h cs H fuel (newDumpState sink) false v) as [d| |]; simpl;
      [| done | done].
    rewrite Write_prefix. apply IH.
  - rewrite !Write_prefix. apply IH.
Qed.

(** X3.  The bytes a walk writes do not depend on the bytes already in the
    sink, and nothing already written is touched: running [dump] or [Fdump]
    on a sink that holds [p] before what it held gives the same outcome
    with [p] before the result (the state returned, or the sink at a panic),
    and runs out of fuel in the same cases.  In particular the text of
    [Fdump] on any sink is that sink followed by its text on the empty
    sink. *)
Theorem walk_appends_the_same_bytes_to_any_sink
  (h : Host) (cs : ConfigState) (H : Heap) (fuel : nat) (p : string)
  (d : dumpState) (ca : bool) (v : Value) (a : list (option Value)) :
  dump h cs H fuel (prefixed p d) ca v
  = prefixedOutcome (prefixed p) p (dump h cs H fuel d ca v) /\
  Fdump h cs H fuel p a
  = prefixedOutcome (fun s => p +:+ s) p (Fdump h cs H fuel "" a).
Proof.
  split; [apply dump_sinkBlind |].
  rewrite <- (app_empty_r p) at 1. apply Fdump_prefix.
Qed.

(** ** One call for several arguments *)

(** X4.  The arguments of [Fdump] are rendered independently of each other:
    every argument starts from a fresh state, so what one call writes for
    the arguments [a1] followed by [a2] is what a call for [a1] writes
    followed by what a call for [a2] writes, on any sink. *)
Theorem Fdump_of_arguments_is_concatenation
  (h : Host) (cs : ConfigState) (H : Heap) (fuel : nat)
  (a1 a2 : list (option Value)) (out1 out2 : string) :
  Fdump h cs H fuel "" a1 = Ok out1 ->
  Fdump h cs H fuel "" a2 = Ok out2 ->
  forall sink,
    Fdump h cs H fuel sink (a1 ++ a2) = Ok (sink +:+ out1 +:+ out2).
Proof.
  intros H1 H2 sink. rewrite Fdump_app.
  rewrite <- (app_empty_r sink) at 1.
  rewrite Fdump_prefix, H1. simpl.
  rewrite <- (app_empty_r (sink +:+ out1)).
  rewrite Fdump_prefix, H2. simpl. by rewrite app_assoc_s.
Qed.

Lemma Fdump_of_arguments_is_concatenation_witness :
  Fdump plainHost defaultConfig int8Heap 3 "" ([Some pair] ++ [None; Some int8Ptr])
  = Ok ("" +:+ ("(main.pair) {" +:+ newline
                +:+ " a: (*int8)(0x10)(5)," +:+ newline
                +:+ " b: (*int8)(0x10)(5)" +:+ newline
                +:+ "}" +:+ newline)
        +:+ ("(interface {})<nil>" +:+ newline
             +:+ "(*int8)(0x10)(5)" +:+ newline)).
Proof.
  apply (Fdump_of_arguments_is_concatenation plainHost defaultConfig int8Heap
           3 [Some pair] [None; Some int8Ptr]);
    vm_compute; reflexivity.
Defined.

(** ** Addresses in hexadecimal *)

Lemma hexDigit_value (i : N) :
  (i < 16)%N ->
  exists c, hexDigit i = String c EmptyString /\ hexDigitValue c = Some i.
Proof.
  intros Hi.
  assert (Hcases : In i [0; 1; 2; 3; 4; 5; 6; 7; 8; 9; 10; 11; 12; 13; 14; 15]%N).
  { simpl. lia. }
  simpl in Hcases.
  repeat (destruct Hcases as [<- | Hcases]; [eexists; split; reflexivity |]).
  done.
Qed.

Lemma hexLoop_app (rounds : nat) (num : N) (buf : string) :
  hexLoop rounds num buf = hexLoop rounds num "" +:+ buf.
Proof.
  revert num buf. induction rounds as [|r IH]; intros num buf; simpl.
  - by rewrite app_assoc_s.
  - destruct (N.leb 16 num); [| by rewrite app_assoc_s].
    rewrite IH, (IH _ (_ +:+ "")). by rewrite !app_assoc_s.
Qed.

Lemma hexValueFrom_app (acc : N) (s1 s2 : string) :
  hexValueFrom acc (s1 +:+ s2)
  = match hexValueFrom acc s1 with
    | Some a => hexValueFrom a s2
    | None => None
    end.
Proof.
  revert acc. induction s1 as [|c s1 IH]; intros acc; [done |].
  rewrite app_cons_s. simpl. destruct (hexDigitValue c); [apply IH | done].
Qed.

Lemma hexLoop_value (rounds : nat) (num : N) :
  (num < 16 ^ N.of_nat (S rounds))%N ->
  hexValue (hexLoop rounds num "") = Some num.
Proof.
  unfold hexValue.
  assert (Hone : forall n, (n < 16)%N ->
            hexValueFrom 0 (hexDigit n +:+ "") = Some n).
  { intros n Hn. destruct (hexDigit_value n Hn) as (c & -> & Hc).
    rewrite app_cons_s. simpl. rewrite Hc. done. }
  revert num. induction rounds as [|r IH]; intros num Hn.
  - simpl. apply Hone. exact Hn.
  - cbn [hexLoop]. destruct (N.leb_spec 16 num) as [Hge | Hlt];
      [| by apply Hone].
    rewrite hexLoop_app, hexValueFrom_app, IH.
    + assert (Hm : (num mod 16 < 16)%N) by (by apply N.mod_lt).
      destruct (hexDigit_value _ Hm) as (c & -> & Hc).
      simpl. rewrite Hc. f_equal.
      rewrite (N.div_mod num 16) at 3 by done. lia.
    + apply N.Div0.div_lt_upper_bound.
      rewrite <- N.pow_succ_r', <- Nat2N.inj_succ. done.
Qed.

Lemma app_inv_head_s (s a b : string) : s +:+ a = s +:+ b -> a = b.
Proof.
  induction s as [|c s IH]; [done |].
  rewrite !app_cons_s. intros [= Heq]. by apply IH.
Qed.

Lemma printHexPtr_nonzero (sink : string) (p : N) :
  (p mod 2 ^ 64)%N <> 0%N ->
  printHexPtr sink p = sink +:+ "0x" +:+ hexLoop 16 (p mod 2 ^ 64) "" /\
  hexValue (hexLoop 16 (p mod 2 ^ 64) "") = Some (p mod 2 ^ 64)%N.
Proof.
  intros Hp. split.
  - unfold printHexPtr. apply N.eqb_neq in Hp. rewrite Hp. done.
  - apply hexLoop_value.
    assert (p mod 2 ^ 64 < 2 ^ 64)%N by (by apply N.mod_lt).
    assert (2 ^ 64 < 16 ^ N.of_nat 17)%N by (by vm_compute).
    lia.
Qed.

(** X5.  [printHexPtr] writes the nil token for an address that is zero as
    a [uint64], and otherwise the prefix 0x and hexadecimal digits that
    denote exactly that address; so two addresses are written alike only
    if they are the same address. *)
Theorem printHexPtr_denotes_the_address (sink : string) (p q : N) :
  ((p mod 2 ^ 64)%N = 0%N -> printHexPtr sink p = sink +:+ "<nil>") /\
  ((p mod 2 ^ 64)%N <> 0%N ->
   exists digits,
     printHexPtr sink p = sink +:+ "0x" +:+ digits /\
     hexValue digits = Some (p mod 2 ^ 64)%N) /\
  (printHexPtr sink p = printHexPtr sink q ->
   (p mod 2 ^ 64)%N = (q mod 2 ^ 64)%N).
Proof.
  split_and!.
  - intros Hp. unfold printHexPtr. by rewrite Hp.
  - intros Hp. eexists. by apply printHexPtr_nonzero.
  - intros Heq.
    destruct (N.eq_dec (p mod 2 ^ 64) 0) as [Hp | Hp];
      destruct (N.eq_dec (q mod 2 ^ 64) 0) as [Hq | Hq].
    + congruence.
    + exfalso. revert Heq. unfold printHexPtr at 1. rewrite Hp. simpl.
      rewrite (proj1 (printHexPtr_nonzero sink q Hq)).
      unfold Write, nilAngleBytes. intros Heq.
      apply app_inv_head_s in Heq. discriminate.
    + exfalso. revert Heq. unfold printHexPtr at 2. rewrite Hq. simpl.
      rewrite (proj1 (printHexPtr_nonzero sink p Hp)).
      unfold Write, nilAngleBytes. intros Heq.
      apply app_inv_head_s in Heq. discriminate.
    + destruct (printHexPtr_nonzero sink p Hp) as [Hpp Hpv].
      destruct (printHexPtr_nonzero sink q Hq) as [Hqp Hqv].
      rewrite Hpp, Hqp in Heq.
      do 2 apply app_inv_head_s in Heq.
      rewrite Heq in Hpv. congruence.
Qed.

Lemma printHexPtr_denotes_the_address_witness :
  exists digits,
    printHexPtr "" 4096 = "" +:+ "0x" +:+ digits /\
    hexValue digits = Some (4096 mod 2 ^ 64)%N.
Proof.
  apply (printHexPtr_denotes_the_address "" 4096 4096). vm_compute. discriminate.
Defined.

(** ** The comparator of the stable ordering *)

Lemma Z_ltb_strict : strictOrder Z.ltb.
Proof.
  split_and!.
  - apply Z.ltb_irrefl.
  - intros x y Hxy. apply Z.ltb_lt in Hxy. apply Z.ltb_ge. lia.
  - intros x y z Hxy Hyz. apply Z.ltb_lt in Hxy, Hyz. apply Z.ltb_lt. lia.
Qed.

Lemma N_ltb_strict : strictOrder N.ltb.
Proof.
  split_and!.
  - apply N.ltb_irrefl.
  - intros x y Hxy. apply N.ltb_lt in Hxy. apply N.ltb_ge. lia.
  - intros x y z Hxy Hyz. apply N.ltb_lt in Hxy, Hyz. apply N.ltb_lt. lia.
Qed.

Lemma bool_lt_strict : strictOrder (fun a b : bool => negb a && b).
Proof. split_and!; by repeat intros []. Qed.

Lemma float_lt_strict : strictOrder float_lt.
Proof.
  unfold float_lt. split_and!.
  - intros x. rewrite Z.ltb_irrefl. by rewrite andb_false_r.
  - intros x y Hxy. apply andb_true_iff in Hxy as [_ Hxy].
    apply Z.ltb_lt in Hxy. apply andb_false_iff. right. apply Z.ltb_ge. lia.
  - intros x y z Hxy Hyz.
    apply andb_true_iff in Hxy as [Hx Hxy].
    apply andb_true_iff in Hx as [Hx _].
    apply andb_true_iff in Hyz as [Hz Hyz].
    apply andb_true_iff in Hz as [_ Hz].
    rewrite Hx, Hz. simpl.
    apply Z.ltb_lt in Hxy, Hyz. apply Z.ltb_lt. lia.
Qed.

Lemma string_compare_refl (s : string) : String.compare s s = Eq.
Proof.
  induction s as [|c s IH]; [done |].
  simpl. unfold Ascii.compare. by rewrite N.compare_refl.
Qed.

Lemma string_compare_trans (s1 s2 s3 : string) :
  String.compare s1 s2 = Lt -> String.compare s2 s3 = Lt ->
  String.compare s1 s3 = Lt.
Proof.
  revert s2 s3. induction s1 as [|c1 s1 IH]; intros [|c2 s2] [|c3 s3];
    simpl; try done.
  unfold Ascii.compare.
  destruct (N.compare_spec (Ascii.N_of_ascii c1) (Ascii.N_of_ascii c2))
    as [H12 | H12 | H12]; [| | done];
    destruct (N.compare_spec (Ascii.N_of_ascii c2) (Ascii.N_of_ascii c3))
      as [H23 | H23 | H23]; try done; intros Ha Hb.
  - rewrite H12, H23, N.compare_refl. by eapply IH.
  - rewrite H12. by apply N.compare_lt_iff in H23 as ->.
  - rewrite <- H23. by apply N.compare_lt_iff in H12 as ->.
  - assert (Hlt : (Ascii.N_of_ascii c1 < Ascii.N_of_ascii c3)%N) by lia.
    by apply N.compare_lt_iff in Hlt as ->.
Qed.

Lemma string_ltb_strict : strictOrder String.ltb.
Proof.
  unfold String.ltb. split_and!.
  - intros x. by rewrite string_compare_refl.
  - intros x y Hxy. rewrite String.compare_antisym.
    by destruct (String.compare x y).
  - intros x y z Hxy Hyz.
    destruct (String.compare x y) eqn:H1; try done.
    destruct (String.compare y z) eqn:H2; try done.
    by rewrite (string_compare_trans x y z).
Qed.

(** A strict order, behind [Some]. *)
Lemma strictOrder_Some {X : Type} (lt : X -> X -> bool) (x y z : X) :
  strictOrder lt ->
  (exists r, Some (lt x y) = Some r) /\
  Some (lt x x) = Some false /\
  (Some (lt x y) = Some true -> Some (lt y x) = Some false) /\
  (Some (lt x y) = Some true -> Some (lt y z) = Some true ->
   Some (lt x z) = Some true).
Proof.
  intros (Hirr & Hasym & Htrans). split_and!.
  - by eexists.
  - by rewrite Hirr.
  - intros [= Hxy]. by rewrite Hasym.
  - intros [= Hxy] [= Hyz]. by rewrite (Htrans x y z).
Qed.

(** X6.  On values of one kind, as the keys of a map with a key type of a
    native kind are, [Less] is defined (no accessor of [reflect] panics)
    and is a strict order: no value sorts before itself, no two values sort
    before each other, and sorting before carries over a middle value.
    That is what [sort.Sort] asks of a comparator. *)
Theorem Less_is_a_strict_order_within_a_kind (a b c : Value) :
  Kind a = Kind b -> Kind b = Kind c ->
  (exists r, Less a b = Some r) /\
  Less a a = Some false /\
  (Less a b = Some true -> Less b a = Some false) /\
  (Less a b = Some true -> Less b c = Some true -> Less a c = Some true).
Proof.
  intros Hab Hbc.
  destruct a, b; simpl in Hab; try (by repeat case_match);
    destruct c; simpl in Hbc; try (by repeat case_match);
    clear Hab Hbc; cbn [Less ValueString TypeString].
  all: first
    [ apply (strictOrder_Some _ _ _ _ bool_lt_strict)
    | apply (strictOrder_Some _ _ _ _ Z_ltb_strict)
    | apply (strictOrder_Some _ _ _ _ N_ltb_strict)
    | apply (strictOrder_Some _ _ _ _ float_lt_strict)
    | apply (strictOrder_Some _ _ _ _ string_ltb_strict) ].
Qed.

Lemma Less_is_a_strict_order_within_a_kind_witness :
  (exists r, Less (VInt W8 "int8" 1) (VInt W8 "int8" 2) = Some r) /\
  Less (VInt W8 "int8" 1) (VInt W8 "int8" 1) = Some false /\
  (Less (VInt W8 "int8" 1) (VInt W8 "int8" 2) = Some true ->
   Less (VInt W8 "int8" 2) (VInt W8 "int8" 1) = Some false) /\
  (Less (VInt W8 "int8" 1) (VInt W8 "int8" 2) = Some true ->
   Less (VInt W8 "int8" 2) (VInt W8 "int8" 3) = Some true ->
   Less (VInt W8 "int8" 1) (VInt W8 "int8" 3) = Some true).
Proof.
  apply (Less_is_a_strict_order_within_a_kind (VInt W8 "int8" 1)
           (VInt W8 "int8" 2) (VInt W8 "int8" 3)); reflexivity.
Defined.

(** X7.  [Less] tells two values apart by what they hold only for the
    boolean, integer, floating point and string kinds.  Two values of any
    other kind (structs, arrays, pointers, interfaces, channels, complex
    numbers) that have the same type are compared by [v.String()], which
    for those kinds is a text made of the type alone: neither sorts before
    the other, whatever they hold. *)
Theorem Less_does_not_order_values_of_other_kinds (a b : Value) :
  comparedByValue a = false -> Kind a = Kind b ->
  TypeString a = TypeString b ->
  Less a b = Some false /\ Less b a = Some false.
Proof.
  intros Hn Hk Ht.
  assert (Hs : ValueString a = ValueString b).
  { destruct a, b; simpl in Hn, Hk, Ht; try done; try (by repeat case_match);
      by simplify_eq. }
  destruct string_ltb_strict as (Hirr & _ & _).
  destruct a, b; simpl in Hn, Hk; try done; try (by repeat case_match);
    cbn [Less]; rewrite Hs, Hirr; done.
Qed.

Lemma Less_does_not_order_values_of_other_kinds_witness :
  Less (pointKey 1 2) (pointKey 3 4) = Some false /\
  Less (pointKey 3 4) (pointKey 1 2) = Some false.
Proof.
  apply (Less_does_not_order_values_of_other_kinds (pointKey 1 2)
           (pointKey 3 4)); reflexivity.
Defined.

(** ** More fuel does not change a result *)

Lemma bind_not_OutOfFuel {A B} (m : Outcome A) (k : A -> Outcome B) :
  mbind k m <> OutOfFuel ->
  m <> OutOfFuel /\ forall a, m = Ok a -> k a <> OutOfFuel.
Proof. destruct m; simpl; intros Hn; split; try done; by intros ? [= <-]. Qed.

Lemma unwrap_more_fuel (f1 f2 : nat) (H : Heap) (dep : Z) (u u' : unwrapState) :
  unwrap f1 H dep u = Some u' -> (f1 <= f2)%nat ->
  unwrap f2 H dep u = Some u'.
Proof.
  revert f2 u. induction f1 as [|f1 IH]; intros f2 u Hrun Hle; simpl in Hrun.
  - destruct (ve u) eqn:Hve; try done; destruct f2; simpl; by rewrite Hve.
  - destruct f2 as [|f2]; [lia |]. simpl. destruct (ve u); try done.
    destruct (unwrapRound H dep u p); [| done]. apply IH; [done | lia].
Qed.

Section MoreFuel.

Variable h : Host.
Variable cs : ConfigState.
Variable H : Heap.
Variables rec1 rec2 : dumpState -> bool -> Value -> Outcome dumpState.
Hypothesis rec_ext : Extends rec1 rec2.

Lemma rec_ext_bind (d : dumpState) (a : bool) (x : Value)
  (k : dumpState -> Outcome dumpState) :
  mbind k (rec1 d a x) <> OutOfFuel -> rec2 d a x = rec1 d a x.
Proof. intros Hn. apply rec_ext. intros Hc. by rewrite Hc in Hn. Qed.

Lemma dumpElems_ext (es : list Value) (d : dumpState) (a : bool) :
  dumpElems rec1 d a es <> OutOfFuel ->
  dumpElems rec2 d a es = dumpElems rec1 d a es.
Proof.
  revert d. induction es as [|e rest IH]; intros d Hn; simpl in *; [done |].
  destruct (unpackValue a e) as [a' x].
  rewrite (rec_ext_bind _ _ _ _ Hn).
  destruct (rec1 d a' x) as [d1| |]; simpl in *; [by apply IH | done | done].
Qed.

Lemma dumpEntries_ext (es : list (Value * Value)) (d : dumpState) :
  dumpEntries rec1 d es <> OutOfFuel ->
  dumpEntries rec2 d es = dumpEntries rec1 d es.
Proof.
  revert d. induction es as [|[key val] rest IH]; intros d Hn; simpl in *;
    [done |].
  destruct (unpackValue false key) as [ak k].
  destruct (unpackValue false val) as [ax x].
  rewrite (rec_ext_bind _ _ _ _ Hn).
  destruct (rec1 d ak k) as [d1| |]; simpl in *; [| done | done].
  rewrite (rec_ext_bind _ _ _ _ Hn).
  destruct (rec1 _ ax x) as [d4| |]; simpl in *; [by apply IH | done | done].
Qed.

Lemma dumpFields_ext (fs : list (string * Value)) (d : dumpState) (a : bool) :
  dumpFields cs rec1 d a fs <> OutOfFuel ->
  dumpFields cs rec2 d a fs = dumpFields cs rec1 d a fs.
Proof.
  revert d. induction fs as [|[name f] rest IH]; intros d Hn; simpl in *;
    [done |].
  destruct (unpackValue a f) as [a' x].
  rewrite (rec_ext_bind _ _ _ _ Hn).
  destruct (rec1 _ a' x) as [d5| |]; simpl in *; [by apply IH | done | done].
Qed.

Lemma dumpCompound_ext (d : dumpState)
  (body1 body2 : dumpState -> Outcome dumpState) :
  (forall d2, body1 d2 <> OutOfFuel -> body2 d2 = body1 d2) ->
  dumpCompound cs d body1 <> OutOfFuel ->
  dumpCompound cs d body2 = dumpCompound cs d body1.
Proof.
  intros Hbody. unfold dumpCompound. destruct (tooDeep cs _); [done |].
  intros Hn. rewrite Hbody; [done |]. intros Hc. by rewrite Hc in Hn.
Qed.

Lemma dumpKind_ext (d : dumpState) (a : bool) (v : Value) :
  dumpKind h cs rec1 d a v <> OutOfFuel ->
  dumpKind h cs rec2 d a v = dumpKind h cs rec1 d a v.
Proof.
  destruct v; simpl; try done;
    apply dumpCompound_ext; intros d2;
    auto using dumpElems_ext, dumpEntries_ext, dumpFields_ext.
Qed.

Lemma dumpPtr_ext (f1 f2 : nat) (d : dumpState) (v : Value) :
  (f1 <= f2)%nat ->
  dumpPtr rec1 f1 H d v <> OutOfFuel ->
  dumpPtr rec2 f2 H d v = dumpPtr rec1 f1 H d v.
Proof.
  intros Hle. unfold dumpPtr.
  destruct (unwrap f1 _ _ _) as [u|] eqn:Hu; [| done].
  rewrite (unwrap_more_fuel _ _ _ _ _ _ Hu Hle).
  destruct (TypeString (ve u)); [| done].
  destruct (nilFound u); [done |]. destruct (cycleFound u); [done |].
  intros Hn. by rewrite (rec_ext_bind _ _ _ _ Hn).
Qed.

Lemma dumpBody_ext (f1 f2 : nat) (d : dumpState) (a : bool) (v : Value) :
  (f1 <= f2)%nat ->
  dumpBody h cs H rec1 f1 d a v <> OutOfFuel ->
  dumpBody h cs H rec2 f2 d a v = dumpBody h cs H rec1 f1 d a v.
Proof.
  intros Hle. unfold dumpBody. destruct (bool_decide _);
    [by apply dumpPtr_ext |].
  destruct (dumpType cs d v) as [d1| |]; simpl; [| done | done].
  destruct (dumpMethods h cs _ a v) as [[d3 handled]| |]; simpl;
    [| done | done].
  destruct handled; [done | apply dumpKind_ext].
Qed.

End MoreFuel.

(** A walk that comes back comes back alike with any larger amount of
    fuel. *)
Lemma dump_more_fuel (h : Host) (cs : ConfigState) (H : Heap) (f1 f2 : nat) :
  (f1 <= f2)%nat -> Extends (dump h cs H f1) (dump h cs H f2).
Proof.
  revert f2. induction f1 as [|f1 IH]; intros f2 Hle d a v Hn; [done |].
  destruct f2 as [|f2]; [lia |]. simpl in *.
  apply dumpBody_ext; [| lia | done]. apply IH. lia.
Qed.

(** ** Termination *)

Lemma seenAbove_deeper (m : gmap N Z) (a : N) (dep dep' : Z) :
  dep <= dep' -> seenAbove m a dep' = false -> seenAbove m a dep = false.
Proof.
  unfold seenAbove. intros Hle. destruct (m !! a) as [pd|]; [| done].
  intros Hs. apply Z.ltb_ge in Hs. apply Z.ltb_ge. lia.
Qed.

Lemma covers_deeper (H : Heap) (U : gset N) (m : gmap N Z) (dep dep' : Z) :
  dep <= dep' -> covers H U m dep -> covers H U m dep'.
Proof. intros Hle Hc a Ha Hs. apply Hc; [done |]. by eapply seenAbove_deeper. Qed.

Lemma covers_same (H : Heap) (U : gset N) (m m' : gmap N Z) (dep : Z) :
  prune dep m' = prune dep m -> covers H U m dep -> covers H U m' dep.
Proof.
  intros Hp Hc a Ha Hs. apply Hc; [done |].
  by rewrite <- seenAbove_prune, <- Hp, seenAbove_prune.
Qed.

Lemma covers_frame (H : Heap) (U : gset N) (d d' : dumpState) :
  sameFrame d d' -> covers H U (pointers d) (depth d) ->
  covers H U (pointers d') (depth d').
Proof. intros [Hd Hp]. rewrite Hd. by apply covers_same. Qed.

Lemma covers_insert (H : Heap) (U : gset N) (m : gmap N Z) (p : N) (dep : Z) :
  seenAbove m p dep = false -> covers H U m dep ->
  covers H U (<[p := dep]> m) dep.
Proof. intros Hs. apply covers_same. by apply prune_insert. Qed.

Lemma covers_insert_below (H : Heap) (U : gset N) (m : gmap N Z) (p : N)
  (dep : Z) :
  covers H U m dep -> covers H (U ∖ {[p]}) (<[p := dep]> m) (dep + 1).
Proof.
  intros Hc a Ha Hs. unfold seenAbove in Hs.
  destruct (decide (a = p)) as [-> | Hne].
  - rewrite lookup_insert_eq in Hs. apply Z.ltb_ge in Hs. lia.
  - rewrite lookup_insert_ne in Hs by done.
    apply elem_of_difference. split; [| set_solver].
    apply Hc; [done |]. apply (seenAbove_deeper _ _ dep (dep + 1)); [lia | done].
Qed.

Lemma unpackValue_snd (a : bool) (v : Value) :
  (unpackValue a v).2 = (unpackValue false v).2.
Proof. by destruct v as [| | | | | | | | | | ? [e|] | | | | | | |]. Qed.

Lemma dumpType_pointers (cs : ConfigState) (d d' : dumpState) (v : Value) :
  dumpType cs d v = Ok d' -> depth d' = depth d /\ pointers d' = pointers d.
Proof.
  unfold dumpType, pad. intros Hrun.
  destruct (ignoreNextType d); simpl in Hrun; [by simplify_eq |].
  destruct (TypeString v); [| done].
  destruct (ignoreNextPad d); by simplify_eq.
Qed.

Lemma dumpMethods_pointers (h : Host) (cs : ConfigState) (d d' : dumpState)
  (a handled : bool) (v : Value) :
  dumpMethods h cs d a v = Ok (d', handled) ->
  depth d' = depth d /\ pointers d' = pointers d.
Proof.
  unfold dumpMethods. intros Hrun.
  destruct (negb (DisableMethods cs)); [| by simplify_eq].
  destruct (_ && _); [| by simplify_eq].
  destruct (handleMethods h cs (w d) a v) as [[sink hd]| |]; simpl in Hrun;
    by simplify_eq.
Qed.

Lemma dumpType_returns (cs : ConfigState) (d : dumpState) (v : Value) :
  dumpType cs d v <> OutOfFuel.
Proof. unfold dumpType. destruct (negb _); [| done]. by destruct (TypeString v). Qed.

Lemma dumpMethods_returns (h : Host) (cs : ConfigState) (d : dumpState)
  (a : bool) (v : Value) :
  dumpMethods h cs d a v <> OutOfFuel.
Proof.
  unfold dumpMethods. destruct (negb _); [| done]. destruct (_ && _); [| done].
  by destruct (handleMethods_returns h cs (w d) a v) as (s & hd & ->).
Qed.

Section OneLevel.

Variable h : Host.
Variable cs : ConfigState.
Variable H : Heap.
Variable U : gset N.
Variable rec : dumpState -> bool -> Value -> Outcome dumpState.
Hypothesis rec_frame : Frame rec.

Lemma rec_step (d : dumpState) (a : bool) (x : Value)
  (k : dumpState -> Outcome dumpState) :
  covers H U (pointers d) (depth d) -> Returning H U rec x ->
  (forall d1, covers H U (pointers d1) (depth d1) -> k d1 <> OutOfFuel) ->
  mbind k (rec d a x) <> OutOfFuel.
Proof.
  intros Hc Hx Hk. destruct (rec d a x) as [d1| |] eqn:Hr; simpl; [| done |].
  - apply Hk. apply rec_frame in Hr. by eapply covers_frame.
  - by apply Hx in Hr.
Qed.

Lemma dumpElems_returns (es : list Value) (d : dumpState) (a : bool) :
  covers H U (pointers d) (depth d) ->
  Forall (fun e => Returning H U rec (unpackValue false e).2) es ->
  dumpElems rec d a es <> OutOfFuel.
Proof.
  revert d. induction es as [|e rest IH]; intros d Hc Hes; simpl; [done |].
  apply Forall_cons in Hes as [He Hrest].
  rewrite <- (unpackValue_snd a) in He.
  destruct (unpackValue a e) as [a' x]. simpl in He.
  apply rec_step; [done | done |]. intros d1 Hc1.
  apply IH; [| done]. by destruct rest.
Qed.

Lemma dumpEntries_returns (es : list (Value * Value)) (d : dumpState) :
  covers H U (pointers d) (depth d) ->
  Forall (fun kv => Returning H U rec (unpackValue false kv.1).2 /\
                    Returning H U rec (unpackValue false kv.2).2) es ->
  dumpEntries rec d es <> OutOfFuel.
Proof.
  revert d. induction es as [|[key val] rest IH]; intros d Hc Hes; simpl;
    [done |].
  apply Forall_cons in Hes as [[Hk Hx] Hrest]. simpl in Hk, Hx.
  destruct (unpackValue false key) as [ak k].
  destruct (unpackValue false val) as [ax x]. simpl in Hk, Hx.
  apply rec_step; [done | done |]. intros d1 Hc1.
  apply rec_step; [done | done |]. intros d4 Hc4.
  apply IH; [| done]. by destruct rest.
Qed.

Lemma dumpFields_returns (fs : list (string * Value)) (d : dumpState)
  (a : bool) :
  covers H U (pointers d) (depth d) ->
  Forall (fun f => Returning H U rec (unpackValue false f.2).2) fs ->
  dumpFields cs rec d a fs <> OutOfFuel.
Proof.
  revert d. induction fs as [|[name f] rest IH]; intros d Hc Hfs; simpl;
    [done |].
  apply Forall_cons in Hfs as [Hf Hrest]. simpl in Hf.
  rewrite <- (unpackValue_snd a) in Hf.
  destruct (unpackValue a f) as [a' x]. simpl in Hf.
  apply rec_step; [| done |].
  - unfold pad. by destruct (ignoreNextPad d).
  - intros d5 Hc5. apply IH; [| done]. by destruct rest.
Qed.

Lemma dumpCompound_returns (d : dumpState)
  (body : dumpState -> Outcome dumpState) :
  (forall d2, depth d2 = depth d + 1 -> pointers d2 = pointers d ->
              body d2 <> OutOfFuel) ->
  dumpCompound cs d body <> OutOfFuel.
Proof.
  intros Hbody. unfold dumpCompound. destruct (tooDeep cs _); [done |].
  destruct (body _) as [d3| |] eqn:Hb; simpl; [done | done |].
  by apply Hbody in Hb.
Qed.

Lemma dumpKind_returns (d : dumpState) (a : bool) (v : Value) :
  covers H U (pointers d) (depth d + 1) ->
  Forall (Returning H U rec) (kids h v) ->
  dumpKind h cs rec d a v <> OutOfFuel.
Proof.
  intros Hc Hk.
  destruct v; simpl in *; try done;
    try (apply dumpCompound_returns; intros d2 Hd2 Hp2;
         rewrite <- Hd2, <- Hp2 in Hc).
  - by destruct wd.
  - by destruct wd.
  - apply dumpElems_returns; [done |]. by rewrite Forall_fmap in Hk.
  - apply dumpElems_returns; [done |]. by rewrite Forall_fmap in Hk.
  - apply dumpEntries_returns; [done |].
    apply Forall_app in Hk as [Hk1 Hk2].
    rewrite Forall_fmap in Hk1. rewrite Forall_fmap in Hk2.
    rewrite Forall_forall in Hk1. rewrite Forall_forall in Hk2.
    apply Forall_forall. intros kv Hin. split; [by apply Hk1 | by apply Hk2].
  - apply dumpFields_returns; [done |]. by rewrite Forall_fmap in Hk.
  - by destruct canInterface.
Qed.

Lemma dumpBody_returns (fuel : nat) (d : dumpState) (a : bool) (v : Value) :
  Kind v <> reflect.Ptr ->
  covers H U (pointers d) (depth d + 1) ->
  Forall (Returning H U rec) (kids h v) ->
  dumpBody h cs H rec fuel d a v <> OutOfFuel.
Proof.
  intros Hk Hc Hkids. unfold dumpBody.
  rewrite bool_decide_eq_false_2 by done.
  destruct (dumpType cs d v) as [d1| |] eqn:Ht; simpl;
    [| done | by apply dumpType_returns in Ht].
  apply dumpType_pointers in Ht as [Hd1 Hp1].
  destruct (dumpMethods h cs _ a v) as [[d3 handled]| |] eqn:Hm; simpl;
    [| done | by apply dumpMethods_returns in Hm].
  apply dumpMethods_pointers in Hm as [Hd3 Hp3]. simpl in Hd3, Hp3.
  destruct handled; [done |].
  apply dumpKind_returns; [| done]. by rewrite Hd3, Hp3, Hd1, Hp1.
Qed.

End OneLevel.

(** One amount of fuel serves a whole list of values. *)
Lemma Terminates_all (h : Host) (cs : ConfigState) (H : Heap) (U : gset N)
  (l : list Value) :
  Forall (Terminates h cs H U) l ->
  exists fuel, forall fuel', (fuel <= fuel')%nat ->
    Forall (Returning H U (dump h cs H fuel')) l.
Proof.
  induction 1 as [|c l [f1 Hc] _ [f2 Hl]].
  - exists 0%nat. by constructor.
  - exists (f1 `max` f2)%nat. intros fuel' Hle. constructor.
    + apply Hc. lia.
    + apply Hl. lia.
Qed.

(** A value that is not a pointer is walked within one level more than its
    entries need, from every state whose addresses not recorded at or above
    the current depth are in [U]. *)
Lemma Terminates_below (h : Host) (cs : ConfigState) (H : Heap) (U : gset N)
  (x : Value) :
  Kind x <> reflect.Ptr -> Forall (Terminates h cs H U) (kids h x) ->
  exists fuel, forall fuel', (fuel <= fuel')%nat ->
    forall d ca, covers H U (pointers d) (depth d + 1) ->
                 dump h cs H fuel' d ca x <> OutOfFuel.
Proof.
  intros Hk Hkids. apply Terminates_all in Hkids as [fuel Hkids].
  exists (S fuel). intros [|fuel'] Hle d ca Hc; [lia |]. simpl.
  apply (dumpBody_returns h cs H U); [apply dump_frame | done | done |].
  apply Hkids. lia.
Qed.

(** A round of the loop on an address that is neither nil nor recorded above
    the current depth. *)
Lemma unwrapRound_fresh (H : Heap) (dep : Z) (u : unwrapState) (p : N) :
  p <> 0%N -> seenAbove (ptrs u) p dep = false ->
  (exists u', unwrapRound H dep u p = Break u' /\ nilFound u' = true) \/
  exists u', unwrapRound H dep u p = Continue u' /\
             ve u' = (unpackValue true (Elem H p)).2 /\
             ptrs u' = <[p := dep]> (ptrs u).
Proof.
  intros Hp Hs. unfold unwrapRound. apply N.eqb_neq in Hp. rewrite Hp, Hs.
  destruct (Elem H p) as [| | | | | | | | | | ity [e|] | | | | | | |];
    simpl; eauto.
Qed.

Lemma unwrap_done (fuel : nat) (H : Heap) (dep : Z) (u : unwrapState) :
  Kind (ve u) <> reflect.Ptr -> unwrap fuel H dep u = Some u.
Proof. intros Hk. destruct fuel; simpl; by destruct (ve u). Qed.

Lemma unpacked_Elem_linked (H : Heap) (p q : N) (ty : string) :
  (unpackValue true (Elem H p)).2 = VPtr ty q -> linked H p q.
Proof.
  unfold Elem. intros He. exists ty.
  destruct (H !! p) as [[| | | | | | | | | | ity [e|] | | | | | | |]|];
    simpl in He; simplify_eq; eauto.
Qed.

Lemma unpacked_Elem_unallocated (H : Heap) (p : N) :
  H !! p = None -> (unpackValue true (Elem H p)).2 = VInvalid.
Proof. unfold Elem. by intros ->. Qed.

Lemma Kind_Ptr_inv (v : Value) :
  Kind v = reflect.Ptr -> exists ty p, v = VPtr ty p.
Proof. destruct v; simpl; try done; try (by repeat case_match); eauto. Qed.

Section Termination.

Variable h : Host.
Variable cs : ConfigState.
Variable H : Heap.
Hypothesis chains_end : chainsEnd H.

Variable U : gset N.
Hypothesis smaller : forall U', U' ⊂ U -> forall v, Terminates h cs H U' v.

(** The value a chain ends on is walked once its last address is
    recorded. *)
Lemma chain_end_returns (p : N) (x : Value) :
  x = (unpackValue true (Elem H p)).2 -> Kind x <> reflect.Ptr ->
  exists fuel, forall fuel', (fuel <= fuel')%nat ->
    forall (m : gmap N Z) (dep : Z) d ca,
      covers H U m dep -> seenAbove m p dep = false ->
      depth d = dep -> pointers d = <[p := dep]> m ->
      dump h cs H fuel' d ca x <> OutOfFuel.
Proof.
  intros Hx Hk.
  destruct (H !! p) as [e0|] eqn:Hp; [destruct (decide (p ∈ U)) as [Hin | Hout] |].
  - destruct (Terminates_below h cs H (U ∖ {[p]}) x) as [fuel Hfuel];
      [done | | ].
    { apply Forall_forall. intros c _. apply smaller.
      by apply subset_difference_elem_of. }
    exists fuel. intros fuel' Hle m dep d ca Hc Hs Hd Hm.
    apply Hfuel; [done |]. rewrite Hd, Hm. by apply covers_insert_below.
  - exists 0%nat. intros fuel' _ m dep d ca Hc Hs Hd Hm.
    exfalso. apply Hout. apply Hc; [by rewrite Hp | done].
  - rewrite (unpacked_Elem_unallocated _ _ Hp) in Hx. subst x.
    destruct (Terminates_below h cs H U VInvalid) as [fuel Hfuel];
      [done | by constructor |].
    exists fuel. intros fuel' Hle m dep d ca Hc Hs Hd Hm.
    apply Hfuel; [done |]. rewrite Hd, Hm.
    assert (Hsub := covers_insert_below H U m p dep Hc).
    intros a Ha Hsa. apply Hsub in Hsa; [| done].
    by apply elem_of_difference in Hsa as [? _].
Qed.

(** The loop of [dumpPtr] ends, and the value it ends on is walked. *)
Lemma chain_returns (p : N) :
  exists fuel, forall fuel', (fuel <= fuel')%nat ->
    forall (u : unwrapState) (ty : string) (dep : Z),
      ve u = VPtr ty p -> covers H U (ptrs u) dep ->
      exists u',
        unwrap fuel' H dep u = Some u' /\
        (nilFound u' = false -> cycleFound u' = false ->
         forall d ca, depth d = dep -> pointers d = ptrs u' ->
                      dump h cs H fuel' d ca (ve u') <> OutOfFuel).
Proof.
  induction (chains_end p) as [p _ IH].
  set (x := (unpackValue true (Elem H p)).2).
  assert (Hafter : exists fuel, forall fuel', (fuel <= fuel')%nat ->
            forall (u1 : unwrapState) (dep : Z) (m : gmap N Z),
              ve u1 = x -> ptrs u1 = <[p := dep]> m ->
              covers H U m dep -> seenAbove m p dep = false ->
              exists u',
                unwrap fuel' H dep u1 = Some u' /\
                (nilFound u' = false -> cycleFound u' = false ->
                 forall d ca, depth d = dep -> pointers d = ptrs u' ->
                              dump h cs H fuel' d ca (ve u') <> OutOfFuel)).
  { destruct (decide (Kind x = reflect.Ptr)) as [Hk | Hk].
    - apply Kind_Ptr_inv in Hk as (ty' & q & Hx).
      destruct (IH q) as [fuel Hfuel];
        [by eapply unpacked_Elem_linked |].
      exists fuel. intros fuel' Hle u1 dep m Hve Hm Hc Hs.
      apply (Hfuel fuel' Hle u1 ty' dep); [congruence |].
      rewrite Hm. by apply covers_insert.
    - destruct (chain_end_returns p x) as [fuel Hfuel]; [done | done |].
      exists fuel. intros fuel' Hle u1 dep m Hve Hm Hc Hs.
      exists u1. split; [apply unwrap_done; by rewrite Hve |].
      intros _ _ d ca Hd Hp. rewrite Hve.
      apply (Hfuel fuel' Hle m dep); [done | done | done |]. by rewrite Hp. }
  destruct Hafter as [fuel Hafter].
  exists (S fuel). intros [|fuel'] Hle u ty dep Hve Hc; [lia |].
  cbn [unwrap]. rewrite Hve.
  destruct (decide (p = 0%N)) as [-> | Hnz].
  { eexists. split; [reflexivity |]. by intros Hn. }
  destruct (seenAbove (ptrs u) p dep) eqn:Hs.
  { unfold unwrapRound. apply N.eqb_neq in Hnz. rewrite Hnz, Hs.
    eexists. split; [reflexivity |]. by intros _ Hcy. }
  destruct (unwrapRound_fresh H dep u p Hnz Hs)
    as [(u' & -> & Hnil) | (u1 & -> & Hve1 & Hm1)].
  { exists u'. split; [done |]. intros Hn. congruence. }
  destruct (Hafter fuel' ltac:(lia) u1 dep (ptrs u) Hve1 Hm1 Hc Hs)
    as (u' & Hu' & Hdump).
  exists u'. split; [done |]. intros Hn Hcy d ca Hd Hp.
  rewrite (dump_more_fuel h cs H fuel' (S fuel') ltac:(lia) d ca (ve u'));
    by apply Hdump.
Qed.

Lemma pointer_terminates (ty : string) (p : N) :
  Terminates h cs H U (VPtr ty p).
Proof.
  destruct (chain_returns p) as [fuel Hfuel].
  exists (S fuel). intros [|fuel'] Hle d ca Hc; [lia |].
  simpl. unfold dumpBody. simpl. unfold dumpPtr.
  assert (Hd : depth (pad cs d) = depth d)
    by (unfold pad; by destruct (ignoreNextPad d)).
  assert (Hp : pointers (pad cs d) = pointers d)
    by (unfold pad; by destruct (ignoreNextPad d)).
  destruct (Hfuel fuel' ltac:(lia) (unwrapStart (pad cs d) (VPtr ty p)) ty
              (depth (pad cs d))) as (u' & Hu' & Hdump).
  { done. }
  { simpl. rewrite Hd, Hp. apply (covers_same _ _ (pointers d)); [| done].
    apply prune_prune. lia. }
  rewrite (unwrap_more_fuel _ (S fuel') _ _ _ _ Hu') by lia.
  destruct (TypeString (ve u')); [| done].
  destruct (nilFound u'); [done |]. destruct (cycleFound u'); [done |].
  destruct (dump h cs H fuel' _ _ _) as [d10| |] eqn:Hrun; simpl;
    [done | done |].
  by apply Hdump in Hrun.
Qed.

End Termination.

(** Every value is reached from its own entries. *)
Lemma deep_all (P : Value -> Prop) :
  (forall v, Forall (deep P) (children v) -> P v) -> forall v, deep P v.
Proof.
  intros Hstep. fix IH 1. intros v.
  assert (Hc : Forall (deep P) (children v)).
  { destruct v as [| | | | | | | ? es | ? es | | ty [e|] | | ? es | ? fs | | | |];
      simpl; try (by apply Forall_nil).
    - induction es as [|e es IHes]; constructor; [apply IH | exact IHes].
    - induction es as [|e es IHes]; constructor; [apply IH | exact IHes].
    - constructor; [apply IH | constructor].
    - apply Forall_app. split; apply Forall_fmap;
        induction es as [|[k x] es IHes]; constructor;
        [apply IH | exact IHes | apply IH | exact IHes].
    - apply Forall_fmap.
      induction fs as [|[name f] fs IHfs]; constructor;
        [apply IH | exact IHfs]. }
  constructor; [by apply Hstep | exact Hc].
Qed.

Lemma kids_of_children (P : Value -> Prop) (h : Host) (v : Value) :
  hostOk h -> Forall (deep P) (children v) -> Forall P (kids h v).
Proof.
  intros Hok Hc.
  assert (Hun : forall e, deep P e -> P (unpackValue false e).2).
  { intros e He. apply deep_here. by apply deep_unpackValue. }
  destruct v; simpl in *; try (by constructor).
  - apply Forall_fmap. eapply Forall_impl; [exact Hc | exact Hun].
  - apply Forall_fmap. eapply Forall_impl; [exact Hc | exact Hun].
  - apply Forall_app in Hc as [Hk Hx].
    rewrite Forall_fmap in Hk. rewrite Forall_fmap in Hx.
    apply Forall_app. split; apply Forall_fmap; rewrite (Hok entries).
    + eapply Forall_impl; [exact Hk |]. intros kv. apply Hun.
    + eapply Forall_impl; [exact Hx |]. intros kv. apply Hun.
  - rewrite Forall_fmap in Hc. apply Forall_fmap.
    eapply Forall_impl; [exact Hc |]. intros f. apply Hun.
Qed.

Lemma Terminates_any (h : Host) (cs : ConfigState) (H : Heap) (U : gset N)
  (v : Value) :
  hostOk h -> chainsEnd H -> Terminates h cs H U v.
Proof.
  intros Hok Hch. revert v. induction (set_wf U) as [U _ IHU]. intros v.
  apply (deep_here (Terminates h cs H U)). apply deep_all. clear v.
  intros v Hc. destruct (decide (Kind v = reflect.Ptr)) as [Hk | Hk].
  - apply Kind_Ptr_inv in Hk as (ty & p & ->). by apply pointer_terminates.
  - destruct (Terminates_below h cs H U v) as [fuel Hfuel]; [done | |].
    + by apply kids_of_children.
    + exists fuel. intros fuel' Hle d ca Hcov. apply Hfuel; [done |].
      apply (covers_deeper _ _ _ (depth d)); [lia | done].
Qed.

Lemma covers_dom (H : Heap) (m : gmap N Z) (dep : Z) : covers H (dom H) m dep.
Proof. intros a Ha _. by apply elem_of_dom. Qed.

Lemma dump_enough_fuel (h : Host) (cs : ConfigState) (H : Heap) (v : Value) :
  hostOk h -> chainsEnd H ->
  exists fuel, forall fuel', (fuel <= fuel')%nat ->
    forall d ca, dump h cs H fuel' d ca v <> OutOfFuel.
Proof.
  intros Hok Hch.
  destruct (Terminates_any h cs H (dom H) v Hok Hch) as [fuel Hfuel].
  exists fuel. intros fuel' Hle d ca. apply Hfuel; [done | apply covers_dom].
Qed.

Lemma Fdump_enough_fuel (h : Host) (cs : ConfigState) (H : Heap)
  (a : list (option Value)) :
  hostOk h -> chainsEnd H ->
  exists fuel, forall fuel', (fuel <= fuel')%nat ->
    forall sink, Fdump h cs H fuel' sink a <> OutOfFuel.
Proof.
  intros Hok Hch. induction a as [|[v|] a [f2 IH]].
  - by exists 0%nat.
  - destruct (dump_enough_fuel h cs H v Hok Hch) as [f1 Hv].
    exists (f1 `max` f2)%nat. intros fuel' Hle sink. simpl.
    destruct (dump h cs H fuel' _ false v) as [d| |] eqn:Hrun; simpl;
      [apply IH; lia | done |].
    apply Hv in Hrun; [done | lia].
  - exists f2. intros fuel' Hle sink. simpl. by apply IH.
Qed.

Lemma Fdump_more_fuel (h : Host) (cs : ConfigState) (H : Heap) (f1 f2 : nat)
  (a : list (option Value)) (sink : string) :
  (f1 <= f2)%nat -> Fdump h cs H f1 sink a <> OutOfFuel ->
  Fdump h cs H f2 sink a = Fdump h cs H f1 sink a.
Proof.
  intros Hle. revert sink. induction a as [|[v|] a IH]; intros sink Hn;
    simpl in *; [done | | by apply IH].
  rewrite (dump_more_fuel h cs H f1 f2 Hle).
  - destruct (dump h cs H f1 _ false v); simpl in *; [by apply IH | done | done].
  - intros Hc. by rewrite Hc in Hn.
Qed.

Lemma circHeap_chainsEnd : chainsEnd circHeap.
Proof.
  intros a. constructor. intros b (ty & [Hl | (ity & Hl)]);
    unfold circHeap in Hl;
    apply lookup_singleton_Some in Hl as [_ Hl]; discriminate.
Qed.

Lemma circHeap_wellFormed : heapAll (wellFormed circHeap) circHeap.
Proof.
  intros a v Hl. unfold circHeap in Hl.
  apply lookup_singleton_Some in Hl as [_ <-].
  constructor; [done |]. simpl. constructor; [| constructor].
  apply deep_leaf; [done |]. right. by eexists.
Qed.





(** ** Chains of pointers that never end *)

Lemma unwrap_closedChain (H : Heap) (Addrs : N -> Prop) (dep : Z) (fuel : nat)
  (u : unwrapState) (ty : string) (p : N) :
  closedChain H Addrs -> Addrs p -> ve u = VPtr ty p ->
  (forall a, Addrs a -> seenAbove (ptrs u) a dep = false) ->
  unwrap fuel H dep u = None.
Proof.
  intros Hcl. revert u ty p.
  induction fuel as [|fuel IH]; intros u ty p Hp Hve Hs; simpl; rewrite Hve;
    [done |].
  destruct (Hcl p Hp) as (Hnz & b & Hb & ty' & Hl).
  assert (Hs' : forall a, Addrs a -> seenAbove (<[p := dep]> (ptrs u)) a dep = false).
  { intros a Ha. destruct (decide (a = p)) as [-> | Hne];
      [apply seenAbove_insert |].
    unfold seenAbove. rewrite lookup_insert_ne by done. by apply Hs. }
  unfold unwrapRound. apply N.eqb_neq in Hnz. rewrite Hnz, (Hs p Hp).
  unfold Elem. destruct Hl as [-> | (ity & ->)]; simpl;
    by apply (IH _ ty' b).
Qed.

(** X10.  Conversely, the walker does not come back from a pointer into a
    set of pointer variables that hold each other's addresses, whatever the
    length of the cycle, unless one of them is recorded above the current
    depth: every round of the loop of [dumpPtr] records the address at the
    current depth, where the check does not look. *)
Theorem dump_never_returns_inside_a_pointer_cycle
  (h : Host) (cs : ConfigState) (H : Heap) (Addrs : N -> Prop) (fuel : nat)
  (d : dumpState) (ca : bool) (ty : string) (p : N) :
  closedChain H Addrs -> Addrs p ->
  (forall a, Addrs a -> seenAbove (pointers d) a (depth d) = false) ->
  dump h cs H fuel d ca (VPtr ty p) = OutOfFuel.
Proof.
  intros Hcl Hp Hs. destruct fuel as [|fuel]; [done |].
  simpl. unfold dumpBody. simpl. unfold dumpPtr.
  rewrite (unwrap_closedChain H Addrs _ _ _ ty p); [done | done | done | done |].
  intros a Ha. simpl. rewrite seenAbove_prune.
  unfold pad. destruct (ignoreNextPad d); by apply Hs.
Qed.

Lemma twoCycleHeap_closed :
  closedChain twoCycleHeap (fun a => a = 16%N \/ a = 32%N).
Proof.
  intros a [-> | ->]; (split; [done |]).
  - exists 32%N. split; [by right |]. exists "main.P". by left.
  - exists 16%N. split; [by left |]. exists "main.P". by left.
Qed.

Lemma dump_never_returns_inside_a_pointer_cycle_witness :
  dump plainHost defaultConfig twoCycleHeap 1000 (newDumpState "") false
    (VPtr "*main.P" 16)
  = OutOfFuel.
Proof.
  apply (dump_never_returns_inside_a_pointer_cycle plainHost defaultConfig
           twoCycleHeap (fun a => a = 16%N \/ a = 32%N)).
  - exact twoCycleHeap_closed.
  - by left.
  - reflexivity.
Defined.

(** ** The panics that leave the walker *)

Section Panics.

Variable h : Host.
Variable cs : ConfigState.
Variable H : Heap.
Variable rec : dumpState -> bool -> Value -> Outcome dumpState.
Hypothesis rec_only : OnlyTypePanic rec.

Lemma rec_only_bind (d : dumpState) (a : bool) (x : Value)
  (k : dumpState -> Outcome dumpState) msg sink :
  (forall d1, k d1 = Raised msg sink -> msg = zeroValueType) ->
  mbind k (rec d a x) = Raised msg sink -> msg = zeroValueType.
Proof.
  intros Hk Hrun. apply bind_Raised in Hrun as [Hrun | (d1 & _ & Hrun)].
  - by eapply rec_only.
  - by eapply Hk.
Qed.

Lemma dumpElems_only (es : list Value) (d : dumpState) (a : bool) msg sink :
  dumpElems rec d a es = Raised msg sink -> msg = zeroValueType.
Proof.
  revert d. induction es as [|e rest IH]; intros d; simpl; [done |].
  destruct (unpackValue a e) as [a' x]. apply rec_only_bind.
  intros d1. apply IH.
Qed.

Lemma dumpEntries_only (es : list (Value * Value)) (d : dumpState) msg sink :
  dumpEntries rec d es = Raised msg sink -> msg = zeroValueType.
Proof.
  revert d. induction es as [|[key val] rest IH]; intros d; simpl; [done |].
  destruct (unpackValue false key) as [ak k].
  destruct (unpackValue false val) as [ax x].
  apply rec_only_bind. intros d1. apply rec_only_bind. intros d4. apply IH.
Qed.

Lemma dumpFields_only (fs : list (string * Value)) (d : dumpState) (a : bool)
  msg sink :
  dumpFields cs rec d a fs = Raised msg sink -> msg = zeroValueType.
Proof.
  revert d. induction fs as [|[name f] rest IH]; intros d; simpl; [done |].
  destruct (unpackValue a f) as [a' x]. apply rec_only_bind.
  intros d5. apply IH.
Qed.

Lemma dumpCompound_only (d : dumpState)
  (body : dumpState -> Outcome dumpState) msg sink :
  (forall d2, body d2 = Raised msg sink -> msg = zeroValueType) ->
  dumpCompound cs d body = Raised msg sink -> msg = zeroValueType.
Proof.
  intros Hbody Hrun. unfold dumpCompound in Hrun.
  apply bind_Raised in Hrun as [Hrun | (d3 & _ & Hrun)]; [| done].
  destruct (tooDeep cs _); [done | by eapply Hbody].
Qed.

Lemma dumpKind_only (d : dumpState) (a : bool) (v : Value) msg sink :
  dumpKind h cs rec d a v = Raised msg sink -> msg = zeroValueType.
Proof.
  destruct v; simpl; try done;
    try (apply dumpCompound_only; intros d2;
         eauto using dumpElems_only, dumpEntries_only, dumpFields_only).
  - by destruct wd.
  - by destruct wd.
  - by destruct canInterface.
Qed.

Lemma dumpBody_only (fuel : nat) (d : dumpState) (a : bool) (v : Value)
  msg sink :
  dumpBody h cs H rec fuel d a v = Raised msg sink -> msg = zeroValueType.
Proof.
  unfold dumpBody. destruct (bool_decide _).
  - unfold dumpPtr. destruct (unwrap _ _ _ _) as [u|]; [| done].
    destruct (TypeString (ve u)); [| by intros [= <- _]].
    destruct (nilFound u); [done |]. destruct (cycleFound u); [done |].
    by apply rec_only_bind.
  - intros Hrun. apply bind_Raised in Hrun as [Hrun | (d1 & _ & Hrun)].
    + unfold dumpType in Hrun. destruct (negb _); [| done].
      destruct (TypeString v); [done | by injection Hrun as <- _].
    + apply bind_Raised in Hrun as [Hrun | ([d3 handled] & _ & Hrun)].
      * by apply dumpMethods_safe in Hrun.
      * destruct handled; [done | by eapply dumpKind_only].
Qed.

End Panics.

Lemma dump_only (h : Host) (cs : ConfigState) (H : Heap) (fuel : nat) :
  OnlyTypePanic (dump h cs H fuel).
Proof.
  induction fuel as [|fuel IH]; intros d a v msg sink Hrun; [done |].
  simpl in Hrun. by eapply dumpBody_only.
Qed.

(** X11.  No panic of an [Error] or [String] method ever leaves the walker,
    whatever the values, the memory and the host: the only panic [dump] and
    [Fdump] pass on to their caller is that of [reflect.Value.Type] on the
    zero Value. *)
Theorem only_the_zero_Value_panic_leaves_the_walker
  (h : Host) (cs : ConfigState) (H : Heap) (fuel : nat) (msg out : string) :
  (forall d ca v, dump h cs H fuel d ca v = Raised msg out ->
                  msg = zeroValueType) /\
  (forall sink a, Fdump h cs H fuel sink a = Raised msg out ->
                  msg = zeroValueType).
Proof.
  split; [intros d ca v; apply dump_only |].
  intros sink a. revert sink.
  induction a as [|[v|] a IH]; intros sink; simpl; [done | | apply IH].
  intros Hrun. apply bind_Raised in Hrun as [Hrun | (d & _ & Hrun)].
  - by eapply dump_only.
  - by eapply IH.
Qed.

Lemma only_the_zero_Value_panic_leaves_the_walker_witness :
  Fdump panicHost defaultConfig ∅ 2 ""
    [Some (VSlice "[]interface {}" [panicer; VInvalid])]
  = Raised zeroValueType
      ("([]interface {}) {" +:+ newline
       +:+ " (spew_test.panicer) (PANIC=test panic)127," +:+ newline
       +:+ " (").
Proof.
  assert (Hrun : exists msg out,
            Fdump panicHost defaultConfig ∅ 2 ""
              [Some (VSlice "[]interface {}" [panicer; VInvalid])]
            = Raised msg out
            /\ out = "([]interface {}) {" +:+ newline
                     +:+ " (spew_test.panicer) (PANIC=test panic)127,"
                     +:+ newline +:+ " (")
    by (do 2 eexists; split; vm_compute; reflexivity).
  destruct Hrun as (msg & out & Hrun & ->).
  rewrite Hrun. f_equal.
  exact (proj2 (only_the_zero_Value_panic_leaves_the_walker panicHost
                  defaultConfig ∅ 2 msg _) _ _ Hrun).
Defined.

(** ** When the guard handles a value *)

(** X12.  [handleMethods] reports a value as handled in exactly one case:
    [ContinueOnMethod] is off and the [Error] or [String] method found
    returned a text, which is then all that was written.  In every other
    case (no method, [ContinueOnMethod], a method that panicked) the
    walker goes on to render the value structurally. *)
Theorem handleMethods_handles_exactly_returned_text
  (h : Host) (cs : ConfigState) (sink sink' : string) (ca : bool) (v : Value) :
  handleMethods h cs sink ca v = Ok (sink', true) <->
  ContinueOnMethod cs = false /\
  exists s,
    (ifaceOf h (viaPointer cs ca) v = Some (IError (Returns s)) \/
     ifaceOf h (viaPointer cs ca) v = Some (IStringer (Returns s))) /\
    sink' = sink +:+ s.
Proof.
  unfold handleMethods, methodCase. split.
  - destruct (ifaceOf h (viaPointer cs ca) v) as [[[s|msg]|[s|msg]]|];
      destruct (ContinueOnMethod cs); simpl; intros Hrun; simplify_eq;
      (split; [done |]); exists s; eauto.
  - intros (-> & s & [-> | ->] & ->); done.
Qed.

(** ** A chain of pointers that ends on a value *)

Lemma unwrapRound_follow (H : Heap) (dep : Z) (u : unwrapState) (p : N) :
  p <> 0%N -> seenAbove (ptrs u) p dep = false ->
  (forall ity, Elem H p <> VInterface ity None) ->
  unwrapRound H dep u p
  = Continue {| ve := (unpackValue true (Elem H p)).2;
                veCanAddr := (unpackValue true (Elem H p)).1;
                indirects := indirects u + 1;
                pointerChain := (pointerChain u ++ [p])%list;
                ptrs := <[p := dep]> (ptrs u);
                nilFound := nilFound u; cycleFound := cycleFound u |}.
Proof.
  intros Hp Hs Hnil. unfold unwrapRound.
  apply N.eqb_neq in Hp. rewrite Hp, Hs.
  destruct (Elem H p) as [| | | | | | | | | | ity [e|] | | | | | | |];
    try done.
  by destruct (Hnil ity).
Qed.

Lemma seenAbove_insert_same (m : gmap N Z) (a b : N) (dep : Z) :
  seenAbove m b dep = false -> seenAbove (<[a := dep]> m) b dep = false.
Proof.
  intros Hs. destruct (decide (b = a)) as [-> | Hne];
    [apply seenAbove_insert |].
  unfold seenAbove. by rewrite lookup_insert_ne.
Qed.

Lemma unwrap_follows (H : Heap) (dep : Z) (addrs : list N) (x : Value)
  (fuel : nat) (u : unwrapState) :
  follows H (ve u) addrs x ->
  (forall a, a ∈ addrs -> seenAbove (ptrs u) a dep = false) ->
  (length addrs <= fuel)%nat ->
  unwrap fuel H dep u
  = Some {| ve := x;
            veCanAddr := match last addrs with
                         | Some a => (unpackValue true (Elem H a)).1
                         | None => veCanAddr u
                         end;
            indirects := indirects u + Z.of_nat (length addrs);
            pointerChain := (pointerChain u ++ addrs)%list;
            ptrs := recordAll dep addrs (ptrs u);
            nilFound := nilFound u; cycleFound := cycleFound u |}.
Proof.
  revert fuel u. induction addrs as [|a rest IH]; intros fuel u Hf Hs Hle.
  - destruct Hf as [Hve Hk]. rewrite unwrap_done by (by rewrite Hve).
    destruct u; simpl in *. subst. by rewrite Z.add_0_r, app_nil_r.
  - destruct Hf as ((ty & Hve) & Hnz & Hnil & Hrest).
    destruct fuel as [|fuel]; [simpl in Hle; lia |].
    cbn [unwrap]. rewrite Hve.
    rewrite unwrapRound_follow; [| done | apply Hs; by left | done].
    rewrite IH; simpl; [| done | | simpl in Hle; lia].
    + do 2 f_equal.
      * destruct rest as [|b rest]; [done |]. rewrite last_cons_cons.
        destruct (last (b :: rest)) eqn:Hl; [done |].
        by apply last_None in Hl.
      * lia.
      * by rewrite <- app_assoc.
    + intros b Hb. apply seenAbove_insert_same. apply Hs. by right.
Qed.

Lemma writeChain_arrows (sink : string) (i : nat) (addrs : list N) :
  writeChain sink (S i) addrs = sink +:+ arrowText addrs.
Proof.
  revert sink i. induction addrs as [|a rest IH]; intros sink i; simpl;
    [by rewrite app_empty_r |].
  rewrite IH. unfold Write, pointerChainBytes.
  rewrite <- (app_empty_r (sink +:+ "->")) at 1.
  rewrite printHexPtr_prefix. by rewrite !app_assoc_s.
Qed.

Lemma writeChain_chainText (sink : string) (addrs : list N) :
  writeChain sink 0 addrs = sink +:+ chainText addrs.
Proof.
  destruct addrs as [|a rest]; simpl; [by rewrite app_empty_r |].
  rewrite writeChain_arrows.
  rewrite <- (app_empty_r sink) at 1.
  rewrite printHexPtr_prefix. by rewrite !app_assoc_s.
Qed.

(** X13.  What [dumpPtr] writes for a chain of pointers of any length that
    ends on a value: one asterisk for every address passed, then the type of
    the value the chain ends on, the addresses in the order passed, in
    hexadecimal and joined by arrows, and the value itself, walked without
    its type label at the same depth, between parentheses.  Every address
    passed is recorded in the identity map at the current depth. *)
Theorem dumpPtr_renders_a_chain_of_any_length
  (rec : dumpState -> bool -> Value -> Outcome dumpState) (fuel : nat)
  (H : Heap) (d : dumpState) (v : Value) (addrs : list N) (x : Value)
  (T : string) :
  follows H v addrs x ->
  (forall a, a ∈ addrs -> seenAbove (pointers d) a (depth d) = false) ->
  TypeString x = Some T ->
  (length addrs <= fuel)%nat ->
  dumpPtr rec fuel H d v
  = d10 ← rec {| w := w d +:+ "(" +:+ Repeat "*" (length addrs) +:+ T +:+ ")"
                      +:+ "(" +:+ chainText addrs +:+ ")" +:+ "(";
                 depth := depth d;
                 pointers := recordAll (depth d) addrs
                               (prune (depth d) (pointers d));
                 ignoreNextType := true;
                 ignoreNextPad := ignoreNextPad d |}
              (endCanAddr H addrs) x;
    Ok (dWrite d10 ")").
Proof.
  intros Hf Hs Ht Hle. unfold dumpPtr.
  rewrite (unwrap_follows H (depth d) addrs x); [| done | | done].
  - cbn [ve indirects pointerChain ptrs nilFound cycleFound veCanAddr
         unwrapStart].
    rewrite Ht. unfold endCanAddr.
    match goal with
    | |- mbind _ (rec ?s1 _ _) = mbind _ (rec ?s2 _ _) =>
        assert (Hst : s1 = s2); [| by rewrite Hst]
    end.
    apply dumpState_eq; simpl; try reflexivity.
    rewrite writeChain_chainText, Z.add_0_l, Nat2Z.id.
    unfold Write, openParenBytes, closeParenBytes, asteriskBytes.
    by rewrite !app_assoc_s.
  - intros a Ha. simpl. rewrite seenAbove_prune. by apply Hs.
Qed.

Lemma dumpPtr_renders_a_chain_of_any_length_witness :
  dumpPtr (dump plainHost defaultConfig int8PtrHeap 1) 2 int8PtrHeap
    (newDumpState "") int8PtrPtr
  = d10 ← dump plainHost defaultConfig int8PtrHeap 1
            {| w := "" +:+ "(" +:+ Repeat "*" 2 +:+ "int8" +:+ ")"
                    +:+ "(" +:+ chainText [32%N; 16%N] +:+ ")" +:+ "(";
               depth := 0;
               pointers := recordAll 0 [32%N; 16%N] (prune 0 ∅);
               ignoreNextType := true;
               ignoreNextPad := false |}
            (endCanAddr int8PtrHeap [32%N; 16%N]) (VInt W8 "int8" 5);
    Ok (dWrite d10 ")").
Proof.
  apply (dumpPtr_renders_a_chain_of_any_length
           (dump plainHost defaultConfig int8PtrHeap 1) 2 int8PtrHeap
           (newDumpState "") int8PtrPtr [32%N; 16%N] (VInt W8 "int8" 5) "int8").
  - vm_compute. split_and!; try done; eauto.
  - intros a _. reflexivity.
  - reflexivity.
  - simpl. lia.
Defined.

(** The pointer to a pointer as [Fdump] shows it. *)
Example dump_pointer_to_pointer :
  Fdump plainHost defaultConfig int8PtrHeap 2 "" [Some int8PtrPtr]
  = Ok ("(**int8)(0x20->0x10)(5)" +:+ newline).
Proof. vm_compute. reflexivity. Qed.

(** ** A depth limit that is not reached *)

Section WithinLimit.

Variable h : Host.
Variable cs : ConfigState.
Variable H : Heap.
Variable n : Z.

(** The recursive calls under the limit [n] and under no limit agree up to
    the depth [B]. *)
Variables rec rec' : dumpState -> bool -> Value -> Outcome dumpState.
Variable B : Z.
Hypothesis rec_frame : Frame rec.
Hypothesis rec_same : forall d a v, depth d <= B -> rec' d a v = rec d a v.

Lemma rec_same_bind (d : dumpState) (a : bool) (x : Value)
  (k k' : dumpState -> Outcome dumpState) :
  depth d <= B ->
  (forall d1, depth d1 = depth d -> k' d1 = k d1) ->
  mbind k' (rec' d a x) = mbind k (rec d a x).
Proof.
  intros Hd Hk. rewrite rec_same by done.
  destruct (rec d a x) as [d1| |] eqn:Hr; simpl; [| done | done].
  apply Hk. by apply rec_frame in Hr as [? _].
Qed.

Lemma dumpElems_within (es : list Value) (d : dumpState) (a : bool) :
  depth d <= B -> dumpElems rec' d a es = dumpElems rec d a es.
Proof.
  revert d. induction es as [|e rest IH]; intros d Hd; simpl; [done |].
  destruct (unpackValue a e) as [a' x].
  apply rec_same_bind; [done |]. intros d1 Hd1. apply IH.
  destruct rest; simpl; lia.
Qed.

Lemma dumpEntries_within (es : list (Value * Value)) (d : dumpState) :
  depth d <= B -> dumpEntries rec' d es = dumpEntries rec d es.
Proof.
  revert d. induction es as [|[key val] rest IH]; intros d Hd; simpl;
    [done |].
  destruct (unpackValue false key) as [ak k].
  destruct (unpackValue false val) as [ax x].
  apply rec_same_bind; [done |]. intros d1 Hd1.
  apply rec_same_bind; [simpl; lia |]. intros d4 Hd4. apply IH.
  simpl in Hd4. destruct rest; simpl; lia.
Qed.

Lemma dumpFields_within (fs : list (string * Value)) (d : dumpState)
  (a : bool) :
  depth d <= B ->
  dumpFields (withMaxDepth cs n) rec' d a fs
  = dumpFields (withMaxDepth cs 0) rec d a fs.
Proof.
  revert d. induction fs as [|[name f] rest IH]; intros d Hd; simpl;
    [done |].
  destruct (unpackValue a f) as [a' x].
  assert (Hpad : depth (pad (withMaxDepth cs 0) d) = depth d)
    by (unfold pad; by destruct (ignoreNextPad d)).
  apply rec_same_bind; [simpl; change (pad (withMaxDepth cs n) d)
                          with (pad (withMaxDepth cs 0) d); lia |].
  intros d5 Hd5. apply IH. simpl in Hd5.
  change (pad (withMaxDepth cs n) d) with (pad (withMaxDepth cs 0) d) in Hd5.
  destruct rest; simpl; lia.
Qed.

Lemma dumpCompound_within (d : dumpState)
  (body body' : dumpState -> Outcome dumpState) :
  depth d + 1 <= n ->
  (forall d2, depth d2 = depth d + 1 -> body' d2 = body d2) ->
  dumpCompound (withMaxDepth cs n) d body'
  = dumpCompound (withMaxDepth cs 0) d body.
Proof.
  intros Hd Hbody. unfold dumpCompound.
  assert (Hn : tooDeep (withMaxDepth cs n)
                 (set_depth (dWrite d openBraceNewlineBytes)
                    (depth (dWrite d openBraceNewlineBytes) + 1)) = false).
  { apply not_true_is_false. rewrite tooDeep_spec. simpl. lia. }
  rewrite Hn. unfold tooDeep at 1. simpl. by rewrite Hbody.
Qed.

Lemma dumpKind_within (d : dumpState) (a : bool) (v : Value) :
  depth d + 1 <= B -> depth d + 1 <= n ->
  dumpKind h (withMaxDepth cs n) rec' d a v
  = dumpKind h (withMaxDepth cs 0) rec d a v.
Proof.
  intros Hb Hn. destruct v; simpl; try done;
    apply dumpCompound_within; try done; intros d2 Hd2;
    [apply dumpElems_within | apply dumpElems_within
     | apply dumpEntries_within | apply dumpFields_within]; lia.
Qed.

Lemma dumpBody_within (fuel : nat) (d : dumpState) (a : bool) (v : Value) :
  depth d + 1 <= B -> depth d + 1 <= n ->
  dumpBody h (withMaxDepth cs n) H rec' fuel d a v
  = dumpBody h (withMaxDepth cs 0) H rec fuel d a v.
Proof.
  intros Hb Hn. unfold dumpBody.
  change (pad (withMaxDepth cs n) d) with (pad (withMaxDepth cs 0) d).
  change (dumpType (withMaxDepth cs n) d v)
    with (dumpType (withMaxDepth cs 0) d v).
  destruct (bool_decide _).
  - unfold dumpPtr. destruct (unwrap _ _ _ _) as [u|]; [| done].
    destruct (TypeString (ve u)); [| done].
    destruct (nilFound u); [done |]. destruct (cycleFound u); [done |].
    rewrite rec_same; [done |]. simpl.
    unfold pad. destruct (ignoreNextPad d); simpl; lia.
  - destruct (dumpType _ d v) as [d1| |] eqn:Ht; simpl; [| done | done].
    apply dumpType_pointers in Ht as [Hd1 _].
    change (dumpMethods h (withMaxDepth cs n))
      with (dumpMethods h (withMaxDepth cs 0)).
    destruct (dumpMethods h _ _ a v) as [[d3 handled]| |] eqn:Hm; simpl;
      [| done | done].
    apply dumpMethods_pointers in Hm as [Hd3 _]. simpl in Hd3.
    destruct handled; [done |]. apply dumpKind_within; lia.
Qed.

End WithinLimit.

Lemma dump_within (h : Host) (cs : ConfigState) (H : Heap) (n : Z)
  (fuel : nat) (d : dumpState) (ca : bool) (v : Value) :
  depth d + Z.of_nat fuel <= n ->
  dump h (withMaxDepth cs n) H fuel d ca v
  = dump h (withMaxDepth cs 0) H fuel d ca v.
Proof.
  revert d ca v. induction fuel as [|fuel IH]; intros d ca v Hd; [done |].
  simpl. apply (dumpBody_within h cs H n _ _ (n - Z.of_nat fuel)).
  - apply dump_frame.
  - intros d' a' v' Hd'. apply IH. lia.
  - lia.
  - lia.
Qed.

(** X14.  A depth limit that the walk does not reach changes nothing: a
    walk that starts at depth [depth d] and nests at most [fuel] calls is
    rendered under a limit of [depth d + fuel] or more byte for byte as
    under no limit (a limit of zero), and so is every argument list of
    [Fdump]. *)
Theorem depth_limit_not_reached_changes_nothing
  (h : Host) (cs : ConfigState) (H : Heap) (n : Z) (fuel : nat) :
  (forall d ca v,
     depth d + Z.of_nat fuel <= n ->
     dump h (withMaxDepth cs n) H fuel d ca v
     = dump h (withMaxDepth cs 0) H fuel d ca v) /\
  (forall sink a,
     Z.of_nat fuel <= n ->
     Fdump h (withMaxDepth cs n) H fuel sink a
     = Fdump h (withMaxDepth cs 0) H fuel sink a).
Proof.
  split; [intros d ca v; apply dump_within |].
  intros sink a Hn. revert sink.
  induction a as [|[v|] a IH]; intros sink; simpl; [done | | apply IH].
  rewrite dump_within by (simpl; lia).
  destruct (dump h _ H fuel _ false v); simpl; [apply IH | done | done].
Qed.

Lemma depth_limit_not_reached_changes_nothing_witness :
  Fdump plainHost (withMaxDepth defaultConfig 4) int8Heap 4 ""
    [Some uncleAndNephew]
  = Fdump plainHost (withMaxDepth defaultConfig 0) int8Heap 4 ""
      [Some uncleAndNephew].
Proof.
  apply (depth_limit_not_reached_changes_nothing plainHost defaultConfig
           int8Heap 4 4).
  simpl. lia.
Defined.

(** ** The memory a walk reads *)

Section Reachable.

Variable h : Host.
Variable cs : ConfigState.
Variables H H' : Heap.
Variable Addrs : N -> Prop.
Hypothesis host_ok : hostOk h.
Hypothesis agree : agreeOn Addrs H H'.

Variables rec rec' : dumpState -> bool -> Value -> Outcome dumpState.
Hypothesis rec_same : SameWithin Addrs rec rec'.

Lemma dumpElems_reach (es : list Value) (d : dumpState) (a : bool) :
  Forall (deep (within Addrs)) es ->
  dumpElems rec' d a es = dumpElems rec d a es.
Proof.
  intros Hes. revert d. induction Hes as [|e rest He _ IH]; intros d; simpl;
    [done |].
  apply (deep_unpackValue _ a) in He.
  destruct (unpackValue a e) as [a' x]. simpl in He.
  rewrite rec_same by done.
  destruct (rec d a' x); simpl; [apply IH | done | done].
Qed.

Lemma dumpEntries_reach (es : list (Value * Value)) (d : dumpState) :
  Forall (fun kv => deep (within Addrs) kv.1 /\ deep (within Addrs) kv.2) es ->
  dumpEntries rec' d es = dumpEntries rec d es.
Proof.
  intros Hes. revert d.
  induction Hes as [|[key val] rest [Hk Hx] _ IH]; intros d; simpl; [done |].
  simpl in Hk, Hx. apply (deep_unpackValue _ false) in Hk, Hx.
  destruct (unpackValue false key) as [ak k].
  destruct (unpackValue false val) as [ax x]. simpl in Hk, Hx.
  rewrite rec_same by done.
  destruct (rec d ak k); simpl; [| done | done].
  rewrite rec_same by done.
  destruct (rec _ ax x); simpl; [apply IH | done | done].
Qed.

Lemma dumpFields_reach (fs : list (string * Value)) (d : dumpState)
  (a : bool) :
  Forall (fun f => deep (within Addrs) f.2) fs ->
  dumpFields cs rec' d a fs = dumpFields cs rec d a fs.
Proof.
  intros Hfs. revert d. induction Hfs as [|[name f] rest Hf _ IH]; intros d;
    simpl; [done |].
  simpl in Hf. apply (deep_unpackValue _ a) in Hf.
  destruct (unpackValue a f) as [a' x]. simpl in Hf.
  rewrite rec_same by done.
  destruct (rec _ a' x); simpl; [apply IH | done | done].
Qed.

Lemma dumpKind_reach (d : dumpState) (a : bool) (v : Value) :
  deep (within Addrs) v ->
  dumpKind h cs rec' d a v = dumpKind h cs rec d a v.
Proof.
  intros Hv. destruct v; simpl; try done; unfold dumpCompound;
    destruct (tooDeep cs _); try done.
  - rewrite dumpElems_reach; [done | by apply deep_children in Hv].
  - rewrite dumpElems_reach; [done | by apply deep_children in Hv].
  - rewrite dumpEntries_reach; [done | by eapply deep_entries].
  - rewrite dumpFields_reach; [done | by eapply deep_fields].
Qed.

Lemma Elem_reach (p : N) : Addrs p -> Elem H' p = Elem H p.
Proof. intros Hp. unfold Elem. by destruct (agree p Hp) as [-> _]. Qed.

Lemma Elem_within (p : N) : Addrs p -> deep (within Addrs) (Elem H p).
Proof.
  intros Hp. unfold Elem. destruct (agree p Hp) as [_ Hd].
  destruct (H !! p) as [x|]; simpl; [by apply Hd | by apply deep_leaf].
Qed.

Lemma unwrapRound_reach (dep : Z) (u : unwrapState) (ty : string) (p : N) :
  ve u = VPtr ty p -> deep (within Addrs) (ve u) ->
  unwrapRound H' dep u p = unwrapRound H dep u p /\
  forall u', unwrapRound H dep u p = Break u' \/
             unwrapRound H dep u p = Continue u' ->
             deep (within Addrs) (ve u').
Proof.
  intros Hve Hu. unfold unwrapRound.
  destruct (N.eqb_spec p 0) as [-> | Hnz].
  { split; [done |]. intros u' [[= <-] | [=]]. done. }
  destruct (seenAbove _ _ _).
  { split; [done |]. intros u' [[= <-] | [=]]. done. }
  assert (Hp : Addrs p).
  { apply deep_here in Hu. rewrite Hve in Hu. by destruct Hu. }
  rewrite (Elem_reach p Hp). split; [done |].
  assert (Hel := Elem_within p Hp).
  intros u' Hr.
  destruct (Elem H p) as [| | | | | | | | | | ity [e|] | | | | | | |];
    destruct Hr; simplify_eq; simpl; try done.
  apply deep_children in Hel. simpl in Hel. by apply Forall_inv in Hel.
Qed.

Lemma unwrap_reach (fuel : nat) (dep : Z) (u : unwrapState) :
  deep (within Addrs) (ve u) ->
  unwrap fuel H' dep u = unwrap fuel H dep u /\
  forall u', unwrap fuel H dep u = Some u' -> deep (within Addrs) (ve u').
Proof.
  revert u. induction fuel as [|fuel IH]; intros u Hu; simpl.
  - split; [done |]. intros u'.
    destruct (ve u) eqn:Hve; intros [= <-]; by rewrite Hve.
  - destruct (ve u) eqn:Hve;
      try (split; [done |]; intros u' [= <-]; by rewrite Hve).
    rewrite <- Hve in Hu.
    destruct (unwrapRound_reach dep u ty p Hve Hu) as [-> Hnext].
    destruct (unwrapRound H dep u p) as [u1|u1] eqn:Hr.
    + apply IH. apply Hnext. by right.
    + split; [done |]. intros u' [= <-]. apply Hnext. by left.
Qed.

Lemma dumpBody_reach (fuel : nat) (d : dumpState) (a : bool) (v : Value) :
  deep (within Addrs) v ->
  dumpBody h cs H' rec' fuel d a v = dumpBody h cs H rec fuel d a v.
Proof.
  intros Hv. unfold dumpBody. destruct (bool_decide _).
  - unfold dumpPtr.
    destruct (unwrap_reach fuel (depth (pad cs d))
                (unwrapStart (pad cs d) v) Hv) as [-> Hend].
    destruct (unwrap fuel H _ _) as [u|]; [| done].
    destruct (TypeString (ve u)); [| done].
    destruct (nilFound u); [done |]. destruct (cycleFound u); [done |].
    rewrite rec_same; [done |]. by apply Hend.
  - destruct (dumpType cs d v) as [d1| |]; simpl; [| done | done].
    destruct (dumpMethods h cs _ a v) as [[d3 handled]| |]; simpl;
      [| done | done].
    destruct handled; [done |]. by apply dumpKind_reach.
Qed.

End Reachable.

Lemma dump_reach (h : Host) (cs : ConfigState) (H H' : Heap) (Addrs : N -> Prop)
  (fuel : nat) :
  hostOk h -> agreeOn Addrs H H' ->
  SameWithin Addrs (dump h cs H fuel) (dump h cs H' fuel).
Proof.
  intros Hok Hag. induction fuel as [|fuel IH]; intros d a v Hv; [done |].
  simpl. by apply (dumpBody_reach h cs H H' Addrs).
Qed.

(** X15.  A walk reads memory only at the addresses it can reach: when two
    memories hold the same at every address of a set that the pointers
    inside the value and inside the variables at those addresses do not
    leave, the value is dumped alike in both, whatever else they hold. *)
Theorem dump_reads_only_reachable_memory
  (h : Host) (cs : ConfigState) (H H' : Heap) (Addrs : N -> Prop) (fuel : nat)
  (d : dumpState) (ca : bool) (v : Value) :
  hostOk h -> agreeOn Addrs H H' -> deep (within Addrs) v ->
  dump h cs H' fuel d ca v = dump h cs H fuel d ca v.
Proof. intros Hok Hag Hv. by apply (dump_reach h cs H H' Addrs). Qed.

Lemma dump_reads_only_reachable_memory_witness :
  dump plainHost defaultConfig int8PtrHeap 2 (newDumpState "") false int8Ptr
  = dump plainHost defaultConfig int8Heap 2 (newDumpState "") false int8Ptr.
Proof.
  apply (dump_reads_only_reachable_memory plainHost defaultConfig int8Heap
           int8PtrHeap (fun a => a = 16%N)).
  - exact plainHost_ok.
  - intros a ->. split; [reflexivity |].
    intros x Hx. unfold int8Heap in Hx.
    apply lookup_singleton_Some in Hx as [_ <-]. by apply deep_leaf.
  - apply deep_leaf; [done |]. by right.
Defined.

(** ** The text of a value without pointers *)

Lemma dWrite_dWrite (d : dumpState) (a b : string) :
  dWrite (dWrite d a) b = dWrite d (a +:+ b).
Proof.
  apply dumpState_eq; simpl; try done. unfold Write. apply app_assoc_s.
Qed.

Lemma dWrite_empty (d : dumpState) : dWrite d "" = d.
Proof. apply dumpState_eq; simpl; try done. apply app_empty_r. Qed.

Lemma pad_plain (cs : ConfigState) (d : dumpState) :
  ignoreNextPad d = false ->
  pad cs d = dWrite d (Repeat (Indent cs) (Z.to_nat (depth d))).
Proof. intros Hp. unfold pad. by rewrite Hp. Qed.

Lemma sepText_dWrite {A : Type} (rest : list A) (d : dumpState) :
  match rest with
  | [] => dWrite d newlineBytes
  | _ => dWrite d commaNewlineBytes
  end = dWrite d (sepText rest).
Proof. by destruct rest. Qed.

Section TextOfValue.

Variable h : Host.
Variable cs : ConfigState.
Variable sub : nat -> Value -> option string.
Variable rec : dumpState -> bool -> Value -> Outcome dumpState.
Hypothesis rec_text : forall d ca v t,
  ignoreNextType d = false -> 0 <= depth d ->
  sub (Z.to_nat (depth d)) v = Some t ->
  rec d ca v = Ok (dWrite (pad cs d) t).

Lemma dumpElems_text (es : list Value) (d : dumpState) (a : bool)
  (t : string) :
  ignoreNextType d = false -> ignoreNextPad d = false -> 0 <= depth d ->
  elemsText cs sub (Z.to_nat (depth d)) es = Some t ->
  dumpElems rec d a es = Ok (dWrite d t).
Proof.
  revert d t. induction es as [|e rest IH]; intros d t Ht Hp Hd Htext;
    simpl in Htext.
  - simplify_eq. simpl. by rewrite dWrite_empty.
  - cbn [dumpElems]. rewrite <- (unpackValue_snd a) in Htext.
    destruct (unpackValue a e) as [a' x]. simpl in Htext.
    destruct (sub _ x) as [te|] eqn:Hte; [| done]. simpl in Htext.
    destruct (elemsText cs sub _ rest) as [r|] eqn:Hr; [| done].
    simpl in Htext. simplify_eq.
    rewrite (rec_text d a' x te) by done. cbn [mbind Outcome_bind].
    rewrite sepText_dWrite, pad_plain, !dWrite_dWrite by done.
    rewrite (IH _ r) by done.
    by rewrite dWrite_dWrite, !app_assoc_s.
Qed.

Lemma dumpEntries_text (es : list (Value * Value)) (d : dumpState)
  (t : string) :
  ignoreNextType d = false -> ignoreNextPad d = false -> 0 <= depth d ->
  pairsText cs sub (Z.to_nat (depth d)) es = Some t ->
  dumpEntries rec d es = Ok (dWrite d t).
Proof.
  revert d t. induction es as [|[key val] rest IH]; intros d t Ht Hp Hd Htext;
    simpl in Htext.
  - simplify_eq. simpl. by rewrite dWrite_empty.
  - cbn [dumpEntries].
    destruct (unpackValue false key) as [ak k].
    destruct (unpackValue false val) as [ax x]. simpl in Htext.
    destruct (sub _ k) as [tk|] eqn:Htk; [| done]. simpl in Htext.
    destruct (sub _ x) as [tx|] eqn:Htx; [| done]. simpl in Htext.
    destruct (pairsText cs sub _ rest) as [r|] eqn:Hr; [| done].
    simpl in Htext. simplify_eq.
    rewrite (rec_text d ak k tk) by done. cbn [mbind Outcome_bind].
    rewrite (pad_plain cs d Hp).
    rewrite (rec_text _ ax x tx) by done. cbn [mbind Outcome_bind].
    rewrite sepText_dWrite.
    set (ind := Repeat (Indent cs) (Z.to_nat (depth d))).
    assert (Hst : dWrite
              (dWrite (pad cs (set_ignoreNextPad
                                 (dWrite (dWrite (dWrite d ind) tk)
                                    colonSpaceBytes) true)) tx)
              (sepText rest)
            = dWrite d (ind +:+ tk +:+ ": " +:+ tx +:+ sepText rest)).
    { apply dumpState_eq; simpl; try done.
      unfold Write, colonSpaceBytes. by rewrite !app_assoc_s. }
    rewrite Hst, (IH _ r) by done.
    by rewrite dWrite_dWrite, !app_assoc_s.
Qed.

Lemma dumpFields_text (fs : list (string * Value)) (d : dumpState) (a : bool)
  (t : string) :
  ignoreNextType d = false -> ignoreNextPad d = false -> 0 <= depth d ->
  fieldsText cs sub (Z.to_nat (depth d)) fs = Some t ->
  dumpFields cs rec d a fs = Ok (dWrite d t).
Proof.
  revert d t. induction fs as [|[name f] rest IH]; intros d t Ht Hp Hd Htext;
    simpl in Htext.
  - simplify_eq. simpl. by rewrite dWrite_empty.
  - cbn [dumpFields]. rewrite <- (unpackValue_snd a) in Htext.
    destruct (unpackValue a f) as [a' x]. simpl in Htext.
    destruct (sub _ x) as [tf|] eqn:Htf; [| done]. simpl in Htext.
    destruct (fieldsText cs sub _ rest) as [r|] eqn:Hr; [| done].
    simpl in Htext. simplify_eq.
    rewrite (pad_plain cs d Hp).
    rewrite (rec_text _ a' x tf) by done.
    cbn [mbind Outcome_bind]. rewrite sepText_dWrite.
    set (ind := Repeat (Indent cs) (Z.to_nat (depth d))).
    assert (Hst : dWrite
              (dWrite (pad cs (set_ignoreNextPad
                                 (dWrite (dWrite (dWrite d ind) name)
                                    colonSpaceBytes) true)) tf)
              (sepText rest)
            = dWrite d (ind +:+ name +:+ ": " +:+ tf +:+ sepText rest)).
    { apply dumpState_eq; simpl; try done.
      unfold Write, colonSpaceBytes. by rewrite !app_assoc_s. }
    rewrite Hst, (IH _ r) by done.
    by rewrite dWrite_dWrite, !app_assoc_s.
Qed.

Lemma dumpCompound_text (d : dumpState)
  (body : dumpState -> Outcome dumpState) (inner : string) :
  MaxDepth cs = 0 -> ignoreNextPad d = false -> 0 <= depth d ->
  (forall d2, depth d2 = depth d + 1 -> ignoreNextType d2 = ignoreNextType d ->
              ignoreNextPad d2 = false ->
              body d2 = Ok (dWrite d2 inner)) ->
  dumpCompound cs d body
  = Ok (dWrite d (braces cs (Z.to_nat (depth d)) inner)).
Proof.
  intros Hmax Hp Hd Hbody. unfold dumpCompound.
  assert (Hn : forall d2, tooDeep cs d2 = false).
  { intros d2. unfold tooDeep. by rewrite Hmax. }
  rewrite Hn, Hbody by done. cbn [mbind Outcome_bind].
  f_equal. unfold pad. simpl. rewrite Hp.
  apply dumpState_eq; simpl; try done; [| lia].
  unfold braces, Write, openBraceNewlineBytes, closeBraceBytes.
  replace (depth d + 1 - 1) with (depth d) by lia.
  by rewrite !app_assoc_s.
Qed.

Lemma dumpKind_text (d : dumpState) (a : bool) (v : Value) (b : string) :
  MaxDepth cs = 0 ->
  ignoreNextType d = false -> ignoreNextPad d = false -> 0 <= depth d ->
  Kind v <> reflect.Ptr -> Kind v <> reflect.Invalid ->
  bodyText h cs sub (Z.to_nat (depth d)) v = Some b ->
  dumpKind h cs rec d a v = Ok (dWrite d b).
Proof.
  intros Hmax Ht Hp Hd Hk1 Hk2 Hb.
  assert (Hdeep : forall d2, depth d2 = depth d + 1 ->
            S (Z.to_nat (depth d)) = Z.to_nat (depth d2)).
  { intros d2 ->. lia. }
  destruct v; simpl in Hb; try done; cbn [dumpKind].
  - destruct b0; by simplify_eq.
  - by simplify_eq.
  - by simplify_eq.
  - simplify_eq. f_equal. apply dumpState_eq; simpl; try done.
    rewrite <- (app_empty_r (w d)) at 1. by rewrite printHexPtr_prefix.
  - destruct wd; by simplify_eq.
  - destruct wd; simplify_eq; f_equal; apply dumpState_eq; simpl; try done;
      rewrite <- (app_empty_r (w d)) at 1; by rewrite printComplex_prefix.
  - destruct (elemsText _ _ _ elems) as [inner|] eqn:Hin; [| done].
    simpl in Hb. simplify_eq. apply dumpCompound_text; try done.
    intros d2 Hd2 Ht2 Hp2. apply dumpElems_text; try congruence; [lia |].
    by rewrite <- (Hdeep d2).
  - destruct (elemsText _ _ _ elems) as [inner|] eqn:Hin; [| done].
    simpl in Hb. simplify_eq. apply dumpCompound_text; try done.
    intros d2 Hd2 Ht2 Hp2. apply dumpElems_text; try congruence; [lia |].
    by rewrite <- (Hdeep d2).
  - by simplify_eq.
  - simplify_eq. by rewrite dWrite_empty.
  - destruct (pairsText _ _ _ _) as [inner|] eqn:Hin; [| done].
    simpl in Hb. simplify_eq. apply dumpCompound_text; try done.
    intros d2 Hd2 Ht2 Hp2. apply dumpEntries_text; try congruence; [lia |].
    by rewrite <- (Hdeep d2).
  - destruct (fieldsText _ _ _ fields) as [inner|] eqn:Hin; [| done].
    simpl in Hb. simplify_eq. apply dumpCompound_text; try done.
    intros d2 Hd2 Ht2 Hp2. apply dumpFields_text; try congruence; [lia |].
    by rewrite <- (Hdeep d2).
  - simplify_eq. f_equal. apply dumpState_eq; simpl; try done.
    rewrite <- (app_empty_r (w d)) at 1. by rewrite printHexPtr_prefix.
  - simplify_eq. f_equal. apply dumpState_eq; simpl; try done.
    rewrite <- (app_empty_r (w d)) at 1. by rewrite printHexPtr_prefix.
  - simplify_eq. f_equal. apply dumpState_eq; simpl; try done.
    rewrite <- (app_empty_r (w d)) at 1. by rewrite printHexPtr_prefix.
  - destruct canInterface; by simplify_eq.
Qed.

End TextOfValue.

Lemma pad_flags (cs : ConfigState) (d : dumpState) :
  ignoreNextPad (pad cs d) = false /\
  ignoreNextType (pad cs d) = ignoreNextType d /\
  depth (pad cs d) = depth d.
Proof. unfold pad. by destruct (ignoreNextPad d) eqn:Hp. Qed.

Lemma bodyText_not_pointer (h : Host) (cs : ConfigState)
  (sub : nat -> Value -> option string) (dep : nat) (v : Value) (b : string) :
  bodyText h cs sub dep v = Some b -> Kind v <> reflect.Ptr.
Proof. destruct v; simpl; try done; by repeat case_match. Qed.

Lemma TypeString_not_invalid (v : Value) (T : string) :
  TypeString v = Some T -> Kind v <> reflect.Invalid.
Proof. destruct v; simpl; try done; by repeat case_match. Qed.

Lemma dump_text (h : Host) (cs : ConfigState) (H : Heap) (n : nat) :
  noMethods h cs -> MaxDepth cs = 0 ->
  forall d ca v t,
    ignoreNextType d = false -> 0 <= depth d ->
    typedText h cs n (Z.to_nat (depth d)) v = Some t ->
    dump h cs H n d ca v = Ok (dWrite (pad cs d) t).
Proof.
  intros Hq Hmax. induction n as [|n IH]; intros d ca v t Ht Hd Htext;
    [done |].
  cbn [typedText] in Htext.
  destruct (TypeString v) as [T|] eqn:HT; [| done]. simpl in Htext.
  destruct (bodyText h cs _ _ v) as [b|] eqn:Hb; [| done].
  simpl in Htext. simplify_eq.
  assert (Hk := bodyText_not_pointer _ _ _ _ _ _ Hb).
  cbn [dump]. rewrite dumpBody_quiet by done.
  unfold dumpType. rewrite Ht, HT. cbn [negb mbind Outcome_bind].
  destruct (pad_flags cs d) as (Hp1 & Hp2 & Hp3).
  set (d4 := set_ignoreNextType _ false).
  assert (Hkind : dumpKind h cs (dump h cs H n) d4 ca v = Ok (dWrite d4 b)).
  { apply (dumpKind_text h cs (typedText h cs n)); subst d4; simpl;
      try done.
    - lia.
    - by eapply TypeString_not_invalid.
    - by rewrite Hp3. }
  rewrite Hkind. f_equal. subst d4.
  apply dumpState_eq; simpl; try done; [| congruence].
  unfold Write, openParenBytes, closeParenBytes, spaceBytes.
  by rewrite !app_assoc_s.
Qed.

Section TextDefined.

Variable h : Host.
Variable cs : ConfigState.
Variables sub sub' : nat -> Value -> option string.
Hypothesis sub_more : forall dep v t, sub dep v = Some t -> sub' dep v = Some t.

Lemma elemsText_more (dep : nat) (es : list Value) (t : string) :
  elemsText cs sub dep es = Some t -> elemsText cs sub' dep es = Some t.
Proof.
  revert t. induction es as [|e rest IH]; intros t Ht; simpl in *; [done |].
  destruct (sub dep _) as [te|] eqn:Hte; [| done].
  rewrite (sub_more _ _ _ Hte). simpl in *.
  destruct (elemsText cs sub dep rest) as [r|]; [| done].
  by rewrite (IH r).
Qed.

Lemma pairsText_more (dep : nat) (es : list (Value * Value)) (t : string) :
  pairsText cs sub dep es = Some t -> pairsText cs sub' dep es = Some t.
Proof.
  revert t. induction es as [|[key val] rest IH]; intros t Ht; simpl in *;
    [done |].
  destruct (sub dep (unpackValue false key).2) as [tk|] eqn:Htk; [| done].
  rewrite (sub_more _ _ _ Htk). simpl in *.
  destruct (sub dep (unpackValue false val).2) as [tx|] eqn:Htx; [| done].
  rewrite (sub_more _ _ _ Htx). simpl in *.
  destruct (pairsText cs sub dep rest) as [r|]; [| done].
  by rewrite (IH r).
Qed.

Lemma fieldsText_more (dep : nat) (fs : list (string * Value)) (t : string) :
  fieldsText cs sub dep fs = Some t -> fieldsText cs sub' dep fs = Some t.
Proof.
  revert t. induction fs as [|[name f] rest IH]; intros t Ht; simpl in *;
    [done |].
  destruct (sub dep _) as [tf|] eqn:Htf; [| done].
  rewrite (sub_more _ _ _ Htf). simpl in *.
  destruct (fieldsText cs sub dep rest) as [r|]; [| done].
  by rewrite (IH r).
Qed.

Lemma bodyText_more (dep : nat) (v : Value) (b : string) :
  bodyText h cs sub dep v = Some b -> bodyText h cs sub' dep v = Some b.
Proof.
  destruct v; simpl; try done.
  - destruct (elemsText cs sub _ elems) as [t|] eqn:Ht; [| done].
    by rewrite (elemsText_more _ _ _ Ht).
  - destruct (elemsText cs sub _ elems) as [t|] eqn:Ht; [| done].
    by rewrite (elemsText_more _ _ _ Ht).
  - destruct (pairsText cs sub _ _) as [t|] eqn:Ht; [| done].
    by rewrite (pairsText_more _ _ _ Ht).
  - destruct (fieldsText cs sub _ fields) as [t|] eqn:Ht; [| done].
    by rewrite (fieldsText_more _ _ _ Ht).
Qed.

End TextDefined.

Lemma typedText_more (h : Host) (cs : ConfigState) (n n' : nat) (dep : nat)
  (v : Value) (t : string) :
  (n <= n')%nat -> typedText h cs n dep v = Some t ->
  typedText h cs n' dep v = Some t.
Proof.
  revert n' dep v t. induction n as [|n IH]; intros n' dep v t Hle Ht;
    [done |].
  destruct n' as [|n']; [lia |]. cbn [typedText] in *.
  destruct (TypeString v) as [T|]; [| done]. simpl in *.
  destruct (bodyText h cs (typedText h cs n) dep v) as [b|] eqn:Hb; [| done].
  assert (Hmore : forall dep' v' t',
            typedText h cs n dep' v' = Some t' ->
            typedText h cs n' dep' v' = Some t')
    by (intros dep' v' t'; apply IH; lia).
  by rewrite (bodyText_more h cs _ _ Hmore dep v b Hb).
Qed.

(** The text of a list of entries is defined as soon as that of every
    entry is. *)
Lemma texts_defined (h : Host) (cs : ConfigState) (l : list Value) :
  Forall (fun c => exists n, forall dep, is_Some (typedText h cs n dep c)) l ->
  exists n, forall dep c, c ∈ l -> is_Some (typedText h cs n dep c).
Proof.
  induction 1 as [|c l [n1 Hc] _ [n2 Hl]].
  - exists 0%nat. intros dep c Hin. by apply elem_of_nil in Hin.
  - exists (n1 `max` n2)%nat. intros dep c' Hin.
    apply elem_of_cons in Hin as [-> | Hin].
    + destruct (Hc dep) as [t Ht]. exists t.
      apply (typedText_more h cs n1); [lia | done].
    + destruct (Hl dep c' Hin) as [t Ht]. exists t.
      apply (typedText_more h cs n2); [lia | done].
Qed.

Section TextOfLists.

Variable cs : ConfigState.
Variable sub : nat -> Value -> option string.

Lemma elemsText_defined (dep : nat) (es : list Value) :
  (forall e, e ∈ es -> is_Some (sub dep (unpackValue false e).2)) ->
  is_Some (elemsText cs sub dep es).
Proof.
  induction es as [|e rest IH]; intros Hes; simpl; [done |].
  destruct (Hes e) as [t ->]; [by left |]. simpl.
  destruct IH as [r ->]; [| done]. intros e' Hin. apply Hes. by right.
Qed.

Lemma pairsText_defined (dep : nat) (es : list (Value * Value)) :
  (forall kv, kv ∈ es ->
     is_Some (sub dep (unpackValue false kv.1).2) /\
     is_Some (sub dep (unpackValue false kv.2).2)) ->
  is_Some (pairsText cs sub dep es).
Proof.
  induction es as [|[key val] rest IH]; intros Hes; simpl; [done |].
  destruct (Hes (key, val)) as [[tk Htk] [tx Htx]]; [by left |].
  simpl in Htk, Htx. rewrite Htk. simpl. rewrite Htx. simpl.
  destruct IH as [r ->]; [| done]. intros kv Hin. apply Hes. by right.
Qed.

Lemma fieldsText_defined (dep : nat) (fs : list (string * Value)) :
  (forall f, f ∈ fs -> is_Some (sub dep (unpackValue false f.2).2)) ->
  is_Some (fieldsText cs sub dep fs).
Proof.
  induction fs as [|[name f] rest IH]; intros Hfs; simpl; [done |].
  destruct (Hfs (name, f)) as [t Ht]; [by left |]. simpl in Ht.
  rewrite Ht. simpl.
  destruct IH as [r ->]; [| done]. intros f' Hin. apply Hfs. by right.
Qed.

End TextOfLists.

Lemma deep_deep (P : Value -> Prop) (v : Value) :
  deep P v -> deep (deep P) v.
Proof.
  apply (deep_here (fun x => deep P x -> deep (deep P) x)).
  apply deep_all. clear v. intros v Hc Hv. constructor; [done |].
  apply deep_children in Hv.
  rewrite Forall_forall in Hc. rewrite Forall_forall in Hv.
  apply Forall_forall. intros c Hin.
  apply (deep_here _ _ (Hc c Hin)). by apply Hv.
Qed.

(** Every value that holds no pointer and no zero Value has a text. *)
Lemma typedText_defined (h : Host) (cs : ConfigState) (v : Value) :
  hostOk h -> deep plainValue v ->
  exists n, forall dep, is_Some (typedText h cs n dep v).
Proof.
  intros Hok Hv.
  assert (Hall : deep (fun x => deep plainValue x ->
                   exists n, forall dep, is_Some (typedText h cs n dep x)) v);
    [| exact (deep_here _ _ Hall Hv)].
  clear Hv. apply deep_all. clear v. intros v Hc Hv.
  assert (Hkids : Forall (fun c => exists n, forall dep,
                            is_Some (typedText h cs n dep c)) (kids h v)).
  { assert (Hgood : Forall (deep plainValue) (kids h v)).
    { apply (kids_of_children _ h v Hok).
      apply deep_children in Hv. eapply Forall_impl; [exact Hv |].
      apply deep_deep. }
    assert (Hkc := kids_of_children _ h v Hok Hc).
    rewrite Forall_forall in Hkc. rewrite Forall_forall in Hgood.
    apply Forall_forall. intros c Hin. apply Hkc; [done |]. by apply Hgood. }
  apply texts_defined in Hkids as [n Hkids].
  exists (S n). intros dep. cbn [typedText].
  destruct (deep_here _ _ Hv) as [Hk1 Hk2].
  destruct (TypeString v) as [T|] eqn:HT; [| by destruct v]. simpl.
  assert (Hb : is_Some (bodyText h cs (typedText h cs n) dep v)).
  { destruct v; simpl in *; try done.
    - by destruct wd.
    - by destruct wd.
    - apply fmap_is_Some. apply elemsText_defined. intros e Hin.
      apply Hkids. apply list_elem_of_fmap. by exists e.
    - apply fmap_is_Some. apply elemsText_defined. intros e Hin.
      apply Hkids. apply list_elem_of_fmap. by exists e.
    - apply fmap_is_Some. apply pairsText_defined. intros kv Hin.
      split; apply Hkids; apply elem_of_app; [left | right];
        apply list_elem_of_fmap; by exists kv.
    - apply fmap_is_Some. apply fieldsText_defined. intros f Hin.
      apply Hkids. apply list_elem_of_fmap. by exists f. }
  destruct Hb as [b ->]. done.
Qed.

(** X16.  What the walker writes for a value without pointers when no
    method is called and there is no depth limit, in full: the indentation
    unless it is suppressed, the type label, and the text of the value, in
    which every entry of an array, slice, map or struct stands on a line of
    its own, indented by its depth, with a comma after each but the last,
    map entries and fields as key or name, colon, value, and the closing
    brace indented like the line of the opening one.  The state is
    otherwise left as it was, no flag pending.  Every value that holds no
    pointer and no zero Value has such a text. *)
Theorem dump_writes_the_text_of_the_value
  (h : Host) (cs : ConfigState) (H : Heap) (n : nat) (v : Value) (t : string) :
  noMethods h cs -> MaxDepth cs = 0 ->
  (forall d ca,
     ignoreNextType d = false -> 0 <= depth d ->
     typedText h cs n (Z.to_nat (depth d)) v = Some t ->
     dump h cs H n d ca v = Ok (dWrite (pad cs d) t)) /\
  (forall sink,
     typedText h cs n 0 v = Some t ->
     Fdump h cs H n sink [Some v] = Ok (sink +:+ t +:+ newline)) /\
  (hostOk h -> deep plainValue v ->
   exists n', forall dep, is_Some (typedText h cs n' dep v)).
Proof.
  intros Hq Hmax. split_and!.
  - intros d ca. by apply dump_text.
  - intros sink Htext. cbn [Fdump].
    rewrite (dump_text h cs H n Hq Hmax _ false v t) by done.
    cbn [mbind Outcome_bind]. unfold pad. simpl.
    unfold Write, newlineBytes. by rewrite !app_assoc_s.
  - apply typedText_defined.
Qed.

Lemma dump_writes_the_text_of_the_value_witness :
  Fdump plainHost defaultConfig ∅ 3 "" [Some fooValue]
  = Ok ("" +:+ fooText +:+ newline).
Proof.
  apply (dump_writes_the_text_of_the_value plainHost defaultConfig ∅ 3
           fooValue fooText).
  - right. reflexivity.
  - reflexivity.
  - vm_compute. reflexivity.
Defined.

(** ** Addressable and unaddressable values *)

Section Addressable.

Variable h : Host.
Variable cs : ConfigState.
Variable H : Heap.
Hypothesis pointer_methods : DisablePointerMethods cs = false.

Variable rec : dumpState -> bool -> Value -> Outcome dumpState.
Hypothesis rec_blind : AddrBlind rec.

Lemma unpackValue_blind (a a' : bool) (e : Value)
  (k : dumpState -> Outcome dumpState) (d : dumpState) :
  (let '(b, x) := unpackValue a e in mbind k (rec d b x))
  = (let '(b, x) := unpackValue a' e in mbind k (rec d b x)).
Proof.
  destruct e as [| | | | | | | | | | ? [x|] | | | | | | |]; simpl;
    first [done | by rewrite (rec_blind d a a')].
Qed.

Lemma dumpElems_addr (es : list Value) (d : dumpState) (a a' : bool) :
  dumpElems rec d a es = dumpElems rec d a' es.
Proof.
  revert d. induction es as [|e rest IH]; intros d; [done |].
  cbn [dumpElems]. rewrite (unpackValue_blind a a').
  destruct (unpackValue a' e) as [b x].
  destruct (rec d b x); simpl; [apply IH | done | done].
Qed.

Lemma dumpFields_addr (fs : list (string * Value)) (d : dumpState)
  (a a' : bool) :
  dumpFields cs rec d a fs = dumpFields cs rec d a' fs.
Proof.
  revert d. induction fs as [|[name f] rest IH]; intros d; [done |].
  cbn [dumpFields]. rewrite (unpackValue_blind a a').
  destruct (unpackValue a' f) as [b x].
  destruct (rec _ b x); simpl; [apply IH | done | done].
Qed.

Lemma handleMethods_addr (sink : string) (a a' : bool) (v : Value) :
  handleMethods h cs sink a v = handleMethods h cs sink a' v.
Proof. unfold handleMethods, viaPointer. by rewrite pointer_methods. Qed.

Lemma dumpBody_addr (fuel : nat) (d : dumpState) (a a' : bool) (v : Value) :
  dumpBody h cs H rec fuel d a v = dumpBody h cs H rec fuel d a' v.
Proof.
  unfold dumpBody. destruct (bool_decide _); [done |].
  destruct (dumpType cs d v) as [d1| |]; simpl; [| done | done].
  unfold dumpMethods. rewrite (handleMethods_addr _ a a').
  destruct (if negb (DisableMethods cs) then _ else _) as [[d3 handled]| |];
    simpl; [| done | done].
  destruct handled; [done |].
  destruct v; simpl; try done; unfold dumpCompound;
    destruct (tooDeep cs _); try done.
  - by rewrite (dumpElems_addr _ _ a a').
  - by rewrite (dumpFields_addr _ _ a a').
Qed.

End Addressable.

Lemma dump_addr (h : Host) (cs : ConfigState) (H : Heap) (fuel : nat) :
  DisablePointerMethods cs = false -> AddrBlind (dump h cs H fuel).
Proof.
  intros Hpm. induction fuel as [|fuel IH]; intros d a a' v; [done |].
  simpl. by apply dumpBody_addr.
Qed.



(** ** Exactly when the walker terminates *)

Lemma linked_functional (H : Heap) (a b b' : N) :
  linked H a b -> linked H a b' -> b = b'.
Proof.
  intros (ty & [Hl | (ity & Hl)]) (ty' & [Hl' | (ity' & Hl')]); congruence.
Qed.

Lemma unlinked_Acc (H : Heap) (a : N) :
  (forall b, ~ linked H a b) -> Acc (fun b a => linked H a b) a.
Proof. intros Hn. constructor. intros b Hb. by apply Hn in Hb. Qed.

(** A loop of [dumpPtr] that ends, started on a pointer to [a] with no
    address recorded above the current depth, shows that the chain of
    pointers from [a] ends. *)
Lemma unwrap_ends_Acc (H : Heap) (dep : Z) (fuel : nat) (u u' : unwrapState)
  (ty : string) (a : N) :
  H !! 0%N = None ->
  unwrap fuel H dep u = Some u' -> ve u = VPtr ty a ->
  (forall b, seenAbove (ptrs u) b dep = false) ->
  Acc (fun b a => linked H a b) a.
Proof.
  intros Hnil. revert u ty a.
  induction fuel as [|fuel IH]; intros u ty a Hrun Hve Hs; simpl in Hrun;
    rewrite Hve in Hrun; [done |].
  destruct (decide (a = 0%N)) as [-> | Hnz].
  { apply unlinked_Acc. intros x (tyx & [Hl | (ityx & Hl)]); congruence. }
  assert (Hs' : forall b, seenAbove (<[a := dep]> (ptrs u)) b dep = false)
    by (intros b; by apply seenAbove_insert_same).
  unfold unwrapRound in Hrun. apply N.eqb_neq in Hnz. rewrite Hnz, Hs in Hrun.
  unfold Elem in Hrun.
  destruct (H !! a) as [e0|] eqn:Ha; simpl in Hrun.
  - destruct e0 as [| | | | | | | | | | ity [e|] | ty' b | | | | | |];
      try (apply unlinked_Acc; intros x (tyx & [Hl | (ityx & Hl)]);
           congruence).
    + destruct (decide (Kind e = reflect.Ptr)) as [Hk | Hk].
      * apply Kind_Ptr_inv in Hk as (ty' & b & ->).
        constructor. intros b' Hb'.
        assert (b' = b) as ->.
        { apply (linked_functional H a); [done |]. exists ty'. right. eauto. }
        by eapply (IH _ ty' b Hrun).
      * apply unlinked_Acc. intros x (tyx & [Hl | (ityx & Hl)]);
          [congruence |].
        rewrite Ha in Hl. by simplify_eq.
    + constructor. intros b' Hb'.
      assert (b' = b) as ->.
      { apply (linked_functional H a); [done |]. exists ty'. by left. }
      by eapply (IH _ ty' b Hrun).
  - apply unlinked_Acc. intros x (tyx & [Hl | (ityx & Hl)]); congruence.
Qed.

Lemma dump_returns_Acc (h : Host) (cs : ConfigState) (H : Heap) (fuel : nat)
  (a : N) :
  H !! 0%N = None ->
  dump h cs H fuel (newDumpState "") false (VPtr "" a) <> OutOfFuel ->
  Acc (fun b a => linked H a b) a.
Proof.
  intros Hnil Hrun. destruct fuel as [|fuel]; [done |].
  simpl in Hrun. unfold dumpBody in Hrun. simpl in Hrun.
  unfold dumpPtr in Hrun.
  destruct (unwrap _ _ _ _) as [u'|] eqn:Hu; [| done].
  eapply (unwrap_ends_Acc H _ _ _ u' ""); [done | exact Hu | done |].
  intros b. simpl. rewrite seenAbove_prune. done.
Qed.


